(** * masters_control: the master-to-YuMi pose relay

    A shallow embedding of [scripts/masters_yumi_connector.py] (class
    [MastersYuMiConnector]) and the properties of its frame algebra, its
    clutch state machine and its callback queue, followed by an embedding
    of [yumi_teleop/data_loader.py] (module [data_loader]) and the
    properties of its pruning, subsampling and chunk ordering.

    Conventions of the embedding.
    - Scalars.  Rotations and translations hold numbers on which the code
      only performs additions and multiplications.  The embedding is
      parametric in a commutative ring of scalars (class [Scalar]); the
      integers are the instance used to run it.  Rounding of machine
      floats is outside the model.
    - Callbacks.  Each rospy callback is one atomic step
      [Self -> Self * list effect * res unit]: the new object state, the
      log lines and published poses in order, and either a normal return
      or the exception that leaves the callback.  A callback that raises
      keeps the attribute writes it made before the raise, as in Python.
    - The queue [cb_prop_q] is a FIFO list of the dictionaries put on it. *)

From Stdlib Require Import String Ascii List Bool Arith Lia ZArith.
From Stdlib Require Import Ring Ring_theory InitialRing.
From Stdlib Require Import DecimalString DecimalNat.
From Stdlib Require Import Permutation Sorted.
Import ListNotations.

Set Implicit Arguments.
Local Open Scope string_scope.
Local Open Scope list_scope.

(** ** Scalars *)

Class Scalar (K : Type) : Type := {
  k0 : K;
  k1 : K;
  kadd : K -> K -> K;
  kmul : K -> K -> K;
  ksub : K -> K -> K;
  kopp : K -> K;
  scalar_ring : ring_theory k0 k1 kadd kmul ksub kopp (@eq K)
}.

#[global] Instance Scalar_Z : Scalar Z := {
  k0 := 0%Z;
  k1 := 1%Z;
  kadd := Z.add;
  kmul := Z.mul;
  ksub := Z.sub;
  kopp := Z.opp;
  scalar_ring := Zth
}.

Declare Scope scalar_scope.
Delimit Scope scalar_scope with K.
Infix "+" := kadd : scalar_scope.
Infix "*" := kmul : scalar_scope.
Infix "-" := ksub : scalar_scope.
Notation "- x" := (kopp x) : scalar_scope.

(** ** Exceptions and results *)

(** The exceptions the modelled code can raise.  [FrameMismatch] is the
    [ValueError] of a composition whose inner frame labels differ;
    [ValueError] is the one of composing with something that is not a
    transform ([x * None]); [TypeError] is [None * x]; [AttributeError] is
    a method or attribute looked up on [None]. *)
Inductive exn : Type :=
| FrameMismatch
| ValueError
| TypeError
| AttributeError.

Inductive res (A : Type) : Type :=
| Ok (a : A)
| Raise (e : exn).
Arguments Ok {A} a.
Arguments Raise {A} e.

Definition res_bind {A B : Type} (r : res A) (f : A -> res B) : res B :=
  match r with
  | Ok a => f a
  | Raise e => Raise e
  end.

Section Model.

Context {K : Type} {SK : Scalar K}.

Local Open Scope scalar_scope.

(** ** Vectors and 3x3 matrices *)

Record vec3 : Type := Vec3 { vx : K; vy : K; vz : K }.

Record mat3 : Type := Mat3 {
  m00 : K; m01 : K; m02 : K;
  m10 : K; m11 : K; m12 : K;
  m20 : K; m21 : K; m22 : K
}.

(** [np.eye(3)] and [np.zeros(3)]. *)
Definition eye : mat3 := Mat3 k1 k0 k0 k0 k1 k0 k0 k0 k1.
Definition zeros : vec3 := Vec3 k0 k0 k0.

Definition mat_mul (a b : mat3) : mat3 :=
  Mat3
    (m00 a * m00 b + m01 a * m10 b + m02 a * m20 b)
    (m00 a * m01 b + m01 a * m11 b + m02 a * m21 b)
    (m00 a * m02 b + m01 a * m12 b + m02 a * m22 b)
    (m10 a * m00 b + m11 a * m10 b + m12 a * m20 b)
    (m10 a * m01 b + m11 a * m11 b + m12 a * m21 b)
    (m10 a * m02 b + m11 a * m12 b + m12 a * m22 b)
    (m20 a * m00 b + m21 a * m10 b + m22 a * m20 b)
    (m20 a * m01 b + m21 a * m11 b + m22 a * m21 b)
    (m20 a * m02 b + m21 a * m12 b + m22 a * m22 b).

Definition mat_vec (a : mat3) (v : vec3) : vec3 :=
  Vec3
    (m00 a * vx v + m01 a * vy v + m02 a * vz v)
    (m10 a * vx v + m11 a * vy v + m12 a * vz v)
    (m20 a * vx v + m21 a * vy v + m22 a * vz v).

Definition transpose (a : mat3) : mat3 :=
  Mat3 (m00 a) (m10 a) (m20 a)
       (m01 a) (m11 a) (m21 a)
       (m02 a) (m12 a) (m22 a).

Definition mat_opp (a : mat3) : mat3 :=
  Mat3 (- m00 a) (- m01 a) (- m02 a)
       (- m10 a) (- m11 a) (- m12 a)
       (- m20 a) (- m21 a) (- m22 a).

Definition vec_add (u v : vec3) : vec3 :=
  Vec3 (vx u + vx v) (vy u + vy v) (vz u + vz v).

(** A rotation matrix is inverted by its transpose. *)
Definition orthogonal (r : mat3) : Prop :=
  mat_mul (transpose r) r = eye /\ mat_mul r (transpose r) = eye.

(** ** Rigid transforms *)

(** Modelled from the spec: class [RigidTransform] of the package [core],
    which the connector imports and which is not part of the sources.  A
    rotation and a translation tagged with a [(from_frame, to_frame)] label
    pair (section 3); composition requires matching inner labels and fails
    otherwise, inversion swaps the labels, and [as_frames] re-labels
    without touching the numbers (section 4.1). *)
Record RigidTransform : Type := mkRigidTransform {
  rotation : mat3;
  translation : vec3;
  from_frame : string;
  to_frame : string
}.

(** [RigidTransform(from_frame=f, to_frame=t)]: rotation and translation
    default to the identity and to zero. *)
Definition RigidTransform_frames (f t : string) : RigidTransform :=
  mkRigidTransform eye zeros f t.

(** [RigidTransform(rotation=r, from_frame=f, to_frame=t)]. *)
Definition RigidTransform_rotation (r : mat3) (f t : string) : RigidTransform :=
  mkRigidTransform r zeros f t.

(** [a * b]: defined when [b.to_frame == a.from_frame]; the result goes from
    [b.from_frame] to [a.to_frame]. *)
Definition rt_mul (a b : RigidTransform) : res RigidTransform :=
  if String.eqb (to_frame b) (from_frame a) then
    Ok (mkRigidTransform
          (mat_mul (rotation a) (rotation b))
          (vec_add (translation a) (mat_vec (rotation a) (translation b)))
          (from_frame b) (to_frame a))
  else Raise FrameMismatch.

(** [a.inverse()]. *)
Definition inverse (a : RigidTransform) : RigidTransform :=
  mkRigidTransform
    (transpose (rotation a))
    (mat_vec (mat_opp (transpose (rotation a))) (translation a))
    (to_frame a) (from_frame a).

(** [a.as_frames(f, t)]. *)
Definition as_frames (a : RigidTransform) (f t : string) : RigidTransform :=
  mkRigidTransform (rotation a) (translation a) f t.

(** [a.copy()]. *)
Definition copy (a : RigidTransform) : RigidTransform := a.


(** ** ROS poses *)

(** Modelled from the spec: the helpers [ros_pose_to_T] and [T_to_ros_pose]
    of the package [yumi_teleop], whose defining module is not among the
    sources.  A ROS pose message carries a position and an orientation
    (section 6); the orientation is kept here as the rotation matrix it
    denotes.  [ros_pose_to_T] tags the numbers of a message with a frame
    pair, [T_to_ros_pose] drops the tags. *)
Record Pose : Type := mkPose {
  orientation : mat3;
  position : vec3
}.

Definition ros_pose_to_T (p : Pose) (f t : string) : RigidTransform :=
  mkRigidTransform (orientation p) (position p) f t.

Definition T_to_ros_pose (a : RigidTransform) : Pose :=
  mkPose (rotation a) (translation a).

(** ** Module constants *)

Definition _T_MC_YCR : RigidTransform :=
  RigidTransform_rotation
    (Mat3 k0 (kopp k1) k0
          k1 k0 k0
          k0 k0 k1)
    "yumi_current_ref" "masters_current".

Definition _T_YIR_MI : RigidTransform :=
  RigidTransform_rotation
    (Mat3 k0 k1 k0
          (kopp k1) k0 k0
          k0 k0 k1)
    "masters_init" "yumi_init_ref".

(** ** Python operations on attributes that may still be [None] *)

(** [a * b] where either side may be [None]. *)
Definition py_mul (a b : option RigidTransform) : res RigidTransform :=
  match a, b with
  | None, _ => Raise TypeError
  | Some _, None => Raise ValueError
  | Some x, Some y => rt_mul x y
  end.

(** [a.f] or [a.f(...)] where [a] may be [None]. *)
Definition py_getattr {A : Type} (a : option RigidTransform)
    (f : RigidTransform -> A) : res A :=
  match a with
  | Some x => Ok (f x)
  | None => Raise AttributeError
  end.

(** ** The connector object *)

(** The two shapes of dictionary the code puts on [cb_prop_q]:
    [{'has_zeroed': b}] and the six baseline transforms. *)
Inductive cb_dict : Type :=
| HasZeroedDict (val : bool)
| BaselineDict (d_T_w_cu_t d_T_mzr_mz d_T_mc_mcr
                d_T_w_yi d_T_yi_yir d_T_ycr_yc : option RigidTransform).

(** The attributes of [MastersYuMiConnector] that the callbacks read or
    write.  The transport handles ([pub], [rel_pose_sub], [clutch_sub]) and
    the attributes that are only initialised ([has_clutched_down],
    [has_clutched_up], [times]) are left out. *)
Record Self : Type := mkSelf {
  clutch_state : bool;
  _clutch_i : nat;
  T_mz_cu_t : option RigidTransform;
  T_w_cu_t : option RigidTransform;
  T_mzr_mz : option RigidTransform;
  T_mc_mcr : option RigidTransform;
  T_w_mc : option RigidTransform;
  T_w_cd_t1 : option RigidTransform;
  T_w_yi : option RigidTransform;
  T_yi_yir : option RigidTransform;
  T_ycr_yc : option RigidTransform;
  cb_prop_q : list cb_dict;
  has_zeroed : bool
}.

(** [__init__]. *)
Definition init : Self :=
  mkSelf false 0 None None None None None None None None None [] false.

Definition set_clutch_state (v : bool) (self : Self) : Self :=
  mkSelf v (_clutch_i self) (T_mz_cu_t self) (T_w_cu_t self) (T_mzr_mz self)
    (T_mc_mcr self) (T_w_mc self) (T_w_cd_t1 self) (T_w_yi self)
    (T_yi_yir self) (T_ycr_yc self) (cb_prop_q self) (has_zeroed self).

Definition set_clutch_i (v : nat) (self : Self) : Self :=
  mkSelf (clutch_state self) v (T_mz_cu_t self) (T_w_cu_t self)
    (T_mzr_mz self) (T_mc_mcr self) (T_w_mc self) (T_w_cd_t1 self)
    (T_w_yi self) (T_yi_yir self) (T_ycr_yc self) (cb_prop_q self)
    (has_zeroed self).

Definition set_T_mz_cu_t (v : option RigidTransform) (self : Self) : Self :=
  mkSelf (clutch_state self) (_clutch_i self) v (T_w_cu_t self)
    (T_mzr_mz self) (T_mc_mcr self) (T_w_mc self) (T_w_cd_t1 self)
    (T_w_yi self) (T_yi_yir self) (T_ycr_yc self) (cb_prop_q self)
    (has_zeroed self).

Definition set_T_w_cu_t (v : option RigidTransform) (self : Self) : Self :=
  mkSelf (clutch_state self) (_clutch_i self) (T_mz_cu_t self) v
    (T_mzr_mz self) (T_mc_mcr self) (T_w_mc self) (T_w_cd_t1 self)
    (T_w_yi self) (T_yi_yir self) (T_ycr_yc self) (cb_prop_q self)
    (has_zeroed self).

Definition set_T_mzr_mz (v : option RigidTransform) (self : Self) : Self :=
  mkSelf (clutch_state self) (_clutch_i self) (T_mz_cu_t self)
    (T_w_cu_t self) v (T_mc_mcr self) (T_w_mc self) (T_w_cd_t1 self)
    (T_w_yi self) (T_yi_yir self) (T_ycr_yc self) (cb_prop_q self)
    (has_zeroed self).

Definition set_T_mc_mcr (v : option RigidTransform) (self : Self) : Self :=
  mkSelf (clutch_state self) (_clutch_i self) (T_mz_cu_t self)
    (T_w_cu_t self) (T_mzr_mz self) v (T_w_mc self) (T_w_cd_t1 self)
    (T_w_yi self) (T_yi_yir self) (T_ycr_yc self) (cb_prop_q self)
    (has_zeroed self).

Definition set_T_w_mc (v : option RigidTransform) (self : Self) : Self :=
  mkSelf (clutch_state self) (_clutch_i self) (T_mz_cu_t self)
    (T_w_cu_t self) (T_mzr_mz self) (T_mc_mcr self) v (T_w_cd_t1 self)
    (T_w_yi self) (T_yi_yir self) (T_ycr_yc self) (cb_prop_q self)
    (has_zeroed self).

Definition set_T_w_cd_t1 (v : option RigidTransform) (self : Self) : Self :=
  mkSelf (clutch_state self) (_clutch_i self) (T_mz_cu_t self)
    (T_w_cu_t self) (T_mzr_mz self) (T_mc_mcr self) (T_w_mc self) v
    (T_w_yi self) (T_yi_yir self) (T_ycr_yc self) (cb_prop_q self)
    (has_zeroed self).

Definition set_T_w_yi (v : option RigidTransform) (self : Self) : Self :=
  mkSelf (clutch_state self) (_clutch_i self) (T_mz_cu_t self)
    (T_w_cu_t self) (T_mzr_mz self) (T_mc_mcr self) (T_w_mc self)
    (T_w_cd_t1 self) v (T_yi_yir self) (T_ycr_yc self) (cb_prop_q self)
    (has_zeroed self).

Definition set_T_yi_yir (v : option RigidTransform) (self : Self) : Self :=
  mkSelf (clutch_state self) (_clutch_i self) (T_mz_cu_t self)
    (T_w_cu_t self) (T_mzr_mz self) (T_mc_mcr self) (T_w_mc self)
    (T_w_cd_t1 self) (T_w_yi self) v (T_ycr_yc self) (cb_prop_q self)
    (has_zeroed self).

Definition set_T_ycr_yc (v : option RigidTransform) (self : Self) : Self :=
  mkSelf (clutch_state self) (_clutch_i self) (T_mz_cu_t self)
    (T_w_cu_t self) (T_mzr_mz self) (T_mc_mcr self) (T_w_mc self)
    (T_w_cd_t1 self) (T_w_yi self) (T_yi_yir self) v (cb_prop_q self)
    (has_zeroed self).

Definition set_cb_prop_q (v : list cb_dict) (self : Self) : Self :=
  mkSelf (clutch_state self) (_clutch_i self) (T_mz_cu_t self)
    (T_w_cu_t self) (T_mzr_mz self) (T_mc_mcr self) (T_w_mc self)
    (T_w_cd_t1 self) (T_w_yi self) (T_yi_yir self) (T_ycr_yc self) v
    (has_zeroed self).

Definition set_has_zeroed (v : bool) (self : Self) : Self :=
  mkSelf (clutch_state self) (_clutch_i self) (T_mz_cu_t self)
    (T_w_cu_t self) (T_mzr_mz self) (T_mc_mcr self) (T_w_mc self)
    (T_w_cd_t1 self) (T_w_yi self) (T_yi_yir self) (T_ycr_yc self)
    (cb_prop_q self) v.

(** ** Effects and the callback monad *)

(** The lines the code logs with [rospy.loginfo] (time stamps and the
    publisher name left out). *)
Inductive log_msg : Type :=
| LogSettingZero (val : bool)
| LogResetInitPose
| LogReceivedYumiPose (t : vec3)
| LogDoneInitPose
| LogClutchDown (i : nat)
| LogClutchUp (i : nat).

Inductive effect : Type :=
| Loginfo (m : log_msg)
| Publish (p : Pose).

Definition Cb (A : Type) : Type := Self -> Self * list effect * res A.

Definition ret {A : Type} (a : A) : Cb A :=
  fun self => (self, [], Ok a).

Definition bind {A B : Type} (m : Cb A) (f : A -> Cb B) : Cb B :=
  fun self =>
    match m self with
    | (self1, w1, Ok a) =>
        match f a self1 with
        | (self2, w2, r) => (self2, w1 ++ w2, r)
        end
    | (self1, w1, Raise e) => (self1, w1, Raise e)
    end.

Definition get {A : Type} (f : Self -> A) : Cb A :=
  fun self => (self, [], Ok (f self)).

Definition modify (f : Self -> Self) : Cb unit :=
  fun self => (f self, [], Ok tt).

Definition lift {A : Type} (r : res A) : Cb A :=
  fun self => (self, [], r).

Definition loginfo (m : log_msg) : Cb unit :=
  fun self => (self, [Loginfo m], Ok tt).

Definition publish (p : Pose) : Cb unit :=
  fun self => (self, [Publish p], Ok tt).

(** [self.cb_prop_q.put(d)]. *)
Definition cb_prop_q_put (d : cb_dict) : Cb unit :=
  modify (fun self => set_cb_prop_q (cb_prop_q self ++ [d]) self).

Declare Scope cb_scope.
Delimit Scope cb_scope with cb.
Notation "x <- m ;; k" := (bind m (fun x => k))
  (at level 61, m at next level, right associativity) : cb_scope.
Notation "m ;; k" := (bind m (fun _ => k))
  (at level 61, right associativity) : cb_scope.
Notation "'let!' x ':=' r 'in' k" := (res_bind r (fun x => k))
  (at level 10, x name, r at level 100, k at level 200).

Local Open Scope cb_scope.

(** ** The methods *)

Definition str_of_int (n : nat) : string :=
  NilEmpty.string_of_uint (Nat.to_uint n).

(** ['clutch_{0}_{1}'.format(state, i)]. *)
Definition clutch_label (state : string) (i : nat) : string :=
  "clutch_" ++ state ++ "_" ++ str_of_int i.

Definition _clutch (self : Self) (state : string) : string :=
  clutch_label state (_clutch_i self).

(** [for key, val in d.items(): ... setattr(self, key, val)]. *)
Definition apply_dict (d : cb_dict) : Cb unit :=
  match d with
  | HasZeroedDict val =>
      loginfo (LogSettingZero val) ;;
      modify (set_has_zeroed val)
  | BaselineDict cu mzr mcr yi yir ycr =>
      modify (set_T_w_cu_t cu) ;;
      modify (set_T_mzr_mz mzr) ;;
      modify (set_T_mc_mcr mcr) ;;
      modify (set_T_w_yi yi) ;;
      modify (set_T_yi_yir yir) ;;
      modify (set_T_ycr_yc ycr)
  end.

Definition _update_cb_objs : Cb unit :=
  q <- get cb_prop_q ;;
  match q with
  | [] => ret tt
  | d :: q' =>
      modify (set_cb_prop_q q') ;;
      apply_dict d
  end.

Definition _reset_init_poses (yumi_pose : RigidTransform) : Cb unit :=
  loginfo LogResetInitPose ;;
  loginfo (LogReceivedYumiPose (translation yumi_pose)) ;;
  cb_prop_q_put (HasZeroedDict false) ;;

  up <- get (fun self => _clutch self "up") ;;
  modify (set_T_mz_cu_t (Some (RigidTransform_frames up "masters_zero"))) ;;
  w_mc <- get T_w_mc ;;
  up <- get (fun self => _clutch self "up") ;;
  w_cu <- lift (py_getattr w_mc (fun T => as_frames T up "world")) ;;
  modify (set_T_w_cu_t (Some w_cu)) ;;
  w_cu <- get T_w_cu_t ;;
  r <- lift (py_getattr w_cu rotation) ;;
  modify (set_T_mzr_mz
            (Some (RigidTransform_rotation r "masters_zero" "masters_zero_ref"))) ;;
  w_cu <- get T_w_cu_t ;;
  r <- lift (py_getattr w_cu (fun T => rotation (inverse T))) ;;
  modify (set_T_mc_mcr
            (Some (RigidTransform_rotation r "masters_current_ref" "masters_current"))) ;;

  modify (set_T_w_yi (Some (copy yumi_pose))) ;;
  w_yi <- get T_w_yi ;;
  r <- lift (py_getattr w_yi (fun T => rotation (inverse T))) ;;
  modify (set_T_yi_yir
            (Some (RigidTransform_rotation r "yumi_init_ref" "yumi_init"))) ;;
  w_yi <- get T_w_yi ;;
  r <- lift (py_getattr w_yi rotation) ;;
  modify (set_T_ycr_yc
            (Some (RigidTransform_rotation r "yumi_current" "yumi_current_ref"))) ;;

  d <- get (fun self =>
              BaselineDict (T_w_cu_t self) (T_mzr_mz self) (T_mc_mcr self)
                           (T_w_yi self) (T_yi_yir self) (T_ycr_yc self)) ;;
  cb_prop_q_put d ;;

  cb_prop_q_put (HasZeroedDict true) ;;

  loginfo LogDoneInitPose.

(** Lines 126-131: the chain of compositions that gives the robot target
    [T_w_yc] from the attributes of [self]. *)
Definition target_pose (self : Self) : res RigidTransform :=
  let! inv := py_getattr (T_w_cu_t self) inverse in
  let! x := py_mul (T_mz_cu_t self) (Some inv) in
  let! T_mz_mc := py_mul (Some x) (T_w_mc self) in
  let! x := py_mul (T_mzr_mz self) (Some T_mz_mc) in
  let! T_mzr_mcr := py_mul (Some x) (T_mc_mcr self) in

  let T_mi_mc := as_frames T_mzr_mcr "masters_current" "masters_init" in
  let! x := rt_mul _T_YIR_MI T_mi_mc in
  let! T_yir_ycr := rt_mul x _T_MC_YCR in
  let! x := py_mul (T_w_yi self) (T_yi_yir self) in
  let! x := rt_mul x T_yir_ycr in
  py_mul (Some x) (T_ycr_yc self).

Definition _position_cartesian_current_callback (ros_pose : Pose) : Cb unit :=
  modify (set_T_w_mc (Some (ros_pose_to_T ros_pose "masters_current" "world"))) ;;
  _update_cb_objs ;;
  zeroed <- get has_zeroed ;;
  if negb zeroed then ret tt
  else
    clutched <- get clutch_state ;;
    if negb clutched then
      T_w_yc <- get target_pose ;;
      T_w_yc <- lift T_w_yc ;;
      publish (T_to_ros_pose T_w_yc)
    else ret tt.

(** Lines 151-152: the new [T_mz_cu_t] at clutch-up. *)
Definition folded_baseline (self : Self) : res RigidTransform :=
  let! inv := py_getattr (T_w_cu_t self) inverse in
  let! x := py_mul (T_mz_cu_t self) (Some inv) in
  let! x := py_mul (Some x) (T_w_cd_t1 self) in
  rt_mul x (RigidTransform_frames (_clutch self "up") (_clutch self "down")).

Definition _clutch_callback (data : bool) : Cb unit :=
  zeroed <- get has_zeroed ;;
  if negb zeroed then ret tt
  else
    let clutch_down := data in
    (if clutch_down then
       modify (fun self => set_clutch_i (_clutch_i self + 1) self) ;;
       i <- get _clutch_i ;;
       loginfo (LogClutchDown i) ;;
       w_mc <- get T_w_mc ;;
       down <- get (fun self => _clutch self "down") ;;
       w_cd <- lift (py_getattr w_mc (fun T => as_frames T down "world")) ;;
       modify (set_T_w_cd_t1 (Some w_cd))
     else
       i <- get _clutch_i ;;
       loginfo (LogClutchUp i) ;;
       mz_cu <- get folded_baseline ;;
       mz_cu <- lift mz_cu ;;
       modify (set_T_mz_cu_t (Some mz_cu)) ;;
       w_mc <- get T_w_mc ;;
       up <- get (fun self => _clutch self "up") ;;
       w_cu <- lift (py_getattr w_mc (fun T => as_frames T up "world")) ;;
       modify (set_T_w_cu_t (Some w_cu))) ;;
    modify (set_clutch_state clutch_down).

(** The service handler of [__main__], for one arm. *)
Definition reset_init_poses (res_pose : Pose) : Cb unit :=
  _reset_init_poses (ros_pose_to_T res_pose "yumi_init" "world").

(** ** Runs *)

Inductive event : Type :=
| EvPose (ros_pose : Pose)
| EvClutch (data : bool)
| EvReset (res_pose : Pose).

Definition callback (e : event) : Cb unit :=
  match e with
  | EvPose p => _position_cartesian_current_callback p
  | EvClutch b => _clutch_callback b
  | EvReset p => reset_init_poses p
  end.

(** What one callback did: its effects in order and how it ended. *)
Definition outcome : Type := (list effect * res unit)%type.

Fixpoint run (evs : list event) (self : Self) : Self * list outcome :=
  match evs with
  | [] => (self, [])
  | e :: evs' =>
      match callback e self with
      | (self1, w, r) =>
          match run evs' self1 with
          | (self2, outs) => (self2, (w, r) :: outs)
          end
      end
  end.

(** The poses a callback published. *)
Fixpoint published (w : list effect) : list Pose :=
  match w with
  | [] => []
  | Publish p :: w' => p :: published w'
  | Loginfo _ :: w' => published w'
  end.

End Model.

(** ** Derived notions used by the statements *)

Section Notions.

Context {K : Type} {SK : Scalar K}.

Definition state_of {A : Type} (x : @Self K * list (@effect K) * res A)
  : @Self K := fst (fst x).

Definition effects_of {A : Type} (x : @Self K * list (@effect K) * res A)
  : list (@effect K) := snd (fst x).

Definition result_of {A : Type} (x : @Self K * list (@effect K) * res A)
  : res A := snd x.

(** What the transport saw of each callback of a run: the poses published
    and how the callback ended. *)
Definition emissions (outs : list (@outcome K))
  : list (list (@Pose K) * res unit) :=
  map (fun o => (published (fst o), snd o)) outs.

(** The attribute writes of [apply_dict] and the lines it logs. *)
Definition setattrs (d : @cb_dict K) (self : @Self K) : @Self K :=
  match d with
  | HasZeroedDict val => set_has_zeroed val self
  | BaselineDict cu mzr mcr yi yir ycr =>
      set_T_ycr_yc ycr (set_T_yi_yir yir (set_T_w_yi yi
        (set_T_mc_mcr mcr (set_T_mzr_mz mzr (set_T_w_cu_t cu self)))))
  end.

Definition dict_log (d : @cb_dict K) : list (@effect K) :=
  match d with
  | HasZeroedDict val => [Loginfo (LogSettingZero val)]
  | BaselineDict _ _ _ _ _ _ => []
  end.

(** The state [_update_cb_objs] leaves and the lines it logs. *)
Definition drained (self : @Self K) : @Self K :=
  match cb_prop_q self with
  | [] => self
  | d :: q => setattrs d (set_cb_prop_q q self)
  end.

Definition drain_log (self : @Self K) : list (@effect K) :=
  match cb_prop_q self with
  | [] => []
  | d :: _ => dict_log d
  end.

(** The latest master pose as the pose callback stores it. *)
Definition stored (P : @Pose K) (self : @Self K) : @Self K :=
  set_T_w_mc (Some (ros_pose_to_T P "masters_current" "world")) self.

(** The baseline dictionary a reset computes at epoch [i] from the
    last-known master pose [m] and the robot pose [Y]. *)
Definition zero_baseline (i : nat) (m Y : @RigidTransform K) : @cb_dict K :=
  let cu := as_frames m (clutch_label "up" i) "world" in
  BaselineDict
    (Some cu)
    (Some (RigidTransform_rotation (rotation cu)
             "masters_zero" "masters_zero_ref"))
    (Some (RigidTransform_rotation (rotation (inverse cu))
             "masters_current_ref" "masters_current"))
    (Some Y)
    (Some (RigidTransform_rotation (rotation (inverse Y))
             "yumi_init_ref" "yumi_init"))
    (Some (RigidTransform_rotation (rotation Y)
             "yumi_current" "yumi_current_ref")).

(** The state a reset that returns leaves. *)
Definition reset_state (m Y : @RigidTransform K) (self : @Self K) : @Self K :=
  let i := _clutch_i self in
  let d := zero_baseline i m Y in
  set_cb_prop_q
    (cb_prop_q self ++ [HasZeroedDict false; d; HasZeroedDict true])
    (set_T_mz_cu_t
       (Some (RigidTransform_frames (clutch_label "up" i) "masters_zero"))
       (setattrs d self)).

(** Poses as elements of the group of rigid motions, without labels. *)
Definition pose_mul (a b : @Pose K) : @Pose K :=
  mkPose (mat_mul (orientation a) (orientation b))
         (vec_add (position a) (mat_vec (orientation a) (position b))).

Definition pose_inv (a : @Pose K) : @Pose K :=
  mkPose (transpose (orientation a))
         (mat_vec (mat_opp (transpose (orientation a))) (position a)).

Definition pose_id : @Pose K := mkPose eye zeros.

Definition pose_rot (r : @mat3 K) : @Pose K := mkPose r zeros.

(** [translate(dx, 0, 0)]. *)
Definition translate_x (dx : K) : @Pose K := mkPose eye (Vec3 dx k0 k0).

(** Line 126 alone, and lines 127-131 as a function of its result. *)
Definition master_delta (self : @Self K) : res (@RigidTransform K) :=
  res_bind (py_getattr (T_w_cu_t self) inverse) (fun inv =>
  res_bind (py_mul (T_mz_cu_t self) (Some inv)) (fun x =>
  py_mul (Some x) (T_w_mc self))).

Definition robot_target (self : @Self K) (T_mz_mc : @RigidTransform K)
  : res (@RigidTransform K) :=
  res_bind (py_mul (T_mzr_mz self) (Some T_mz_mc)) (fun x =>
  res_bind (py_mul (Some x) (T_mc_mcr self)) (fun T_mzr_mcr =>
  let T_mi_mc := as_frames T_mzr_mcr "masters_current" "masters_init" in
  res_bind (rt_mul _T_YIR_MI T_mi_mc) (fun x =>
  res_bind (rt_mul x _T_MC_YCR) (fun T_yir_ycr =>
  res_bind (py_mul (T_w_yi self) (T_yi_yir self)) (fun x =>
  res_bind (rt_mul x T_yir_ycr) (fun x =>
  py_mul (Some x) (T_ycr_yc self))))))).

(** The composition of section 4.4, step 4, written on poses without labels
    in the order of the spec's words: the master motion since the zero,
    the two re-basing rotations around it, the two calibration rotations
    around that, and the robot-side chain around the whole. *)
Definition spec_target_pose (self : @Self K) (P : @Pose K) : option (@Pose K) :=
  match T_mz_cu_t self, T_w_cu_t self, T_mzr_mz self, T_mc_mcr self,
        T_w_yi self, T_yi_yir self, T_ycr_yc self with
  | Some mz_cu, Some w_cu, Some mzr_mz, Some mc_mcr,
    Some w_yi, Some yi_yir, Some ycr_yc =>
      let p := T_to_ros_pose in
      let T_masterZero_masterCurrent :=
        pose_mul (pose_mul (p mz_cu) (pose_inv (p w_cu))) P in
      let rebased :=
        pose_mul (pose_mul (p mzr_mz) T_masterZero_masterCurrent) (p mc_mcr) in
      let calibrated :=
        pose_mul (pose_mul (p _T_YIR_MI) rebased) (p _T_MC_YCR) in
      Some (pose_mul (pose_mul (pose_mul (p w_yi) (p yi_yir)) calibrated)
                     (p ycr_yc))
  | _, _, _, _, _, _, _ => None
  end.

(** The label equalities the compositions of lines 126-131 ask of the
    attributes, when the master pose is the one the callback just stored
    (from ["masters_current"] to ["world"]). *)
Definition chain_frames_ok (self : @Self K) : bool :=
  match T_mz_cu_t self, T_w_cu_t self, T_mzr_mz self, T_mc_mcr self,
        T_w_yi self, T_yi_yir self, T_ycr_yc self with
  | Some mz_cu, Some w_cu, Some mzr_mz, Some mc_mcr,
    Some w_yi, Some yi_yir, Some ycr_yc =>
      String.eqb (from_frame w_cu) (from_frame mz_cu)
      && String.eqb (to_frame w_cu) "world"
      && String.eqb (to_frame mz_cu) (from_frame mzr_mz)
      && String.eqb (to_frame mc_mcr) "masters_current"
      && String.eqb (to_frame yi_yir) (from_frame w_yi)
      && String.eqb (from_frame yi_yir) "yumi_init_ref"
      && String.eqb (to_frame ycr_yc) "yumi_current_ref"
  | _, _, _, _, _, _, _ => false
  end.


(** What the pose callback does after [_update_cb_objs] has logged [w] and
    left the state [s1]: the effects and the result of lines 121-133. *)
Definition forward_outcome (w : list (@effect K)) (s1 : @Self K) : @outcome K :=
  if has_zeroed s1 && negb (clutch_state s1) then
    match target_pose s1 with
    | Ok T => (w ++ [Publish (T_to_ros_pose T)], Ok tt)
    | Raise e => (w, Raise e)
    end
  else (w, Ok tt).

(** The state of a relay once the three dictionaries of a reset have been
    applied, the last one by the callback of the pose [P]: the baseline
    dictionary [d] over the attributes, [has_zeroed] true, nothing queued. *)
Definition settled (d : @cb_dict K) (P : @Pose K) (self : @Self K) : @Self K :=
  set_has_zeroed true (setattrs d (set_cb_prop_q [] (stored P self))).


(** The six baseline attributes of a relay, as the dictionary a reset
    queues. *)
Definition baseline_of (self : @Self K) : @cb_dict K :=
  BaselineDict (T_w_cu_t self) (T_mzr_mz self) (T_mc_mcr self)
               (T_w_yi self) (T_yi_yir self) (T_ycr_yc self).


Definition is_pose (e : @event K) : bool :=
  match e with
  | EvPose _ => true
  | _ => false
  end.

(** The attributes a reset or a clutch-up computes. *)
Definition live_baseline (self : @Self K)
  : option (@RigidTransform K) * @cb_dict K :=
  (T_mz_cu_t self, baseline_of self).

(** The queue discipline of section 5 as the spec states it: a reset or a
    clutch-up leaves the live attributes alone and puts its update on the
    queue; the pose callback leaves nothing pending. *)
Definition queue_discipline (e : @event K) (self : @Self K) : Prop :=
  let s' := state_of (callback e self) in
  match e with
  | EvPose _ => cb_prop_q s' = []
  | EvClutch true => True
  | EvClutch false | EvReset _ =>
      live_baseline s' = live_baseline self /\
      exists ds, ds <> [] /\ cb_prop_q s' = cb_prop_q self ++ ds
  end.

(** The failure handling of section 4.4 as the spec states it: the callback
    of a sample whose composition fails on its labels returns normally,
    having logged the failure and published nothing. *)
Definition mismatch_handled (P : @Pose K) (self : @Self K) : Prop :=
  let r := callback (EvPose P) self in
  result_of r = Ok tt /\
  published (effects_of r) = [] /\
  effects_of r <> drain_log (stored P self).


(** The states a relay can be in: those a run of callbacks reaches from
    [__init__]. *)
Definition reachable (self : @Self K) : Prop :=
  exists evs, self = fst (run evs init).

Definition is_unzero (d : @cb_dict K) : bool :=
  match d with
  | HasZeroedDict false => true
  | _ => false
  end.

(** Queues made of the dictionaries of whole resets. *)
Inductive whole_resets : list (@cb_dict K) -> Prop :=
| whole_nil : whole_resets []
| whole_cons (cu mzr mcr yi yir ycr : option (@RigidTransform K)) q :
    whole_resets q ->
    whole_resets (HasZeroedDict false :: BaselineDict cu mzr mcr yi yir ycr
                    :: HasZeroedDict true :: q).

(** The shape of the queue in a reachable state.  Before the first master
    pose only resets that raised have queued something.  When [has_zeroed]
    holds, the queue holds whole resets; otherwise they may be preceded by
    the rest of a reset that is being applied, or by the dictionaries of
    resets that raised. *)
Definition queue_invariant (self : @Self K) : Prop :=
  (T_w_mc self = None ->
   has_zeroed self = false /\ forallb is_unzero (cb_prop_q self) = true) /\
  (has_zeroed self = true -> whole_resets (cb_prop_q self)) /\
  (has_zeroed self = false ->
   exists pre q,
     cb_prop_q self = pre ++ q /\ whole_resets q /\
     (forallb is_unzero pre = true \/
      (exists cu mzr mcr yi yir ycr,
          pre = [BaselineDict cu mzr mcr yi yir ycr; HasZeroedDict true]) \/
      pre = [HasZeroedDict true])).


(** The states a run goes through, one per event. *)
Fixpoint states (evs : list (@event K)) (self : @Self K) : list (@Self K) :=
  match evs with
  | [] => []
  | e :: evs' =>
      let self1 := state_of (callback e self) in
      self1 :: states evs' self1
  end.

Definition is_reset (e : @event K) : bool :=
  match e with
  | EvReset _ => true
  | _ => false
  end.

Definition is_clutch_state (state : string) : Prop :=
  state = "up" \/ state = "down".

(** C3 as the spec words it: in a zeroed state with the clutch engaged, a
    clutch-release leaves
    [T_mz_cu_t = T_mz_cu_t * inverse(T_w_cu_t) * T_w_cd_t1 * relabel] and
    refreshes [T_w_cu_t] to the current master pose under the clutch-up
    label. *)
Definition clutch_up_law (self : @Self K) : Prop :=
  has_zeroed self = true -> clutch_state self = true ->
  forall mz_cu w_cu w_cd w_mc : RigidTransform,
    T_mz_cu_t self = Some mz_cu -> T_w_cu_t self = Some w_cu ->
    T_w_cd_t1 self = Some w_cd -> T_w_mc self = Some w_mc ->
    let r := _clutch_callback false self in
    (exists new,
        T_mz_cu_t (state_of r) = Some new /\
        T_to_ros_pose new =
        pose_mul (pose_mul (T_to_ros_pose mz_cu)
                           (pose_inv (T_to_ros_pose w_cu)))
                 (T_to_ros_pose w_cd)) /\
    T_w_cu_t (state_of r) = Some (as_frames w_mc (_clutch self "up") "world").

(** C7 as the spec words it: after the master poses [ps], the relay answers
    the master pose [P] in the same way whether it was reset once or twice
    in a row with the robot pose [Y]. *)
Definition rezero_idempotent (self : @Self K) (Y : Pose) (ps : list Pose)
    (P : Pose) : Prop :=
  emissions
    (snd (run [EvPose P] (fst (run (EvReset Y :: map EvPose ps) self)))) =
  emissions
    (snd (run [EvPose P]
              (fst (run (EvReset Y :: EvReset Y :: map EvPose ps) self)))).


End Notions.

(** ** Concrete data over the integers *)

(** A quarter turn about the z axis. *)
Definition ex_quarter_turn : @mat3 Z := (Mat3 0 (-1) 0 1 0 0 0 0 1)%Z.

Definition ex_M0 : @Pose Z := mkPose ex_quarter_turn (Vec3 5 6 7)%Z.
Definition ex_M1 : @Pose Z := mkPose eye (Vec3 1 2 3)%Z.
Definition ex_Y : @Pose Z := mkPose ex_quarter_turn (Vec3 10 20 30)%Z.

(** The relay after its first zeroing: a master pose, a reset, and the
    three pose callbacks that apply the three queued dictionaries. *)
Definition ex_zeroed : @Self Z :=
  Eval vm_compute in
    fst (run [EvPose ex_M0; EvReset ex_Y; EvPose ex_M0; EvPose ex_M0;
              EvPose ex_M0] init).

(** The same relay with the clutch pressed and the master moved. *)
Definition ex_engaged : @Self Z :=
  Eval vm_compute in fst (run [EvClutch true; EvPose ex_M1] ex_zeroed).

(** A relay just after its first reset: three dictionaries are queued. *)
Definition ex_resetting : @Self Z :=
  Eval vm_compute in fst (run [EvPose ex_M0; EvReset ex_Y] init).

(** A zeroed relay that is reset again, and whose clutch is pressed and
    released before the next master pose arrives; three poses later the
    queued baseline of the reset has replaced the clutch-up pose of the
    release. *)
Definition ex_stale : @Self Z :=
  Eval vm_compute in
    fst (run [EvReset ex_Y; EvClutch true; EvClutch false;
              EvPose ex_M1; EvPose ex_M1; EvPose ex_M1] ex_zeroed).

(** The same relay with the clutch pressed again: zeroed and engaged, its
    two clutch-up transforms labelled with different epochs. *)
Definition ex_stale_engaged : @Self Z :=
  Eval vm_compute in fst (run [EvClutch true] ex_stale).

(** A result that is a value or a [FrameMismatch]. *)
Definition only_mismatch {A : Type} (r : res A) : Prop :=
  match r with
  | Ok _ => True
  | Raise e => e = FrameMismatch
  end.


(** ** Further notions of the relay *)

Section Further.

Context {K : Type} {SK : Scalar K}.

Local Open Scope scalar_scope.

Definition vec_sub (u v : @vec3 K) : @vec3 K :=
  Vec3 (vx u - vx v) (vy u - vy v) (vz u - vz v).

(** The robot pose that corresponds to the master pose [P] when the relay
    was zeroed with the master at [M0] and the robot at [Y]: the rotation of
    the master since the zero, seen in the world and turned by the
    calibration constants, applied to the orientation of [Y]; the
    displacement of the master since the zero, turned by the calibration
    constant, added to the position of [Y]. *)
Definition zeroed_target (M0 Y P : @Pose K) : @Pose K :=
  mkPose
    (mat_mul
       (mat_mul
          (mat_mul (rotation _T_YIR_MI)
                   (mat_mul (orientation P) (transpose (orientation M0))))
          (rotation _T_MC_YCR))
       (orientation Y))
    (vec_add (position Y)
             (mat_vec (rotation _T_YIR_MI)
                      (vec_sub (position P) (position M0)))).

(** The service handler [reset_init_poses] of [__main__] on the two
    relays: the left one is reset first, an exception of either reset
    leaves the handler, and the reply is ['ok']. *)
Definition main_reset_init_poses (res_left res_right : @Pose K)
    (left right : @Self K)
  : (@Self K * @Self K) * list (@effect K) * res string :=
  match reset_init_poses res_left left with
  | (left', w1, Raise e) => ((left', right), w1, Raise e)
  | (left', w1, Ok _) =>
      match reset_init_poses res_right right with
      | (right', w2, Raise e) => ((left', right'), w1 ++ w2, Raise e)
      | (right', w2, Ok _) => ((left', right'), w1 ++ w2, Ok "ok")
      end
  end.

(** A queued dictionary none of whose values is [None]. *)
Definition all_set (d : @cb_dict K) : bool :=
  match d with
  | HasZeroedDict _ => true
  | BaselineDict (Some _) (Some _) (Some _) (Some _) (Some _) (Some _) => true
  | _ => false
  end.

(** What holds of the attributes in a reachable state, besides the shape of
    the queue: queued dictionaries hold no [None]; [T_mz_cu_t] is set as
    soon as a reset was called; the baseline is set when [has_zeroed]
    holds or is about to be set. *)
Definition attrs_invariant (self : @Self K) : Prop :=
  queue_invariant self /\
  forallb all_set (cb_prop_q self) = true /\
  (T_mz_cu_t self = None -> cb_prop_q self = [] /\ has_zeroed self = false) /\
  (has_zeroed self = true \/
   hd_error (cb_prop_q self) = Some (HasZeroedDict true) ->
   all_set (baseline_of self) = true).

(** The number of pose events of a run. *)
Definition pose_events (evs : list (@event K)) : nat :=
  length (filter is_pose evs).

(** All the poses a run published, in order. *)
Definition all_published (outs : list (@outcome K)) : list (@Pose K) :=
  flat_map (fun o => published (fst o)) outs.

End Further.


(** * The data loader

    A shallow embedding of [yumi_teleop/data_loader.py].

    Conventions of the embedding.
    - What lies outside the module is a parameter (class [Disk]): the files
      [joblib.load], [CSVModel.load] and [RigidTransform.load] read, the
      listing [os.listdir] returns, the value [eval] gives for a comment
      and the integer [int] reads off a string.  Each of them returns a
      value or raises.
    - [eval] runs inside [prune_data], where [lst] and [trial] are bound:
      the value of a comment depends on the comment, on the list being
      pruned and on the row.  Evaluating a comment changes neither.
    - The values [eval] can give are those of [pyval]: integers (booleans
      included, as in Python), [None], floats, strings, and lists or
      tuples of such values.
    - A Python list is a list, and [np.array] of a list of rows is that
      list of rows. *)

Module data_loader.

Inductive error : Type :=
| ValueError
| TypeError
| IndexError
| SyntaxError
| IOError
| OSError.

Inductive result (A : Type) : Type :=
| Returns (a : A)
| Raises (e : error).
Arguments Returns {A} a.
Arguments Raises {A} e.

Definition and_then {A B : Type} (r : result A) (f : A -> result B)
  : result B :=
  match r with
  | Returns a => f a
  | Raises e => Raises e
  end.

Declare Scope dl_scope.
Delimit Scope dl_scope with dl.
Notation "x <- m ;; k" := (and_then m (fun x => k))
  (at level 61, m at next level, right associativity) : dl_scope.
Local Open Scope dl_scope.

(** ** Python values and slices *)

#[warnings="-register-all"] Inductive pyval : Type :=
| PyInt (z : Z)
| PyNone
| PyFloat
| PyStr (s : string)
| PySeq (items : list pyval).

(** [v[i]] for a literal index [i >= 0]. *)
Definition py_getitem (v : pyval) (i : nat) : result pyval :=
  match v with
  | PySeq items =>
      match nth_error items i with
      | Some x => Returns x
      | None => Raises IndexError
      end
  | PyStr s =>
      match String.get i s with
      | Some c => Returns (PyStr (String c EmptyString))
      | None => Raises IndexError
      end
  | _ => Raises TypeError
  end.

(** [a, b = v]. *)
Definition py_unpack2 (v : pyval) : result (pyval * pyval) :=
  match v with
  | PySeq [a; b] => Returns (a, b)
  | PySeq _ => Raises ValueError
  | PyStr (String a (String b EmptyString)) =>
      Returns (PyStr (String a EmptyString), PyStr (String b EmptyString))
  | PyStr _ => Raises ValueError
  | _ => Raises TypeError
  end.

(** [v + 1]. *)
Definition py_add1 (v : pyval) : result pyval :=
  match v with
  | PyInt z => Returns (PyInt (z + 1))
  | PyFloat => Returns PyFloat
  | _ => Raises TypeError
  end.

(** A bound of a slice: an integer or [None]. *)
Definition py_slice_index (v : pyval) : result (option Z) :=
  match v with
  | PyInt z => Returns (Some z)
  | PyNone => Returns None
  | _ => Raises TypeError
  end.

(** The position a bound of a slice stands for in a list of length [n]: a
    negative bound counts from the end, and the result is clamped to
    [0 .. n]. *)
Definition clamp_index (n i : Z) : Z :=
  if (i <? 0)%Z then Z.max 0 (i + n) else Z.min i n.

(** [l[lo:hi]]. *)
Definition py_slice {A : Type} (l : list A) (lo hi : option Z) : list A :=
  let n := Z.of_nat (length l) in
  let start := match lo with None => 0%Z | Some i => clamp_index n i end in
  let stop := match hi with None => n | Some i => clamp_index n i end in
  firstn (Z.to_nat (stop - start)) (skipn (Z.to_nat start) l).

(** Every [k]-th element of [l], after skipping [skip] elements. *)
Fixpoint stride_from {A : Type} (k skip : nat) (l : list A) : list A :=
  match l with
  | [] => []
  | x :: l' =>
      match skip with
      | O => x :: stride_from k (k - 1) l'
      | S skip' => stride_from k skip' l'
      end
  end.

(** [l[::k]] for [k >= 1]. *)
Definition py_stride {A : Type} (k : Z) (l : list A) : list A :=
  stride_from (Z.to_nat k) 0 l.

(** ** Paths *)

Definition endswith (s suffix : string) : bool :=
  let n := String.length s in
  let m := String.length suffix in
  Nat.leb m n && String.eqb (substring (n - m) m s) suffix.

(** [os.path.join(a, b)] of [posixpath]. *)
Definition os_path_join (a b : string) : string :=
  if prefix "/" b then b
  else if String.eqb a "" || endswith a "/" then (a ++ b)%string
  else (a ++ "/" ++ b)%string.

Definition ROOT_PATH : string := "/mnt/hdd/data/".

(** A row of [demo_records.csv]. *)
Record Trial : Type := mkTrial {
  trial_path : string;
  comments : string
}.

(** ** The world outside the module *)

Class Disk : Type := {
  stamp : Type;
  tag : Type;
  rigid : Type;
  arm_state : Type;
  image : Type;
  frame : Type;
  num : Type;
  records : Type;
  translation : rigid -> list num;
  quaternion : rigid -> list num;
  joints : arm_state -> list num;
  data : image -> frame;
  py_eval : forall A : Type, string -> list A -> Trial -> result pyval;
  py_int : string -> option Z;
  os_listdir : string -> result (list string);
  load_poses_jb : string -> result (list (stamp * (tag * rigid)));
  load_states_jb : string -> result (list (stamp * (tag * arm_state)));
  load_chunk_jb : string -> result (list (stamp * image));
  CSVModel_load : string -> result records;
  RigidTransform_load : string -> result rigid
}.

Section Loader.

Context {D : Disk}.

Definition load_records (mode : string) : result records :=
  if negb (String.eqb mode "k" || String.eqb mode "t") then Raises ValueError
  else
    let path :=
      os_path_join
        (os_path_join ROOT_PATH
           ("yumi_" ++ (if String.eqb mode "k" then "kinesthetics"
                        else "teleop"))%string)
        "demo_records.csv" in
    CSVModel_load path.

Definition load_registration_tf (trial_path device : string) : result rigid :=
  if negb (String.eqb device "webcam" || String.eqb device "primesense")
  then Raises ValueError
  else RigidTransform_load
         (os_path_join trial_path (device ++ "_overhead_to_world.tf")%string).

Definition prune_data {A : Type} (lst : list A) (trial : Trial)
  : result (list A) :=
  match py_eval (comments trial) lst trial with
  | Raises _ => Returns lst
  | Returns prune =>
      match (item <- py_getitem prune 1 ;; py_unpack2 item) with
      | Raises _ => Returns lst
      | Returns (lo, hi) =>
          hi1 <- py_add1 hi ;;
          lo' <- py_slice_index lo ;;
          hi' <- py_slice_index hi1 ;;
          Returns (py_slice lst lo' hi')
      end
  end.

(** [data[::subsample]] under the guard [subsample > 1]. *)
Definition subsampled {A : Type} (subsample : Z) (l : list A) : list A :=
  if (1 <? subsample)%Z then py_stride subsample l else l.

Definition is_arm (arm_name : string) : bool :=
  String.eqb arm_name "left" || String.eqb arm_name "right".

(** What [load_poses] returns: the pose objects, or the array of rows. *)
Inductive poses_out : Type :=
| PoseList (poses : list rigid)
| PoseArray (rows : list (list num)).

Definition load_poses (trial : Trial) (arm_name : string) (prune : bool)
    (subsample : Z) (euler : bool) : result poses_out :=
  if negb (is_arm arm_name) then Raises ValueError
  else
    poses_raw <- load_poses_jb
                   (os_path_join (trial_path trial)
                      ("poses_" ++ arm_name ++ ".jb")%string) ;;
    poses_raw <- (if prune then prune_data poses_raw trial
                  else Returns poses_raw) ;;
    let poses := map (fun x => snd (snd x)) poses_raw in
    let poses := subsampled subsample poses in
    if negb euler then Returns (PoseList poses)
    else Returns (PoseArray
                    (map (fun p => translation p ++ quaternion p) poses)).

Definition load_joints (trial : Trial) (arm_name : string)
  : result (list (list num)) :=
  if negb (is_arm arm_name) then Raises ValueError
  else
    states_raw <- load_states_jb
                    (os_path_join (trial_path trial)
                       ("states_" ++ arm_name ++ ".jb")%string) ;;
    states_raw <- prune_data states_raw trial ;;
    let states := map (fun x => snd (snd x)) states_raw in
    Returns (map joints states).

(** The sort key of a chunk: an integer, or [float('inf')]. *)
Inductive jb_key : Type :=
| KInt (z : Z)
| KInf.

Definition jb_number (name : string) : jb_key :=
  match index 0 ".jb" name with
  | Some i =>
      match py_int (substring 0 i name) with
      | Some z => KInt z
      | None => KInf
      end
  | None => KInf
  end.

(** [a < b] on keys. *)
Definition key_lt (a b : jb_key) : bool :=
  match a, b with
  | KInt x, KInt y => (x <? y)%Z
  | KInt _, KInf => true
  | KInf, _ => false
  end.

(** [list.sort(key=jb_number)]: a stable sort that compares keys with
    [<]. *)
Fixpoint insert_chunk (x : string) (l : list string) : list string :=
  match l with
  | [] => [x]
  | y :: l' =>
      if key_lt (jb_number y) (jb_number x) then y :: insert_chunk x l'
      else x :: l
  end.

Fixpoint sort_chunks (l : list string) : list string :=
  match l with
  | [] => []
  | x :: l' => insert_chunk x (sort_chunks l')
  end.

(** The loop of [concat_chunks]. *)
Fixpoint extend_chunks (path : string) (chunks : list string)
    (acc : list (stamp * image)) : result (list (stamp * image)) :=
  match chunks with
  | [] => Returns acc
  | chunk :: chunks' =>
      if String.eqb chunk ".finished" then extend_chunks path chunks' acc
      else
        loaded <- load_chunk_jb (os_path_join path chunk) ;;
        extend_chunks path chunks' (acc ++ loaded)
  end.

Definition concat_chunks (path : string) : result (list (stamp * image)) :=
  all_chunks <- os_listdir path ;;
  extend_chunks path (sort_chunks all_chunks) [].

(** The first argument of [load_images]: a path or a row. *)
Inductive trial_arg : Type :=
| TrialStr (path : string)
| TrialRow (trial : Trial).

Definition is_image_device (device : string) : bool :=
  String.eqb device "webcam" || String.eqb device "kinect_depth" ||
  String.eqb device "primesense_depth" || String.eqb device "kinect_color".

(** What [load_images] returns: an array of frames, or their list. *)
Inductive images_out : Type :=
| FrameArray (frames : list frame)
| FrameList (frames : list frame).

Definition load_images (trial : trial_arg) (device : string) (prune : bool)
    (subsample : Z) (numpy : bool) : result images_out :=
  if negb (is_image_device device) then Raises ValueError
  else
    let trial_path :=
      match trial with
      | TrialStr path => path
      | TrialRow t => trial_path t
      end in
    let data_path := os_path_join trial_path device in
    chunks <- concat_chunks data_path ;;
    chunks <- match trial with
              | TrialStr _ => Returns chunks
              | TrialRow t => if prune then prune_data chunks t
                              else Returns chunks
              end ;;
    let chunks := subsampled subsample chunks in
    let frames := map (fun x => data (snd x)) chunks in
    if numpy then Returns (FrameArray frames)
    else Returns (FrameList frames).

End Loader.

(** ** Notions used by the statements about the loader *)

Definition result_map {A B : Type} (f : A -> B) (r : result A) : result B :=
  match r with
  | Returns a => Returns (f a)
  | Raises e => Raises e
  end.

(** What [prune_data] does to [lst] once the comment has been evaluated to
    [evaluated]: lines 30-38. *)
Definition pruned_by {A : Type} (evaluated : result pyval) (lst : list A)
  : result (list A) :=
  match evaluated with
  | Raises _ => Returns lst
  | Returns prune =>
      match (item <- py_getitem prune 1 ;; py_unpack2 item) with
      | Raises _ => Returns lst
      | Returns (lo, hi) =>
          hi1 <- py_add1 hi ;;
          lo' <- py_slice_index lo ;;
          hi' <- py_slice_index hi1 ;;
          Returns (py_slice lst lo' hi')
      end
  end.

(** [ceil(n / k)]. *)
Definition ceil_div (n k : nat) : nat := (n + k - 1) / k.

End data_loader.


(** ** A concrete disk *)

(** A reader of decimal digits for [int]. *)
Definition ex_py_int (s : string) : option Z :=
  if String.eqb s "" then None
  else match NilEmpty.uint_of_string s with
       | Some u => Some (Z.of_uint u)
       | None => None
       end.

(** Six pose samples, six state samples and six images in two chunks of a
    trial in [/t]; the directory of the images is listed in the order of
    the characters. *)
Definition ex_poses : list (nat * (nat * (list Z * list Z))) :=
  map (fun i => (i, (0, ([Z.of_nat i; 0; 0], [1; 0; 0; 0])%Z))) (seq 0 6).

Definition ex_states : list (nat * (nat * list Z)) :=
  map (fun i => (i, (0, [Z.of_nat i; 0; 0; 0; 0; 0; 0]%Z))) (seq 0 6).

Definition ex_chunk_9 : list (nat * nat) := [(0, 100); (1, 101); (2, 102)].
Definition ex_chunk_10 : list (nat * nat) := [(3, 103); (4, 104); (5, 105)].

Definition ex_disk : data_loader.Disk := {|
  data_loader.stamp := nat;
  data_loader.tag := nat;
  data_loader.rigid := list Z * list Z;
  data_loader.arm_state := list Z;
  data_loader.image := nat;
  data_loader.frame := nat;
  data_loader.num := Z;
  data_loader.records := unit;
  data_loader.translation := fst;
  data_loader.quaternion := snd;
  data_loader.joints := fun s => s;
  data_loader.data := fun i => i;
  data_loader.py_eval := fun _ s _ _ =>
    if String.eqb s "['ok', (1, 4)]" then
      data_loader.Returns
        (data_loader.PySeq
           [data_loader.PyStr "ok";
            data_loader.PySeq [data_loader.PyInt 1; data_loader.PyInt 4]])
    else if String.eqb s "['ok', (0, -1)]" then
      data_loader.Returns
        (data_loader.PySeq
           [data_loader.PyStr "ok";
            data_loader.PySeq [data_loader.PyInt 0; data_loader.PyInt (-1)]])
    else data_loader.Raises data_loader.SyntaxError;
  data_loader.py_int := ex_py_int;
  data_loader.os_listdir := fun p =>
    if String.eqb p "/t/webcam"
    then data_loader.Returns [".finished"; "10.jb"; "9.jb"]
    else data_loader.Raises data_loader.OSError;
  data_loader.load_poses_jb := fun p =>
    if String.eqb p "/t/poses_left.jb" then data_loader.Returns ex_poses
    else data_loader.Raises data_loader.IOError;
  data_loader.load_states_jb := fun p =>
    if String.eqb p "/t/states_left.jb" then data_loader.Returns ex_states
    else data_loader.Raises data_loader.IOError;
  data_loader.load_chunk_jb := fun p =>
    if String.eqb p "/t/webcam/9.jb" then data_loader.Returns ex_chunk_9
    else if String.eqb p "/t/webcam/10.jb" then data_loader.Returns ex_chunk_10
    else data_loader.Raises data_loader.IOError;
  data_loader.CSVModel_load := fun _ => data_loader.Raises data_loader.IOError;
  data_loader.RigidTransform_load := fun _ =>
    data_loader.Raises data_loader.IOError
|}.

Definition ex_trial : data_loader.Trial :=
  data_loader.mkTrial "/t" "['ok', (1, 4)]".

Definition ex_trial_tail : data_loader.Trial :=
  data_loader.mkTrial "/t" "['ok', (0, -1)]".


(** ** Algebra of matrices and poses *)

Section Algebra.

Context {K : Type} {SK : Scalar K}.

Add Ring scalar_ring_inst : (@scalar_ring K SK).

Local Open Scope scalar_scope.

Ltac mat_ring :=
  intros;
  repeat match goal with
         | a : mat3 |- _ => destruct a
         | v : vec3 |- _ => destruct v
         | p : Pose |- _ => destruct p
         end;
  cbv [pose_mul pose_inv pose_id pose_rot translate_x
       mat_mul mat_vec transpose mat_opp vec_add eye zeros
       orientation position
       m00 m01 m02 m10 m11 m12 m20 m21 m22 vx vy vz];
  f_equal; try (f_equal; ring); ring.

Lemma mat_mul_assoc (a b c : @mat3 K) :
  mat_mul (mat_mul a b) c = mat_mul a (mat_mul b c).
Proof. mat_ring. Qed.

Lemma mat_mul_eye_l (a : @mat3 K) : mat_mul eye a = a.
Proof. mat_ring. Qed.

Lemma mat_mul_eye_r (a : @mat3 K) : mat_mul a eye = a.
Proof. mat_ring. Qed.

Lemma transpose_eye : transpose (@eye K SK) = eye.
Proof. reflexivity. Qed.

Lemma transpose_involutive (a : @mat3 K) : transpose (transpose a) = a.
Proof. destruct a; reflexivity. Qed.

Lemma mat_vec_mul (a b : @mat3 K) (v : vec3) :
  mat_vec (mat_mul a b) v = mat_vec a (mat_vec b v).
Proof. mat_ring. Qed.

Lemma mat_vec_eye (v : @vec3 K) : mat_vec eye v = v.
Proof. mat_ring. Qed.

Lemma mat_vec_zeros (a : @mat3 K) : mat_vec a zeros = zeros.
Proof. mat_ring. Qed.

Lemma mat_vec_add (a : @mat3 K) (u v : vec3) :
  mat_vec a (vec_add u v) = vec_add (mat_vec a u) (mat_vec a v).
Proof. mat_ring. Qed.

Lemma mat_vec_opp (a : @mat3 K) (v : vec3) :
  vec_add (mat_vec (mat_opp a) v) (mat_vec a v) = zeros.
Proof. mat_ring. Qed.

Lemma vec_add_assoc (u v w : @vec3 K) :
  vec_add (vec_add u v) w = vec_add u (vec_add v w).
Proof. mat_ring. Qed.

Lemma vec_add_zeros_l (v : @vec3 K) : vec_add zeros v = v.
Proof. mat_ring. Qed.

Lemma vec_add_zeros_r (v : @vec3 K) : vec_add v zeros = v.
Proof. mat_ring. Qed.

Lemma calibration_inverse :
  mat_mul (rotation (@_T_YIR_MI K SK)) (rotation _T_MC_YCR) = eye.
Proof. cbv [_T_YIR_MI _T_MC_YCR RigidTransform_rotation rotation]. mat_ring. Qed.

Lemma pose_mul_assoc (a b c : @Pose K) :
  pose_mul (pose_mul a b) c = pose_mul a (pose_mul b c).
Proof. mat_ring. Qed.

Lemma pose_mul_id_l (a : @Pose K) : pose_mul pose_id a = a.
Proof. mat_ring. Qed.

Lemma pose_mul_id_r (a : @Pose K) : pose_mul a pose_id = a.
Proof. mat_ring. Qed.

Lemma pose_inv_l (a : @Pose K) :
  mat_mul (transpose (orientation a)) (orientation a) = eye ->
  pose_mul (pose_inv a) a = pose_id.
Proof.
  intros H. unfold pose_mul, pose_inv, pose_id; simpl.
  rewrite H, mat_vec_opp. reflexivity.
Qed.

Lemma pose_rot_conj (r s : @mat3 K) (v : vec3) :
  pose_mul (pose_mul (pose_rot r) (mkPose eye v)) (pose_rot s) =
  mkPose (mat_mul r s) (mat_vec r v).
Proof. mat_ring. Qed.

Lemma pose_inv_cancel (a d : @Pose K) :
  mat_mul (transpose (orientation a)) (orientation a) = eye ->
  pose_mul (pose_inv a) (pose_mul a d) = d.
Proof.
  intros H. rewrite <- pose_mul_assoc, (pose_inv_l a H). apply pose_mul_id_l.
Qed.


End Algebra.

(** ** The callbacks in closed form *)

Section Callbacks.

Context {K : Type} {SK : Scalar K}.

Lemma target_pose_split (self : @Self K) :
  target_pose self = res_bind (master_delta self) (robot_target self).
Proof.
  unfold target_pose, master_delta.
  destruct (py_getattr (T_w_cu_t self) inverse) as [inv|]; simpl; auto.
  destruct (py_mul (T_mz_cu_t self) (Some inv)) as [x|]; simpl; auto.
Qed.

Lemma apply_dict_eq (d : @cb_dict K) (self : Self) :
  apply_dict d self = (setattrs d self, dict_log d, Ok tt).
Proof. destruct d; reflexivity. Qed.

Lemma update_cb_objs_eq (self : @Self K) :
  _update_cb_objs self = (drained self, drain_log self, Ok tt).
Proof.
  unfold _update_cb_objs, drained, drain_log, bind, get.
  destruct (cb_prop_q self) as [|d q]; [reflexivity|].
  unfold modify. rewrite apply_dict_eq. reflexivity.
Qed.

Lemma position_callback_eq (P : @Pose K) (self : Self) :
  _position_cartesian_current_callback P self =
  let s1 := drained (stored P self) in
  let w := drain_log (stored P self) in
  if has_zeroed s1 && negb (clutch_state s1) then
    match target_pose s1 with
    | Ok T => (s1, w ++ [Publish (T_to_ros_pose T)], Ok tt)
    | Raise e => (s1, w, Raise e)
    end
  else (s1, w, Ok tt).
Proof.
  unfold _position_cartesian_current_callback.
  unfold bind at 1. unfold modify at 1. fold (stored P self).
  unfold bind at 1. rewrite update_cb_objs_eq.
  cbv zeta. unfold bind, get, lift, publish, ret.
  destruct (has_zeroed (drained (stored P self))); simpl;
    [|rewrite app_nil_r; reflexivity].
  destruct (clutch_state (drained (stored P self))); simpl;
    [rewrite app_nil_r; reflexivity|].
  destruct (target_pose (drained (stored P self))); simpl;
    [reflexivity|rewrite app_nil_r; reflexivity].
Qed.

Lemma clutch_callback_not_zeroed (b : bool) (self : @Self K) :
  has_zeroed self = false -> _clutch_callback b self = (self, [], Ok tt).
Proof.
  intros H. unfold _clutch_callback, bind, get. rewrite H. reflexivity.
Qed.

Lemma clutch_down_eq (self : @Self K) :
  has_zeroed self = true ->
  _clutch_callback true self =
  let i := _clutch_i self + 1 in
  let s1 := set_clutch_i i self in
  match T_w_mc self with
  | Some m =>
      (set_clutch_state true
         (set_T_w_cd_t1 (Some (as_frames m (clutch_label "down" i) "world")) s1),
       [Loginfo (LogClutchDown i)], Ok tt)
  | None => (s1, [Loginfo (LogClutchDown i)], Raise AttributeError)
  end.
Proof.
  intros H. destruct self; simpl in H; subst.
  destruct T_w_mc0; reflexivity.
Qed.

Lemma clutch_up_eq (self : @Self K) :
  has_zeroed self = true ->
  _clutch_callback false self =
  let w := [Loginfo (LogClutchUp (_clutch_i self))] in
  match folded_baseline self with
  | Raise e => (self, w, Raise e)
  | Ok X =>
      match T_w_mc self with
      | Some m =>
          (set_clutch_state false
             (set_T_w_cu_t (Some (as_frames m (_clutch self "up") "world"))
                (set_T_mz_cu_t (Some X) self)),
           w, Ok tt)
      | None => (set_T_mz_cu_t (Some X) self, w, Raise AttributeError)
      end
  end.
Proof.
  intros H. unfold _clutch_callback, bind, get. rewrite H. simpl.
  unfold loginfo, lift, modify.
  destruct (folded_baseline self) as [X|e]; simpl; [|reflexivity].
  destruct self; simpl in *. destruct T_w_mc0; reflexivity.
Qed.

Lemma reset_eq (Y m : @RigidTransform K) (self : Self) :
  T_w_mc self = Some m ->
  _reset_init_poses Y self =
  (reset_state m Y self,
   [Loginfo LogResetInitPose; Loginfo (LogReceivedYumiPose (translation Y));
    Loginfo LogDoneInitPose],
   Ok tt).
Proof.
  intros H. destruct self; simpl in H; subst.
  unfold reset_state; simpl.
  change [HasZeroedDict false; zero_baseline _clutch_i0 m Y; HasZeroedDict true]
    with ([HasZeroedDict false] ++ [zero_baseline _clutch_i0 m Y]
            ++ [@HasZeroedDict K true]).
  rewrite !app_assoc. reflexivity.
Qed.

Lemma reset_none_eq (Y : @RigidTransform K) (self : Self) :
  T_w_mc self = None ->
  _reset_init_poses Y self =
  (set_T_mz_cu_t
     (Some (RigidTransform_frames (_clutch self "up") "masters_zero"))
     (set_cb_prop_q (cb_prop_q self ++ [HasZeroedDict false]) self),
   [Loginfo LogResetInitPose; Loginfo (LogReceivedYumiPose (translation Y))],
   Raise AttributeError).
Proof.
  intros H. destruct self; simpl in H; subst. reflexivity.
Qed.

End Callbacks.

(** ** Frame labels *)

Section Labels.

Lemma str_of_int_inj (i j : nat) : str_of_int i = str_of_int j -> i = j.
Proof.
  unfold str_of_int. intros H.
  apply Unsigned.to_uint_inj.
  assert (E : Some (Nat.to_uint i) = Some (Nat.to_uint j)).
  { rewrite <- (NilEmpty.usu (Nat.to_uint i)), <- (NilEmpty.usu (Nat.to_uint j)).
    now rewrite H. }
  now inversion E.
Qed.

Lemma clutch_label_inj (k1 k2 : string) (i j : nat) :
  is_clutch_state k1 -> is_clutch_state k2 ->
  clutch_label k1 i = clutch_label k2 j -> k1 = k2 /\ i = j.
Proof.
  unfold is_clutch_state, clutch_label.
  intros [-> | ->] [-> | ->] H; simpl in H;
    try discriminate; injection H as H; apply str_of_int_inj in H; auto.
Qed.

Lemma clutch_label_eqb (k1 k2 : string) (i j : nat) :
  is_clutch_state k1 -> is_clutch_state k2 ->
  (k1, i) <> (k2, j) ->
  String.eqb (clutch_label k2 j) (clutch_label k1 i) = false.
Proof.
  intros H1 H2 N. apply String.eqb_neq. intros E.
  apply clutch_label_inj in E; auto. destruct E; subst. now apply N.
Qed.

End Labels.

(** ** What each callback may touch *)

(** Case analysis of the clutch callback and of the reset. *)
Ltac clutch_cases b self :=
  destruct (has_zeroed self) eqn:Hz;
  [ destruct b;
    [ rewrite (clutch_down_eq self Hz); cbv zeta;
      destruct (T_w_mc self) eqn:Hm
    | rewrite (clutch_up_eq self Hz); cbv zeta;
      destruct (folded_baseline self) eqn:Hf;
      [ destruct (T_w_mc self) eqn:Hm | ] ]
  | rewrite (clutch_callback_not_zeroed b self Hz) ].

Ltac reset_cases Y self :=
  destruct (T_w_mc self) eqn:Hm;
  [ rewrite (reset_eq Y self Hm) | rewrite (reset_none_eq Y self Hm) ].

Section Footprint.

Context {K : Type} {SK : Scalar K}.

Lemma published_drain_log (self : @Self K) : published (drain_log self) = [].
Proof.
  unfold drain_log. destruct (cb_prop_q self) as [|[v|] q]; reflexivity.
Qed.

Lemma published_app (w1 w2 : list (@effect K)) :
  published (w1 ++ w2) = published w1 ++ published w2.
Proof.
  induction w1 as [|[m|p] w1 IH]; simpl; auto. now rewrite IH.
Qed.

Lemma T_w_mc_setattrs (d : @cb_dict K) (self : Self) :
  T_w_mc (setattrs d self) = T_w_mc self.
Proof. destruct d; reflexivity. Qed.

Lemma T_w_mc_drained (self : @Self K) : T_w_mc (drained self) = T_w_mc self.
Proof.
  unfold drained. destruct (cb_prop_q self); auto.
  now rewrite T_w_mc_setattrs.
Qed.

Lemma position_callback_state (P : @Pose K) (self : Self) :
  state_of (_position_cartesian_current_callback P self) =
  drained (stored P self).
Proof.
  rewrite position_callback_eq. cbv zeta.
  destruct (has_zeroed _ && negb _); [destruct (target_pose _)|]; reflexivity.
Qed.

Lemma position_callback_T_w_mc (P : @Pose K) (self : Self) :
  T_w_mc (state_of (_position_cartesian_current_callback P self)) =
  Some (ros_pose_to_T P "masters_current" "world").
Proof. rewrite position_callback_state, T_w_mc_drained. reflexivity. Qed.

Lemma position_callback_silent (P : @Pose K) (self : Self) :
  has_zeroed (state_of (_position_cartesian_current_callback P self)) = false ->
  published (effects_of (_position_cartesian_current_callback P self)) = [].
Proof.
  rewrite position_callback_state, position_callback_eq. cbv zeta.
  intros ->. simpl. apply published_drain_log.
Qed.

Lemma clutch_callback_published (b : bool) (self : @Self K) :
  published (effects_of (_clutch_callback b self)) = [].
Proof. clutch_cases b self; reflexivity. Qed.

Lemma clutch_callback_has_zeroed (b : bool) (self : @Self K) :
  has_zeroed (state_of (_clutch_callback b self)) = has_zeroed self.
Proof. clutch_cases b self; unfold state_of; simpl; congruence. Qed.

Lemma clutch_callback_queue (b : bool) (self : @Self K) :
  cb_prop_q (state_of (_clutch_callback b self)) = cb_prop_q self.
Proof. clutch_cases b self; reflexivity. Qed.

Lemma reset_published (Y : @RigidTransform K) (self : Self) :
  published (effects_of (_reset_init_poses Y self)) = [].
Proof. reset_cases Y self; reflexivity. Qed.

Lemma reset_has_zeroed (Y : @RigidTransform K) (self : Self) :
  has_zeroed (state_of (_reset_init_poses Y self)) = has_zeroed self.
Proof. reset_cases Y self; reflexivity. Qed.

Lemma callback_silent (e : @event K) (self : Self) :
  has_zeroed (state_of (callback e self)) = false ->
  published (effects_of (callback e self)) = [].
Proof.
  destruct e as [P|b|Y]; simpl; intros H.
  - now apply position_callback_silent.
  - apply clutch_callback_published.
  - apply reset_published.
Qed.

Lemma run_cons (e : @event K) (evs : list event) (self : Self) :
  run (e :: evs) self =
  (fst (run evs (state_of (callback e self))),
   (effects_of (callback e self), result_of (callback e self))
     :: snd (run evs (state_of (callback e self)))).
Proof.
  simpl. unfold state_of, effects_of, result_of.
  destruct (callback e self) as [[s1 w] r]. simpl.
  destruct (run evs s1); reflexivity.
Qed.

Lemma run_app (evs1 evs2 : list (@event K)) (self : Self) :
  run (evs1 ++ evs2) self =
  (fst (run evs2 (fst (run evs1 self))),
   snd (run evs1 self) ++ snd (run evs2 (fst (run evs1 self)))).
Proof.
  revert self. induction evs1 as [|e evs1 IH]; intros self.
  - simpl. now destruct (run evs2 self).
  - rewrite <- app_comm_cons, !run_cons, IH. reflexivity.
Qed.

Lemma run_step (e : @event K) (evs : list event) (self self1 : Self)
    (w : list effect) (r : res unit) :
  callback e self = (self1, w, r) ->
  run (e :: evs) self = (fst (run evs self1), (w, r) :: snd (run evs self1)).
Proof. intros H. rewrite run_cons, H. reflexivity. Qed.

Lemma run_snd_step (e : @event K) (evs : list event) (self self1 : Self)
    (w : list effect) (r : res unit) :
  callback e self = (self1, w, r) ->
  snd (run (e :: evs) self) = (w, r) :: snd (run evs self1).
Proof. intros H. rewrite run_cons, H. reflexivity. Qed.

Lemma run_fst_step (e : @event K) (evs : list event) (self self1 : Self)
    (w : list effect) (r : res unit) :
  callback e self = (self1, w, r) ->
  fst (run (e :: evs) self) = fst (run evs self1).
Proof. intros H. rewrite run_cons, H. reflexivity. Qed.

Lemma run_snd_app (evs1 evs2 : list (@event K)) (self : Self) :
  snd (run (evs1 ++ evs2) self) =
  snd (run evs1 self) ++ snd (run evs2 (fst (run evs1 self))).
Proof. rewrite run_app. reflexivity. Qed.

Lemma run_fst_app (evs1 evs2 : list (@event K)) (self : Self) :
  fst (run (evs1 ++ evs2) self) = fst (run evs2 (fst (run evs1 self))).
Proof. rewrite run_app. reflexivity. Qed.

End Footprint.

(** ** Composition and frame labels *)

(** Inversion of a chain of [res_bind] that returned. *)
Ltac res_inv H :=
  repeat (cbn [res_bind py_mul py_getattr] in H;
          match type of H with
          | res_bind ?r _ = Ok _ =>
              let E := fresh "E" in
              destruct r eqn:E; [|discriminate H]
          end);
  cbn [res_bind py_mul py_getattr] in H.

Section Composition.

Context {K : Type} {SK : Scalar K}.

Lemma rt_mul_ok (a b c : @RigidTransform K) :
  rt_mul a b = Ok c ->
  to_frame b = from_frame a /\
  from_frame c = from_frame b /\
  to_frame c = to_frame a /\
  T_to_ros_pose c = pose_mul (T_to_ros_pose a) (T_to_ros_pose b).
Proof.
  unfold rt_mul. destruct (String.eqb_spec (to_frame b) (from_frame a)) as [E|N];
    [|discriminate].
  intros H. injection H as <-. auto.
Qed.

Lemma rt_mul_frames (a b : @RigidTransform K) :
  to_frame b = from_frame a ->
  rt_mul a b =
  Ok (mkRigidTransform
        (mat_mul (rotation a) (rotation b))
        (vec_add (translation a) (mat_vec (rotation a) (translation b)))
        (from_frame b) (to_frame a)).
Proof. intros E. unfold rt_mul. now rewrite E, String.eqb_refl. Qed.

Lemma rt_mul_defined (a b : @RigidTransform K) :
  to_frame b = from_frame a ->
  exists c,
    rt_mul a b = Ok c /\
    from_frame c = from_frame b /\ to_frame c = to_frame a /\
    T_to_ros_pose c = pose_mul (T_to_ros_pose a) (T_to_ros_pose b).
Proof.
  intros E. rewrite (rt_mul_frames a b E). eexists. repeat split.
Qed.

Lemma rt_mul_mismatch (a b : @RigidTransform K) :
  to_frame b <> from_frame a -> rt_mul a b = Raise FrameMismatch.
Proof.
  intros N. unfold rt_mul.
  destruct (String.eqb_spec (to_frame b) (from_frame a)); [contradiction|auto].
Qed.

Lemma rt_mul_raise (a b : @RigidTransform K) (e : exn) :
  rt_mul a b = Raise e -> e = FrameMismatch /\ to_frame b <> from_frame a.
Proof.
  unfold rt_mul. destruct (String.eqb_spec (to_frame b) (from_frame a));
    [discriminate|].
  intros H. injection H as <-. auto.
Qed.

Lemma T_to_ros_pose_inverse (a : @RigidTransform K) :
  T_to_ros_pose (inverse a) = pose_inv (T_to_ros_pose a).
Proof. reflexivity. Qed.

Lemma T_to_ros_pose_as_frames (a : @RigidTransform K) (f t : string) :
  T_to_ros_pose (as_frames a f t) = T_to_ros_pose a.
Proof. reflexivity. Qed.

Lemma T_to_ros_pose_ros_pose_to_T (p : @Pose K) (f t : string) :
  T_to_ros_pose (ros_pose_to_T p f t) = p.
Proof. destruct p; reflexivity. Qed.

(** Two transforms with the same numbers and the same labels are equal. *)
Lemma RigidTransform_ext (a b : @RigidTransform K) :
  T_to_ros_pose a = T_to_ros_pose b ->
  from_frame a = from_frame b -> to_frame a = to_frame b -> a = b.
Proof.
  destruct a, b; unfold T_to_ros_pose; simpl.
  intros H -> ->. injection H as -> ->. reflexivity.
Qed.

(** Line 126 succeeds exactly when the two clutch-up transforms carry the
    same clutch-up label and the stored poses are expressed in one frame. *)
Lemma master_delta_ok (self : @Self K) (T : RigidTransform) :
  master_delta self = Ok T ->
  exists mz_cu w_cu w_mc,
    T_mz_cu_t self = Some mz_cu /\ T_w_cu_t self = Some w_cu /\
    T_w_mc self = Some w_mc /\
    from_frame w_cu = from_frame mz_cu /\ to_frame w_mc = to_frame w_cu /\
    from_frame T = from_frame w_mc /\ to_frame T = to_frame mz_cu /\
    T_to_ros_pose T =
    pose_mul (pose_mul (T_to_ros_pose mz_cu) (pose_inv (T_to_ros_pose w_cu)))
             (T_to_ros_pose w_mc).
Proof.
  unfold master_delta.
  destruct (T_w_cu_t self) as [w_cu|]; [|discriminate].
  destruct (T_mz_cu_t self) as [mz_cu|]; [|discriminate].
  simpl. destruct (rt_mul mz_cu (inverse w_cu)) as [x|] eqn:E1; [|discriminate].
  simpl. destruct (T_w_mc self) as [w_mc|]; [|discriminate].
  intros E2. apply rt_mul_ok in E1 as (A1 & A2 & A3 & A4).
  apply rt_mul_ok in E2 as (B1 & B2 & B3 & B4).
  exists mz_cu, w_cu, w_mc. simpl in *.
  repeat split; auto; try congruence.
  rewrite B4, A4. reflexivity.
Qed.

Lemma chain_frames_ok_spec (self : @Self K) :
  chain_frames_ok self = true <->
  exists mz_cu w_cu mzr_mz mc_mcr w_yi yi_yir ycr_yc,
    T_mz_cu_t self = Some mz_cu /\ T_w_cu_t self = Some w_cu /\
    T_mzr_mz self = Some mzr_mz /\ T_mc_mcr self = Some mc_mcr /\
    T_w_yi self = Some w_yi /\ T_yi_yir self = Some yi_yir /\
    T_ycr_yc self = Some ycr_yc /\
    from_frame w_cu = from_frame mz_cu /\ to_frame w_cu = "world" /\
    to_frame mz_cu = from_frame mzr_mz /\
    to_frame mc_mcr = "masters_current" /\
    to_frame yi_yir = from_frame w_yi /\
    from_frame yi_yir = "yumi_init_ref" /\
    to_frame ycr_yc = "yumi_current_ref".
Proof.
  unfold chain_frames_ok. split.
  - destruct (T_mz_cu_t self) as [a|]; [|discriminate].
    destruct (T_w_cu_t self) as [b|]; [|discriminate].
    destruct (T_mzr_mz self) as [c|]; [|discriminate].
    destruct (T_mc_mcr self) as [d|]; [|discriminate].
    destruct (T_w_yi self) as [e|]; [|discriminate].
    destruct (T_yi_yir self) as [f|]; [|discriminate].
    destruct (T_ycr_yc self) as [g|]; [|discriminate].
    intros H. repeat (apply andb_prop in H as [H ?]).
    exists a, b, c, d, e, f, g.
    repeat match goal with
           | H : String.eqb _ _ = true |- _ => apply String.eqb_eq in H
           end.
    repeat split; auto.
  - intros (a & b & c & d & e & f & g & -> & -> & -> & -> & -> & -> & -> &
            H1 & H2 & H3 & H4 & H5 & H6 & H7).
    rewrite H1, H2, H3, H4, H5, H6, H7, !String.eqb_refl. reflexivity.
Qed.

(** The labelled chain of the code returns when the labels fit, and then
    its numbers are those of the composition on poses. *)
Lemma target_pose_defined (self : @Self K) (P : Pose) :
  T_w_mc self = Some (ros_pose_to_T P "masters_current" "world") ->
  chain_frames_ok self = true ->
  exists T,
    target_pose self = Ok T /\
    spec_target_pose self P = Some (T_to_ros_pose T) /\
    to_frame T = match T_w_yi self with Some y => to_frame y | None => "" end.
Proof.
  intros Hm H. apply chain_frames_ok_spec in H
    as (a & b & c & d & e & f & g & Ha & Hb & Hc & Hd & He & Hf & Hg &
        H1 & H2 & H3 & H4 & H5 & H6 & H7).
  unfold target_pose, spec_target_pose.
  rewrite Ha, Hb, Hc, Hd, He, Hf, Hg, Hm.
  unfold py_getattr, py_mul. cbn [res_bind].
  pose proof (T_to_ros_pose_ros_pose_to_T P "masters_current" "world") as EP.
  set (w_mc := ros_pose_to_T P "masters_current" "world") in *.
  assert (Ff : from_frame w_mc = "masters_current") by reflexivity.
  assert (Ft : to_frame w_mc = "world") by reflexivity.
  clearbody w_mc.
  destruct (rt_mul_defined a (inverse b)) as (x1 & -> & F1 & T1 & P1);
    [simpl; congruence|]. cbn [res_bind].
  destruct (rt_mul_defined x1 w_mc) as (x2 & -> & F2 & T2 & P2);
    [rewrite F1; simpl; congruence|]. cbn [res_bind].
  destruct (rt_mul_defined c x2) as (x3 & -> & F3 & T3 & P3);
    [congruence|]. cbn [res_bind].
  destruct (rt_mul_defined x3 d) as (x4 & -> & F4 & T4 & P4);
    [congruence|]. cbn [res_bind].
  destruct (rt_mul_defined _T_YIR_MI
              (as_frames x4 "masters_current" "masters_init"))
    as (x5 & -> & F5 & T5 & P5); [reflexivity|]. cbn [res_bind].
  destruct (rt_mul_defined x5 _T_MC_YCR) as (x6 & -> & F6 & T6 & P6);
    [rewrite F5; reflexivity|]. cbn [res_bind].
  destruct (rt_mul_defined e f) as (x7 & -> & F7 & T7 & P7);
    [congruence|]. cbn [res_bind].
  destruct (rt_mul_defined x7 x6) as (x8 & -> & F8 & T8 & P8);
    [rewrite T6, T5, F7, H6; reflexivity|]. cbn [res_bind].
  destruct (rt_mul_defined x8 g) as (x9 & -> & F9 & T9 & P9);
    [rewrite F8, F6, H7; reflexivity|].
  exists x9. split; [reflexivity|]. split; [|congruence].
  rewrite P9, P8, P7, P6, P5, T_to_ros_pose_as_frames, P4, P3, P2, P1, EP.
  reflexivity.
Qed.

Lemma target_pose_sound (self : @Self K) (P : Pose) (T : RigidTransform) :
  T_w_mc self = Some (ros_pose_to_T P "masters_current" "world") ->
  target_pose self = Ok T ->
  chain_frames_ok self = true.
Proof.
  intros Hm H. unfold target_pose in H. rewrite Hm in H.
  destruct (T_w_cu_t self) as [b|] eqn:Hb; [|discriminate].
  destruct (T_mz_cu_t self) as [a|] eqn:Ha; [|discriminate].
  destruct (T_mzr_mz self) as [c|] eqn:Hc; [|res_inv H; discriminate].
  destruct (T_mc_mcr self) as [d|] eqn:Hd; [|res_inv H; discriminate].
  destruct (T_w_yi self) as [e|] eqn:He; [|res_inv H; discriminate].
  destruct (T_yi_yir self) as [f|] eqn:Hf; [|res_inv H; discriminate].
  destruct (T_ycr_yc self) as [g|] eqn:Hg; [|res_inv H; discriminate].
  res_inv H.
  repeat match goal with
         | E : rt_mul _ _ = Ok _ |- _ =>
             apply rt_mul_ok in E; destruct E as (? & ? & ? & _)
         end.
  apply chain_frames_ok_spec.
  exists a, b, c, d, e, f, g.
  cbn [to_frame from_frame inverse as_frames ros_pose_to_T
       _T_YIR_MI _T_MC_YCR RigidTransform_rotation] in *.
  repeat split; congruence.
Qed.

End Composition.

(** ** Steps of a zeroed relay with nothing queued *)

Section Steps.

Context {K : Type} {SK : Scalar K}.

Lemma drained_nil (self : @Self K) : cb_prop_q self = [] -> drained self = self.
Proof. unfold drained. now intros ->. Qed.

Lemma drain_log_nil (self : @Self K) :
  cb_prop_q self = [] -> drain_log self = [].
Proof. unfold drain_log. now intros ->. Qed.

Lemma position_callback_forwarding (P : @Pose K) (self : Self) :
  has_zeroed self = true -> clutch_state self = false -> cb_prop_q self = [] ->
  _position_cartesian_current_callback P self =
  match target_pose (stored P self) with
  | Ok T => (stored P self, [Publish (T_to_ros_pose T)], Ok tt)
  | Raise e => (stored P self, [], Raise e)
  end.
Proof.
  intros Hz Hc Hq. rewrite position_callback_eq. cbv zeta.
  rewrite drained_nil, drain_log_nil by exact Hq.
  change (has_zeroed (stored P self)) with (has_zeroed self).
  change (clutch_state (stored P self)) with (clutch_state self).
  rewrite Hz, Hc. reflexivity.
Qed.

Lemma position_callback_engaged (P : @Pose K) (self : Self) :
  has_zeroed self = true -> clutch_state self = true -> cb_prop_q self = [] ->
  _position_cartesian_current_callback P self = (stored P self, [], Ok tt).
Proof.
  intros Hz Hc Hq. rewrite position_callback_eq. cbv zeta.
  rewrite drained_nil, drain_log_nil by exact Hq.
  change (has_zeroed (stored P self)) with (has_zeroed self).
  change (clutch_state (stored P self)) with (clutch_state self).
  rewrite Hz, Hc. reflexivity.
Qed.

Lemma T_w_mc_stored (P : @Pose K) (self : Self) :
  T_w_mc (stored P self) = Some (ros_pose_to_T P "masters_current" "world").
Proof. reflexivity. Qed.

Lemma T_mz_cu_t_stored (P : @Pose K) (self : Self) :
  T_mz_cu_t (stored P self) = T_mz_cu_t self.
Proof. reflexivity. Qed.

Lemma baseline_of_stored (P : @Pose K) (self : Self) :
  baseline_of (stored P self) = baseline_of self.
Proof. reflexivity. Qed.

Lemma stored_stored (P Q : @Pose K) (self : Self) :
  stored P (stored Q self) = stored P self.
Proof. reflexivity. Qed.

(** While the clutch is engaged the pose callback only stores the pose. *)
Lemma run_engaged (ps : list (@Pose K)) (P : Pose) (self : Self) :
  has_zeroed self = true -> clutch_state self = true -> cb_prop_q self = [] ->
  run (map EvPose ps ++ [EvPose P]) self =
  (stored P self, map (fun _ => ([], Ok tt)) ps ++ [([], Ok tt)]).
Proof.
  revert self. induction ps as [|Q ps IH]; intros self Hz Hc Hq.
  - simpl. rewrite (position_callback_engaged P self Hz Hc Hq). reflexivity.
  - cbn [map app]. rewrite run_cons. cbn [callback].
    rewrite (position_callback_engaged Q self Hz Hc Hq).
    unfold state_of, effects_of, result_of. cbn [fst snd].
    rewrite (IH (stored Q self) Hz Hc Hq). cbn [fst snd].
    rewrite stored_stored. reflexivity.
Qed.

Lemma robot_target_ext (s s' : @Self K) (T : RigidTransform) :
  T_mzr_mz s = T_mzr_mz s' -> T_mc_mcr s = T_mc_mcr s' ->
  T_w_yi s = T_w_yi s' -> T_yi_yir s = T_yi_yir s' ->
  T_ycr_yc s = T_ycr_yc s' ->
  robot_target s T = robot_target s' T.
Proof. unfold robot_target. intros -> -> -> -> ->. reflexivity. Qed.

(** The algebra of the clutch: folding the snapshot [Pa] into the baseline
    and taking the pose [Pb] of the release as the new clutch-up pose makes
    [Pb] map to what [Pa] mapped to. *)
Lemma fold_absorbs (mz_cu w_cu T : @RigidTransform K) (Pa Pb : Pose)
    (cu cd : string) :
  let sa := ros_pose_to_T Pa "masters_current" "world" in
  let sb := ros_pose_to_T Pb "masters_current" "world" in
  res_bind (rt_mul mz_cu (inverse w_cu)) (fun x => rt_mul x sa) = Ok T ->
  mat_mul (transpose (orientation Pb)) (orientation Pb) = eye ->
  exists X,
    res_bind (res_bind (rt_mul mz_cu (inverse w_cu))
                       (fun x => rt_mul x (as_frames sa cd "world")))
             (fun x => rt_mul x (RigidTransform_frames cu cd)) = Ok X /\
    res_bind (rt_mul X (inverse (as_frames sb cu "world")))
             (fun x => rt_mul x sb) = Ok T.
Proof.
  intros sa sb H Ho.
  destruct (rt_mul mz_cu (inverse w_cu)) as [x1|] eqn:E; [|discriminate].
  cbn [res_bind] in *.
  apply rt_mul_ok in E as (A1 & A2 & A3 & A4).
  apply rt_mul_ok in H as (B1 & B2 & B3 & B4).
  destruct (rt_mul_defined x1 (as_frames sa cd "world"))
    as (y2 & E2 & F2 & T2 & P2); [rewrite <- B1; reflexivity|].
  destruct (rt_mul_defined y2 (RigidTransform_frames cu cd))
    as (y3 & E3 & F3 & T3 & P3); [rewrite F2; reflexivity|].
  destruct (rt_mul_defined y3 (inverse (as_frames sb cu "world")))
    as (y4 & E4 & F4 & T4 & P4); [rewrite F3; reflexivity|].
  destruct (rt_mul_defined y4 sb) as (y5 & E5 & F5 & T5 & P5);
    [rewrite F4; reflexivity|].
  exists y3. rewrite E2. cbn [res_bind].
  split; [exact E3|]. rewrite E4. cbn [res_bind]. rewrite E5.
  f_equal. apply RigidTransform_ext.
  - rewrite P5, P4, P3, P2, B4.
    rewrite T_to_ros_pose_inverse, !T_to_ros_pose_as_frames.
    change (T_to_ros_pose (RigidTransform_frames cu cd)) with (@pose_id K SK).
    subst sa sb. rewrite !T_to_ros_pose_ros_pose_to_T.
    rewrite pose_mul_id_r, (pose_mul_assoc _ (pose_inv Pb) Pb).
    rewrite (pose_inv_l Pb Ho), pose_mul_id_r. reflexivity.
  - rewrite F5, B2. reflexivity.
  - rewrite T5, T4, T3, T2, B3. reflexivity.
Qed.

End Steps.


(** ** Zeroing *)

Lemma Some_inj (A : Type) (a b : A) : Some a = Some b -> a = b.
Proof. now intros [= ->]. Qed.

Section Zeroing.

Context {K : Type} {SK : Scalar K}.

Lemma position_callback_outcome (P : @Pose K) (self : Self) :
  callback (EvPose P) self =
  (drained (stored P self),
   fst (forward_outcome (drain_log (stored P self)) (drained (stored P self))),
   snd (forward_outcome (drain_log (stored P self)) (drained (stored P self)))).
Proof.
  cbn [callback]. rewrite position_callback_eq. cbv zeta.
  unfold forward_outcome.
  destruct (has_zeroed _ && negb _); [destruct (target_pose _)|]; reflexivity.
Qed.

Lemma forward_outcome_not_zeroed (w : list (@effect K)) (s1 : Self) :
  has_zeroed s1 = false -> forward_outcome w s1 = (w, Ok tt).
Proof. unfold forward_outcome. now intros ->. Qed.

Lemma drained_cons (d : @cb_dict K) (q : list cb_dict) (self : Self) :
  cb_prop_q self = d :: q ->
  drained self = setattrs d (set_cb_prop_q q self) /\
  drain_log self = dict_log d.
Proof. unfold drained, drain_log. now intros ->. Qed.

(** Settling forgets what an earlier dictionary wrote. *)
Lemma settled_setattrs (cu mzr mcr yi yir ycr : option (@RigidTransform K))
    (d : cb_dict) (q : list cb_dict) (P Q : Pose) (self : Self) :
  settled (BaselineDict cu mzr mcr yi yir ycr) P
    (setattrs d (set_cb_prop_q q (stored Q self))) =
  settled (BaselineDict cu mzr mcr yi yir ycr) P self.
Proof. destruct d; reflexivity. Qed.

(** The three pose callbacks that follow a reset, when nothing else is
    queued: the first two are silent, the third applies
    [has_zeroed = True] and forwards from the settled state. *)
Lemma run_zeroing (cu mzr mcr yi yir ycr : option (@RigidTransform K))
    (D1 D2 P : Pose) (self : Self) :
  let d := BaselineDict cu mzr mcr yi yir ycr in
  cb_prop_q self = [HasZeroedDict false; d; HasZeroedDict true] ->
  run [EvPose D1; EvPose D2; EvPose P] self =
  (settled d P self,
   [([Loginfo (LogSettingZero false)], Ok tt); ([], Ok tt);
    forward_outcome [Loginfo (LogSettingZero true)] (settled d P self)]).
Proof.
  intros d Hq.
  set (s1 := setattrs (HasZeroedDict false)
               (set_cb_prop_q [d; HasZeroedDict true] (stored D1 self))).
  set (s2 := setattrs d (set_cb_prop_q [HasZeroedDict true] (stored D2 s1))).
  assert (C1 : callback (EvPose D1) self =
               (s1, [Loginfo (LogSettingZero false)], Ok tt)).
  { rewrite position_callback_outcome.
    destruct (@drained_cons _ _ (stored D1 self) Hq) as [-> ->].
    fold s1. rewrite forward_outcome_not_zeroed; reflexivity. }
  assert (C2 : callback (EvPose D2) s1 = (s2, [], Ok tt)).
  { rewrite position_callback_outcome.
    assert (Hq1 : cb_prop_q (stored D2 s1) = [d; HasZeroedDict true])
      by reflexivity.
    destruct (@drained_cons _ _ (stored D2 s1) Hq1) as [-> ->].
    fold s2. rewrite forward_outcome_not_zeroed; reflexivity. }
  assert (C3 : callback (EvPose P) s2 =
               (settled d P self,
                fst (forward_outcome [Loginfo (LogSettingZero true)]
                                     (settled d P self)),
                snd (forward_outcome [Loginfo (LogSettingZero true)]
                                     (settled d P self)))).
  { rewrite position_callback_outcome.
    assert (Hq2 : cb_prop_q (stored P s2) = [HasZeroedDict true])
      by reflexivity.
    destruct (@drained_cons _ _ (stored P s2) Hq2) as [-> ->].
    assert (E : setattrs (HasZeroedDict true)
                  (set_cb_prop_q [] (stored P s2)) = settled d P self).
    { unfold settled, s2, s1, d, stored. destruct self. reflexivity. }
    rewrite E. reflexivity. }
  rewrite (@run_step _ _ _ _ _ _ _ _ C1), (@run_step _ _ _ _ _ _ _ _ C2),
    (@run_step _ _ _ _ _ _ _ _ C3).
  cbn [run fst snd]. destruct (forward_outcome _ _). reflexivity.
Qed.

(** The same with other dictionaries queued in front: once all of them are
    applied the state is the settled one, whatever they wrote, and the last
    callback forwards from it. *)
Lemma run_settles (cu mzr mcr yi yir ycr : option (@RigidTransform K))
    (q : list cb_dict) :
  let d := BaselineDict cu mzr mcr yi yir ycr in
  forall (ps : list Pose) (P : Pose) (self : Self),
    cb_prop_q self = q ++ [HasZeroedDict false; d; HasZeroedDict true] ->
    length ps = length q + 2 ->
    exists outs,
      run (map EvPose (ps ++ [P])) self =
      (settled d P self,
       outs ++ [forward_outcome [Loginfo (LogSettingZero true)]
                                (settled d P self)]).
Proof.
  intros d. induction q as [|d0 q IH]; intros ps P self Hq Hl.
  - destruct ps as [|D1 [|D2 [|]]]; try discriminate.
    exists [([Loginfo (LogSettingZero false)], Ok tt); ([], Ok tt)].
    cbn [app map]. apply (@run_zeroing cu mzr mcr yi yir ycr D1 D2 P self Hq).
  - destruct ps as [|D ps]; [discriminate|].
    cbn [app] in Hq.
    cbn [app map]. rewrite run_cons, position_callback_outcome.
    destruct (@drained_cons _ _ (stored D self) Hq) as [-> ->].
    unfold state_of, effects_of, result_of. cbn [fst snd].
    destruct (IH ps P (setattrs d0
                         (set_cb_prop_q
                            (q ++ [HasZeroedDict false; d; HasZeroedDict true])
                            (stored D self)))) as (outs & ->).
    { destruct d0; reflexivity. }
    { simpl in Hl. lia. }
    cbn [fst snd]. subst d. rewrite settled_setattrs.
    eexists (_ :: outs). reflexivity.
Qed.

Lemma reset_state_queue (m Y : @RigidTransform K) (self : Self) :
  cb_prop_q (reset_state m Y self) =
  cb_prop_q self ++ [HasZeroedDict false; zero_baseline (_clutch_i self) m Y;
                     HasZeroedDict true].
Proof. reflexivity. Qed.

(** A second reset with the same poses changes nothing but the queue. *)
Lemma reset_state_twice (m Y : @RigidTransform K) (self : Self) :
  set_cb_prop_q [] (reset_state m Y (reset_state m Y self)) =
  set_cb_prop_q [] (reset_state m Y self).
Proof. destruct self. reflexivity. Qed.

Lemma settled_queue (d : @cb_dict K) (P : Pose) (self : Self) :
  settled d P self = settled d P (set_cb_prop_q [] self).
Proof. destruct d; reflexivity. Qed.

Lemma forward_outcome_queue (w : list (@effect K)) (self : Self) :
  forward_outcome w self = forward_outcome w (set_cb_prop_q [] self).
Proof. reflexivity. Qed.

Lemma setattrs_queue (d : @cb_dict K) (q : list cb_dict) (P : Pose) (self : Self) :
  set_cb_prop_q [] (setattrs d (set_cb_prop_q q (stored P self))) =
  setattrs d (stored P (set_cb_prop_q [] self)).
Proof. destruct d; reflexivity. Qed.

(** The outcome of the pose callback depends on the queue only through the
    dictionary at its head. *)
Lemma position_callback_head (P : @Pose K) (s s' : Self) (q q' : list cb_dict) :
  set_cb_prop_q [] s = set_cb_prop_q [] s' ->
  q <> [] -> cb_prop_q s = q -> cb_prop_q s' = q ++ q' ->
  effects_of (callback (EvPose P) s) = effects_of (callback (EvPose P) s') /\
  result_of (callback (EvPose P) s) = result_of (callback (EvPose P) s').
Proof.
  intros E Hn Hq Hq'. destruct q as [|d q]; [contradiction|].
  rewrite !position_callback_outcome.
  destruct (@drained_cons _ _ (stored P s) Hq) as [-> ->].
  destruct (@drained_cons _ _ (stored P s') Hq') as [-> ->].
  unfold effects_of, result_of. cbn [fst snd].
  rewrite (forward_outcome_queue _ (setattrs d (set_cb_prop_q q (stored P s)))).
  rewrite (forward_outcome_queue _
             (setattrs d (set_cb_prop_q (q ++ q') (stored P s')))).
  rewrite !setattrs_queue, E. auto.
Qed.


(** The composition right after a zeroing with the robot at the identity
    and the master at [M0]: a master pose [M0 * D] maps to the motion [D]
    turned by the orientation of [M0] and by the calibration rotations. *)
Lemma spec_target_pose_zeroed (self : @Self K) (M0 D : Pose) (i : nat) :
  T_mz_cu_t self =
  Some (RigidTransform_frames (clutch_label "up" i) "masters_zero") ->
  baseline_of self =
  zero_baseline i (ros_pose_to_T M0 "masters_current" "world")
                  (ros_pose_to_T pose_id "yumi_init" "world") ->
  mat_mul (transpose (orientation M0)) (orientation M0) = eye ->
  spec_target_pose self (pose_mul M0 D) =
  Some (pose_mul
          (pose_mul (pose_rot (rotation _T_YIR_MI))
             (pose_mul (pose_mul (pose_rot (orientation M0)) D)
                       (pose_rot (transpose (orientation M0)))))
          (pose_rot (rotation _T_MC_YCR))).
Proof.
  intros Hmz Hb Ho. unfold baseline_of, zero_baseline in Hb. cbv zeta in Hb.
  injection Hb as H1 H2 H3 H4 H5 H6.
  unfold spec_target_pose. rewrite Hmz, H1, H2, H3, H4, H5, H6. cbv zeta.
  f_equal.
  change (T_to_ros_pose (RigidTransform_frames (clutch_label "up" i)
                                               "masters_zero"))
    with (@pose_id K SK).
  change (T_to_ros_pose (as_frames (ros_pose_to_T M0 "masters_current" "world")
                                   (clutch_label "up" i) "world"))
    with (mkPose (orientation M0) (position M0)).
  replace (mkPose (orientation M0) (position M0)) with M0
    by (destruct M0; reflexivity).
  repeat match goal with
         | |- context [T_to_ros_pose (RigidTransform_rotation ?r ?f ?t)] =>
             change (T_to_ros_pose (RigidTransform_rotation r f t))
               with (pose_rot r)
         end.
  change (@T_to_ros_pose K _T_YIR_MI) with (pose_rot (rotation (@_T_YIR_MI K SK))).
  change (@T_to_ros_pose K _T_MC_YCR) with (pose_rot (rotation (@_T_MC_YCR K SK))).
  change (pose_rot (transpose (@eye K SK))) with (@pose_id K SK).
  change (pose_rot (@eye K SK)) with (@pose_id K SK).
  rewrite T_to_ros_pose_ros_pose_to_T.
  rewrite !pose_mul_id_l, !pose_mul_id_r, (pose_inv_cancel M0 D Ho).
  reflexivity.
Qed.

Lemma zeroed_chain_frames_ok (self : @Self K) (m Y : RigidTransform) (i : nat) :
  T_mz_cu_t self =
  Some (RigidTransform_frames (clutch_label "up" i) "masters_zero") ->
  baseline_of self = zero_baseline i m Y ->
  from_frame Y = "yumi_init" ->
  chain_frames_ok self = true.
Proof.
  intros Hmz Hb HY. unfold baseline_of, zero_baseline in Hb. cbv zeta in Hb.
  injection Hb as H1 H2 H3 H4 H5 H6.
  apply chain_frames_ok_spec.
  do 7 eexists.
  repeat (split; [eassumption|]).
  cbn [from_frame to_frame as_frames RigidTransform_frames
       RigidTransform_rotation].
  repeat split; auto.
Qed.


End Zeroing.


(** ** The queue in reachable states *)

Section Reachable.

Context {K : Type} {SK : Scalar K}.

Lemma whole_resets_app (q1 q2 : list (@cb_dict K)) :
  whole_resets q1 -> whole_resets q2 -> whole_resets (q1 ++ q2).
Proof.
  induction 1; intros H2; simpl; [assumption|].
  constructor. auto.
Qed.

Lemma clutch_callback_T_w_mc (b : bool) (self : @Self K) :
  T_w_mc (state_of (_clutch_callback b self)) = T_w_mc self.
Proof. clutch_cases b self; unfold state_of; simpl; congruence. Qed.

Lemma queue_invariant_init : queue_invariant (@init K).
Proof.
  split; [|split].
  - intros _. split; reflexivity.
  - discriminate.
  - intros _. exists [], []. repeat split; [constructor | now left].
Qed.

Lemma queue_invariant_position (P : @Pose K) (self : Self) :
  queue_invariant self ->
  queue_invariant (state_of (_position_cartesian_current_callback P self)).
Proof.
  intros (_ & I2 & I3). rewrite position_callback_state.
  split; [rewrite T_w_mc_drained; discriminate|].
  unfold drained. change (cb_prop_q (stored P self)) with (cb_prop_q self).
  destruct (cb_prop_q self) as [|d q] eqn:Hq.
  { change (has_zeroed (stored P self)) with (has_zeroed self).
    change (cb_prop_q (stored P self)) with (cb_prop_q self).
    rewrite Hq. split; assumption. }
  destruct (has_zeroed self) eqn:Hz.
  - specialize (I2 eq_refl). inversion I2; subst. split; [discriminate|].
    intros _. eexists [_; _], _. split; [reflexivity|]. split; [assumption|].
    right; left. repeat eexists.
  - destruct (I3 eq_refl) as (pre & q0 & E & W & [A | [A | A]]).
    + destruct pre as [|d0 pre].
      * simpl in E. subst q0. inversion W; subst. split; [discriminate|].
        intros _. eexists [_; _], _. split; [reflexivity|].
        split; [assumption|]. right; left. repeat eexists.
      * simpl in E, A. injection E as -> ->. apply andb_prop in A as [A1 A2].
        destruct d0 as [[|]|]; try discriminate.
        split; [discriminate|]. intros _. exists pre, q0. auto.
    + destruct A as (cu & mzr & mcr & yi & yir & ycr & ->).
      simpl in E. injection E as -> ->.
      split; [simpl; rewrite Hz; discriminate|].
      intros _. exists [HasZeroedDict true], q0. auto.
    + subst pre. simpl in E. injection E as -> ->.
      split; [intros _; exact W | discriminate].
Qed.

Lemma queue_invariant_clutch (b : bool) (self : @Self K) :
  queue_invariant self ->
  queue_invariant (state_of (_clutch_callback b self)).
Proof.
  unfold queue_invariant.
  rewrite clutch_callback_T_w_mc, clutch_callback_has_zeroed,
    clutch_callback_queue. auto.
Qed.

Lemma queue_invariant_reset (Y : @RigidTransform K) (self : Self) :
  queue_invariant self ->
  queue_invariant (state_of (_reset_init_poses Y self)).
Proof.
  intros (I1 & I2 & I3).
  destruct (T_w_mc self) as [m|] eqn:Hm.
  - rewrite (@reset_eq K SK Y m self Hm). unfold state_of. cbn [fst].
    split; [|split].
    + change (T_w_mc (reset_state m Y self)) with (T_w_mc self).
      rewrite Hm. discriminate.
    + change (has_zeroed (reset_state m Y self)) with (has_zeroed self).
      rewrite reset_state_queue. intros Hz.
      apply whole_resets_app; [auto|]. repeat constructor.
    + change (has_zeroed (reset_state m Y self)) with (has_zeroed self).
      rewrite reset_state_queue. intros Hz.
      destruct (I3 Hz) as (pre & q0 & E & W & A).
      exists pre, (q0 ++ [HasZeroedDict false;
                          zero_baseline (_clutch_i self) m Y;
                          HasZeroedDict true]).
      split; [rewrite E; symmetry; apply app_assoc|].
      split; [|exact A].
      apply whole_resets_app; [auto|]. repeat constructor.
  - rewrite (@reset_none_eq K SK Y self Hm). unfold state_of. cbn [fst].
    destruct (I1 eq_refl) as [Hz A].
    assert (A' : forallb is_unzero (cb_prop_q self ++ [@HasZeroedDict K false])
                 = true).
    { rewrite forallb_app, A. reflexivity. }
    split; [|split].
    + intros _. split; [exact Hz | exact A'].
    + change (has_zeroed self = true ->
              whole_resets (cb_prop_q self ++ [HasZeroedDict false])).
      rewrite Hz. discriminate.
    + intros _. exists (cb_prop_q self ++ [HasZeroedDict false]), [].
      split; [symmetry; apply app_nil_r|]. split; [constructor|].
      left. exact A'.
Qed.

Lemma queue_invariant_callback (e : @event K) (self : Self) :
  queue_invariant self -> queue_invariant (state_of (callback e self)).
Proof.
  destruct e; cbn [callback]; unfold reset_init_poses.
  - apply queue_invariant_position.
  - apply queue_invariant_clutch.
  - apply queue_invariant_reset.
Qed.

Lemma queue_invariant_run (evs : list (@event K)) (self : Self) :
  queue_invariant self -> queue_invariant (fst (run evs self)).
Proof.
  revert self. induction evs as [|e evs IH]; intros self I; [exact I|].
  rewrite run_cons. cbn [fst]. apply IH, queue_invariant_callback, I.
Qed.

Lemma reachable_queue_invariant (self : @Self K) :
  reachable self -> queue_invariant self.
Proof.
  intros [evs ->]. apply queue_invariant_run, queue_invariant_init.
Qed.

(** In a reachable state with [has_zeroed] set, a sample is forwarded only
    if nothing is queued. *)
Lemma reachable_forwarding_queue (P E : @Pose K) (self : Self) :
  reachable self -> has_zeroed self = true ->
  published (effects_of (_position_cartesian_current_callback P self)) = [E] ->
  cb_prop_q self = [].
Proof.
  intros R Hz He. apply reachable_queue_invariant in R as (_ & I2 & _).
  specialize (I2 Hz). inversion I2 as [|cu mzr mcr yi yir ycr q W Hq]; auto.
  exfalso. rewrite position_callback_silent in He; [discriminate|].
  rewrite position_callback_state. unfold drained.
  change (cb_prop_q (stored P self)) with (cb_prop_q self).
  rewrite <- Hq. reflexivity.
Qed.

End Reachable.


(** ** The claims *)

Section Claims.

Context {K : Type} {SK : Scalar K}.

(** C5 (pre-zero silence).  As long as [has_zeroed] has not been set true,
    that is in every run all of whose states have [has_zeroed] false, no
    callback publishes a pose; in particular nothing is published in a run
    from the initial state that contains no reset. *)
Theorem pre_zero_silence :
  (forall (evs : list (@event K)) (self : Self),
      Forall (fun s => has_zeroed s = false) (states evs self) ->
      Forall (fun o => published (fst o) = []) (snd (run evs self))) /\
  (forall evs : list (@event K),
      forallb (fun e => negb (is_reset e)) evs = true ->
      Forall (fun o => published (fst o) = []) (snd (run evs init))).
Proof.
  assert (A : forall (evs : list (@event K)) (self : Self),
             Forall (fun s => has_zeroed s = false) (states evs self) ->
             Forall (fun o => published (fst o) = []) (snd (run evs self))).
  { induction evs as [|e evs IH]; intros self H; [constructor|].
    simpl in H. inversion H as [|s l H1 H2]; subst.
    rewrite run_cons. simpl. constructor.
    - simpl. now apply callback_silent.
    - now apply IH. }
  split; [exact A|].
  intros evs Hr. apply A.
  assert (G : forall self : @Self K,
             has_zeroed self = false -> cb_prop_q self = [] ->
             Forall (fun s => has_zeroed s = false) (states evs self)).
  { induction evs as [|e evs IH]; intros self Hz Hq; [constructor|].
    simpl in Hr. apply andb_prop in Hr as [He Hr].
    assert (E : has_zeroed (state_of (callback e self)) = false /\
                cb_prop_q (state_of (callback e self)) = []).
    { destruct e as [P|b|Y]; simpl in *; try discriminate.
      - rewrite position_callback_state. unfold drained, stored.
        simpl. rewrite Hq. simpl. auto.
      - rewrite clutch_callback_has_zeroed, clutch_callback_queue. auto. }
    destruct E as [E1 E2]. simpl. constructor; auto. }
  apply G; reflexivity.
Qed.

(** C10 (reset needs a master pose).  When no master pose has been received
    yet ([T_w_mc] is still [None]) the reset raises [AttributeError] at the
    capture of [T_w_cu_t]: that attribute keeps its old value, only the
    [has_zeroed = False] dictionary has been queued, so the reset neither
    completes nor is ignored.  After any run of the pose callback the reset
    returns normally. *)
Theorem reset_before_first_pose (Y : @RigidTransform K) (self : Self) :
  T_w_mc self = None ->
  let r := _reset_init_poses Y self in
  result_of r = Raise AttributeError /\
  T_w_cu_t (state_of r) = T_w_cu_t self /\
  has_zeroed (state_of r) = has_zeroed self /\
  cb_prop_q (state_of r) = cb_prop_q self ++ [HasZeroedDict false] /\
  forall (P : Pose) (self' : Self),
    result_of
      (_reset_init_poses Y
         (state_of (_position_cartesian_current_callback P self'))) = Ok tt.
Proof.
  intros H r. subst r. rewrite (reset_none_eq Y self H).
  repeat split.
  intros P self'.
  rewrite (reset_eq Y _ (position_callback_T_w_mc P self')). reflexivity.
Qed.

(** C9 (epoch invariant).  A clutch-down processed after zeroing adds one to
    [_clutch_i]; no callback ever decreases it; the clutch-down snapshot and
    the two clutch-up transforms are labelled with the epoch current when
    they are made; the labels of different epochs or kinds are different
    strings; and a composition whose inner labels come from different epochs
    fails with [FrameMismatch], so that a clutch-up cannot fold in a
    snapshot of another epoch. *)
Theorem epoch_invariant :
  (forall self : @Self K,
      has_zeroed self = true ->
      _clutch_i (state_of (_clutch_callback true self)) = _clutch_i self + 1) /\
  (forall (e : @event K) (self : Self),
      _clutch_i self <= _clutch_i (state_of (callback e self))) /\
  (forall (self : @Self K) (m : RigidTransform),
      has_zeroed self = true -> T_w_mc self = Some m ->
      T_w_cd_t1 (state_of (_clutch_callback true self)) =
      Some (as_frames m (clutch_label "down" (_clutch_i self + 1)) "world")) /\
  (forall (self : @Self K) (m X : RigidTransform),
      has_zeroed self = true -> T_w_mc self = Some m ->
      folded_baseline self = Ok X ->
      let s1 := state_of (_clutch_callback false self) in
      T_mz_cu_t s1 = Some X /\
      from_frame X = clutch_label "up" (_clutch_i self) /\
      T_w_cu_t s1 =
      Some (as_frames m (clutch_label "up" (_clutch_i self)) "world")) /\
  (forall (k1 k2 : string) (i j : nat),
      is_clutch_state k1 -> is_clutch_state k2 ->
      clutch_label k1 i = clutch_label k2 j -> k1 = k2 /\ i = j) /\
  (forall (a b : @RigidTransform K) (k1 k2 : string) (i j : nat),
      is_clutch_state k1 -> is_clutch_state k2 ->
      from_frame a = clutch_label k1 i -> to_frame b = clutch_label k2 j ->
      (k1, i) <> (k2, j) ->
      rt_mul a b = Raise FrameMismatch) /\
  (forall (self : @Self K) (cd : RigidTransform) (j : nat),
      T_w_cd_t1 self = Some cd -> from_frame cd = clutch_label "down" j ->
      j <> _clutch_i self ->
      folded_baseline self = Raise FrameMismatch \/
      folded_baseline self = Raise TypeError \/
      folded_baseline self = Raise AttributeError).
Proof.
  split; [|split; [|split; [|split; [|split; [|split]]]]].
  - intros self Hz. rewrite (clutch_down_eq self Hz). cbv zeta.
    destruct (T_w_mc self); reflexivity.
  - intros [P|b|Y] self; simpl.
    + rewrite position_callback_state. unfold drained, stored.
      destruct (cb_prop_q _) as [|[v|] q]; simpl; auto.
    + clutch_cases b self; unfold state_of; simpl; lia.
    + unfold reset_init_poses. reset_cases (ros_pose_to_T Y "yumi_init" "world") self;
        unfold state_of; simpl; lia.
  - intros self m Hz Hm. rewrite (clutch_down_eq self Hz). cbv zeta.
    rewrite Hm. reflexivity.
  - intros self m X Hz Hm Hf. cbv zeta. rewrite (clutch_up_eq self Hz).
    cbv zeta. rewrite Hf, Hm. unfold state_of; simpl.
    repeat split.
    unfold folded_baseline in Hf.
    res_inv Hf. apply rt_mul_ok in Hf as (_ & A & _). exact A.
  - exact clutch_label_inj.
  - intros a b k1 k2 i j H1 H2 Ha Hb N. apply rt_mul_mismatch.
    rewrite Ha, Hb. intros E. apply clutch_label_inj in E; auto.
    destruct E; subst. now apply N.
  - intros self cd j Hcd Hl N. unfold folded_baseline.
    destruct (T_w_cu_t self) as [w_cu|]; simpl; auto.
    destruct (T_mz_cu_t self) as [mz_cu|]; simpl; auto.
    destruct (rt_mul mz_cu (inverse w_cu)) as [x|e] eqn:E1; simpl.
    2:{ apply rt_mul_raise in E1 as [-> _]. auto. }
    rewrite Hcd. simpl.
    destruct (rt_mul x cd) as [y|e] eqn:E2; simpl.
    2:{ apply rt_mul_raise in E2 as [-> _]. auto. }
    left. apply rt_mul_mismatch. simpl.
    apply rt_mul_ok in E2 as (_ & A & _). rewrite A, Hl. unfold _clutch.
    intros E. apply clutch_label_inj in E as [_ E]; unfold is_clutch_state; auto.
Qed.


(** C2 (the relay's composition).  Let [s1] be the state in which the pose
    callback tests its guards (the pose stored, one queued dictionary
    applied).  When [has_zeroed] holds there and the clutch is not engaged:
    if the labels of the attributes fit, the callback publishes exactly one
    pose, the composition of section 4.4 ([spec_target_pose]: master motion
    since the zero, re-basing rotations, calibration rotations, robot-side
    chain); and any pose it publishes is that composition. *)
Theorem relay_composition (P : @Pose K) (self : Self) :
  let s1 := drained (stored P self) in
  let r := _position_cartesian_current_callback P self in
  has_zeroed s1 = true -> clutch_state s1 = false ->
  (chain_frames_ok s1 = true ->
   exists E, spec_target_pose s1 P = Some E /\
             published (effects_of r) = [E] /\ result_of r = Ok tt) /\
  (forall E, In E (published (effects_of r)) ->
             chain_frames_ok s1 = true /\ spec_target_pose s1 P = Some E).
Proof.
  intros s1 r Hz Hc. subst r. rewrite position_callback_eq. cbv zeta.
  fold s1. rewrite Hz, Hc. cbn [andb negb].
  assert (Hm : T_w_mc s1 = Some (ros_pose_to_T P "masters_current" "world")).
  { subst s1. now rewrite T_w_mc_drained. }
  split.
  - intros Hf. destruct (@target_pose_defined _ _ s1 P Hm Hf) as (T & -> & HT & _).
    exists (T_to_ros_pose T). unfold effects_of, result_of; simpl.
    rewrite published_app, published_drain_log. auto.
  - intros E. destruct (target_pose s1) as [T|e] eqn:HT;
      unfold effects_of; simpl.
    + rewrite published_app, published_drain_log. simpl.
      intros [<-|[]].
      pose proof (@target_pose_sound _ _ s1 P T Hm HT) as Hf. split; [exact Hf|].
      destruct (@target_pose_defined _ _ s1 P Hm Hf) as (T' & HT' & HS & _).
      congruence.
    + rewrite published_drain_log. intros [].
Qed.


(** C3 (the fold at clutch-up).  Take a zeroed state whose four transforms
    are set.  When the clutch-up transforms carry one label and the
    clutch-down snapshot is labelled with the current epoch and expressed
    in the frame of [T_w_cu_t], a clutch-release returns normally and
    leaves [T_mz_cu_t = T_mz_cu_t * inverse(T_w_cu_t) * T_w_cd_t1 * relabel],
    the last factor being the identity from the clutch-up to the
    clutch-down label of the epoch; its numbers are those of the first
    three factors.  [T_w_cu_t] becomes the current master pose under the
    clutch-up label, and the clutch is disengaged.  When one of these
    labels differs, the release raises [FrameMismatch] after its log line:
    nothing is folded, [T_w_cu_t] is not refreshed and the clutch stays
    engaged. *)
Theorem clutch_up_folds (self : @Self K) (mz_cu w_cu w_cd w_mc : RigidTransform) :
  has_zeroed self = true ->
  T_mz_cu_t self = Some mz_cu -> T_w_cu_t self = Some w_cu ->
  T_w_cd_t1 self = Some w_cd -> T_w_mc self = Some w_mc ->
  let up := clutch_label "up" (_clutch_i self) in
  let relabel := RigidTransform_frames up (clutch_label "down" (_clutch_i self)) in
  let r := _clutch_callback false self in
  let fit := from_frame w_cu = from_frame mz_cu /\
             to_frame w_cd = to_frame w_cu /\
             from_frame w_cd = clutch_label "down" (_clutch_i self) in
  (fit ->
   exists new,
     res_bind (res_bind (rt_mul mz_cu (inverse w_cu))
                        (fun x => rt_mul x w_cd))
              (fun x => rt_mul x relabel) = Ok new /\
     T_to_ros_pose new =
     pose_mul (pose_mul (T_to_ros_pose mz_cu) (pose_inv (T_to_ros_pose w_cu)))
              (T_to_ros_pose w_cd) /\
     from_frame new = up /\ to_frame new = to_frame mz_cu /\
     result_of r = Ok tt /\
     T_mz_cu_t (state_of r) = Some new /\
     T_w_cu_t (state_of r) = Some (as_frames w_mc up "world") /\
     clutch_state (state_of r) = false) /\
  (~ fit ->
   r = (self, [Loginfo (LogClutchUp (_clutch_i self))], Raise FrameMismatch)).
Proof.
  intros Hz Ha Hb Hc Hm up relabel r fit. split.
  - intros (H1 & H2 & H3).
    destruct (rt_mul_defined mz_cu (inverse w_cu)) as (x1 & E1 & F1 & T1 & P1);
      [simpl; congruence|].
    destruct (rt_mul_defined x1 w_cd) as (x2 & E2 & F2 & T2 & P2);
      [rewrite F1; simpl; congruence|].
    destruct (rt_mul_defined x2 relabel) as (x3 & E3 & F3 & T3 & P3);
      [rewrite F2; simpl; congruence|].
    assert (Hf : folded_baseline self = Ok x3).
    { unfold folded_baseline. rewrite Ha, Hb, Hc.
      cbn [py_getattr py_mul res_bind]. rewrite E1. cbn [res_bind].
      rewrite E2. cbn [res_bind]. exact E3. }
    exists x3. rewrite E1. cbn [res_bind]. rewrite E2. cbn [res_bind].
    split; [exact E3|].
    split.
    { rewrite P3, P2, P1, T_to_ros_pose_inverse.
      change (T_to_ros_pose relabel) with (@pose_id K SK).
      apply pose_mul_id_r. }
    split; [rewrite F3; reflexivity|].
    split; [congruence|].
    subst r. rewrite (clutch_up_eq self Hz). cbv zeta. rewrite Hf, Hm.
    unfold result_of, state_of; simpl. auto.
  - intros Hn. subst r. rewrite (clutch_up_eq self Hz). cbv zeta.
    assert (Hf : folded_baseline self = Raise FrameMismatch).
    { unfold folded_baseline. rewrite Ha, Hb, Hc.
      cbn [py_getattr py_mul res_bind].
      destruct (String.eqb_spec (from_frame w_cu) (from_frame mz_cu))
        as [E1|N1].
      2:{ rewrite (@rt_mul_mismatch K SK mz_cu (inverse w_cu) N1).
          reflexivity. }
      destruct (@rt_mul_defined K SK mz_cu (inverse w_cu) E1)
        as (x1 & X1 & F1 & _).
      rewrite X1. cbn [res_bind].
      destruct (String.eqb_spec (to_frame w_cd) (to_frame w_cu)) as [E2|N2].
      2:{ rewrite (@rt_mul_mismatch K SK x1 w_cd); [reflexivity|].
          rewrite F1. exact N2. }
      destruct (@rt_mul_defined K SK x1 w_cd) as (x2 & X2 & F2 & _);
        [rewrite F1; exact E2|].
      rewrite X2. cbn [res_bind].
      apply rt_mul_mismatch. rewrite F2. intros E3. apply Hn.
      split; [exact E1|]. split; [exact E2|]. symmetry. exact E3. }
    rewrite Hf. reflexivity.
Qed.



(** Clutch absorption for a relay with nothing queued. *)
Lemma clutch_absorption_settled (self : @Self K) (Pa Pb Ea : Pose) (mid : list Pose) :
  has_zeroed self = true -> clutch_state self = false -> cb_prop_q self = [] ->
  orthogonal (orientation Pb) ->
  published (effects_of (_position_cartesian_current_callback Pa self)) = [Ea] ->
  emissions
    (snd (run ([EvPose Pa; EvClutch true] ++ map EvPose mid
                 ++ [EvPose Pb; EvClutch false; EvPose Pb]) self)) =
  [([Ea], Ok tt); ([], Ok tt)] ++ map (fun _ => ([], Ok tt)) mid
    ++ [([], Ok tt); ([], Ok tt); ([Ea], Ok tt)].
Proof.
  intros Hz Hc Hq [Ho _] He.
  rewrite position_callback_forwarding in He by assumption.
  destruct (target_pose (stored Pa self)) as [Ta|e] eqn:HTa; [|discriminate].
  unfold effects_of in He; simpl in He. injection He as He.
  (* the forwarded pose and the clutch-down *)
  set (s1 := stored Pa self) in *.
  assert (C1 : callback (EvPose Pa) self =
               (s1, [Publish (T_to_ros_pose Ta)], Ok tt)).
  { cbn [callback]. rewrite position_callback_forwarding by assumption.
    fold s1. rewrite HTa. reflexivity. }
  set (cd := clutch_label "down" (_clutch_i s1 + 1)).
  set (s2 := set_clutch_state true
               (set_T_w_cd_t1
                  (Some (as_frames (ros_pose_to_T Pa "masters_current" "world")
                                   cd "world"))
                  (set_clutch_i (_clutch_i s1 + 1) s1))).
  assert (C2 : callback (EvClutch true) s1 =
               (s2, [Loginfo (LogClutchDown (_clutch_i s1 + 1))], Ok tt)).
  { cbn [callback]. rewrite (@clutch_down_eq K SK s1 Hz). reflexivity. }
  cbn [app]. rewrite (@run_snd_step K SK _ _ _ _ _ _ C1), (@run_snd_step K SK _ _ _ _ _ _ C2).
  (* the poses received while the clutch is engaged *)
  replace (map EvPose mid ++ [EvPose Pb; EvClutch false; EvPose Pb])
    with ((map EvPose mid ++ [EvPose Pb]) ++ [EvClutch false; EvPose Pb])
    by (now rewrite <- app_assoc).
  rewrite run_snd_app, (@run_engaged K SK mid Pb s2 Hz eq_refl Hq).
  cbn [fst snd].
  set (s3 := stored Pb s2).
  (* the clutch-up *)
  rewrite target_pose_split in HTa.
  destruct (master_delta s1) as [Tmz|] eqn:Hmd; [|discriminate].
  cbn [res_bind] in HTa.
  pose proof Hmd as Hmd'. apply master_delta_ok in Hmd'
    as (mz_cu & w_cu & w_mc & Hmz & Hwcu & _).
  unfold master_delta in Hmd. rewrite Hmz, Hwcu in Hmd.
  cbn [py_getattr py_mul res_bind] in Hmd.
  change (T_w_mc s1)
    with (Some (ros_pose_to_T Pa "masters_current" "world")) in Hmd.
  destruct (rt_mul mz_cu (inverse w_cu)) as [x|] eqn:Hx; [|discriminate].
  cbn [res_bind py_mul] in Hmd.
  destruct (@fold_absorbs K SK mz_cu w_cu Tmz Pa Pb
              (clutch_label "up" (_clutch_i s3)) cd) as (X & HX & HT).
  { rewrite Hx. exact Hmd. }
  { exact Ho. }
  assert (Hfb : folded_baseline s3 = Ok X).
  { unfold folded_baseline.
    change (T_w_cu_t s3) with (T_w_cu_t self).
    change (T_mz_cu_t s3) with (T_mz_cu_t self).
    change (T_w_cu_t s1) with (T_w_cu_t self) in Hwcu.
    change (T_mz_cu_t s1) with (T_mz_cu_t self) in Hmz.
    rewrite Hwcu, Hmz. cbn [py_getattr py_mul res_bind].
    rewrite Hx in HX |- *. cbn [res_bind] in HX |- *.
    change (T_w_cd_t1 s3)
      with (Some (as_frames (ros_pose_to_T Pa "masters_current" "world")
                            cd "world")).
    cbn [py_mul]. exact HX. }
  set (s4 := set_clutch_state false
               (set_T_w_cu_t
                  (Some (as_frames (ros_pose_to_T Pb "masters_current" "world")
                                   (_clutch s3 "up") "world"))
                  (set_T_mz_cu_t (Some X) s3))).
  assert (C4 : callback (EvClutch false) s3 =
               (s4, [Loginfo (LogClutchUp (_clutch_i s3))], Ok tt)).
  { cbn [callback]. rewrite (@clutch_up_eq K SK s3 Hz). cbv zeta.
    rewrite Hfb. reflexivity. }
  (* the pose after the release *)
  assert (HT5 : target_pose (stored Pb s4) = Ok Ta).
  { rewrite target_pose_split.
    assert (Hd5 : master_delta (stored Pb s4) = Ok Tmz).
    { unfold master_delta. exact HT. }
    rewrite Hd5. cbn [res_bind]. rewrite <- HTa.
    apply robot_target_ext; reflexivity. }
  assert (C5 : callback (EvPose Pb) s4 =
               (stored Pb s4, [Publish (T_to_ros_pose Ta)], Ok tt)).
  { cbn [callback].
    rewrite (@position_callback_forwarding K SK Pb s4 Hz eq_refl Hq).
    rewrite HT5. reflexivity. }
  rewrite (@run_snd_step K SK _ _ _ _ _ _ C4), (@run_snd_step K SK _ _ _ _ _ _ C5).
  unfold emissions. cbn [map published fst snd app run].
  rewrite !map_app, map_map. cbn [map published fst snd].
  rewrite He, <- app_assoc. reflexivity.
Qed.

(** C1 (clutch absorption).  Take a reachable state of the relay that is
    zeroed, with the clutch released, in which the master pose [Pa] is
    forwarded as the robot pose [Ea].  Press the clutch, move the master
    through any poses [mid] to [Pb] (the orientation of [Pb] being a
    rotation), release the clutch and feed [Pb] again: nothing is published
    while the clutch is engaged, no callback raises, and the pose published
    for [Pb] is [Ea]. *)
Theorem clutch_absorption (self : @Self K) (Pa Pb Ea : Pose) (mid : list Pose) :
  reachable self ->
  has_zeroed self = true -> clutch_state self = false ->
  orthogonal (orientation Pb) ->
  published (effects_of (_position_cartesian_current_callback Pa self)) = [Ea] ->
  emissions
    (snd (run ([EvPose Pa; EvClutch true] ++ map EvPose mid
                 ++ [EvPose Pb; EvClutch false; EvPose Pb]) self)) =
  [([Ea], Ok tt); ([], Ok tt)] ++ map (fun _ => ([], Ok tt)) mid
    ++ [([], Ok tt); ([], Ok tt); ([Ea], Ok tt)].
Proof.
  intros R Hz Hc Ho He.
  apply clutch_absorption_settled; auto.
  exact (@reachable_forwarding_queue K SK Pa Ea self R Hz He).
Qed.


Lemma cb_prop_q_setattrs (d : @cb_dict K) (q : list cb_dict) (s : Self) :
  cb_prop_q (setattrs d (set_cb_prop_q q s)) = q.
Proof. destruct d; reflexivity. Qed.

(** Two relays that differ in what is queued behind a common front of the
    queue answer alike as long as the front lasts. *)
Lemma run_poses_head (ps : list (@Pose K)) :
  forall (q q' : list cb_dict) (s s' : Self),
    set_cb_prop_q [] s = set_cb_prop_q [] s' ->
    cb_prop_q s = q -> cb_prop_q s' = q ++ q' -> length ps = length q ->
    snd (run (map EvPose ps) s) = snd (run (map EvPose ps) s') /\
    set_cb_prop_q [] (fst (run (map EvPose ps) s)) =
    set_cb_prop_q [] (fst (run (map EvPose ps) s')) /\
    cb_prop_q (fst (run (map EvPose ps) s')) = q'.
Proof.
  induction ps as [|P ps IH]; intros q q' s s' E Hq Hq' Hl.
  - destruct q; [|discriminate]. cbn [map run fst snd]. auto.
  - destruct q as [|d q]; [discriminate|].
    cbn [map]. rewrite !run_cons. cbn [fst snd].
    destruct (@position_callback_head K SK P s s' (d :: q) q' E)
      as [W R]; [discriminate | exact Hq | exact Hq' |].
    rewrite W, R.
    cbn [callback]. rewrite !position_callback_state.
    cbn [app] in Hq'.
    destruct (@drained_cons _ _ _ (stored P s) Hq) as [-> _].
    destruct (@drained_cons _ _ _ (stored P s') Hq') as [-> _].
    destruct (IH q q' (setattrs d (set_cb_prop_q q (stored P s)))
                (setattrs d (set_cb_prop_q (q ++ q') (stored P s'))))
      as (I1 & I2 & I3).
    + rewrite !setattrs_queue, E. reflexivity.
    + apply cb_prop_q_setattrs.
    + apply cb_prop_q_setattrs.
    + simpl in Hl. lia.
    + rewrite I1. auto.
Qed.

(** The pose callback of a relay with nothing queued. *)
Lemma pose_step_empty (P : @Pose K) (s : Self) :
  cb_prop_q s = [] ->
  callback (EvPose P) s =
  (stored P s, fst (forward_outcome [] (stored P s)),
   snd (forward_outcome [] (stored P s))).
Proof.
  intros Hq. rewrite position_callback_outcome.
  assert (Hq' : cb_prop_q (stored P s) = []) by exact Hq.
  rewrite (drained_nil _ Hq'), (drain_log_nil _ Hq'). reflexivity.
Qed.

Lemma run_three_empty (A B C : @Pose K) (s : Self) :
  cb_prop_q s = [] ->
  run [EvPose A; EvPose B; EvPose C] s =
  (stored C s,
   [forward_outcome [] (stored A s); forward_outcome [] (stored B s);
    forward_outcome [] (stored C s)]).
Proof.
  intros Hq.
  pose proof (pose_step_empty A s Hq) as C1.
  pose proof (pose_step_empty B (stored A s) Hq) as C2.
  pose proof (pose_step_empty C (stored B s) Hq) as C3.
  change (stored B (stored A s)) with (stored B s) in C2.
  change (stored C (stored B s)) with (stored C s) in C3.
  rewrite (@run_step _ _ _ _ _ _ _ _ C1), (@run_step _ _ _ _ _ _ _ _ C2),
    (@run_step _ _ _ _ _ _ _ _ C3).
  cbn [run fst snd]. rewrite <- !surjective_pairing. reflexivity.
Qed.

Lemma stored_settled (d : @cb_dict K) (P Q : Pose) (s : Self) :
  stored P (settled d Q s) = settled d P s.
Proof. destruct d; reflexivity. Qed.

Lemma settled_settled (d : @cb_dict K) (P Q : Pose) (s : Self) :
  settled d P (settled d Q s) = settled d P s.
Proof. destruct d; reflexivity. Qed.

(** What a log line in front changes in the outcome of a callback: nothing
    of what is published or returned. *)
Lemma forward_outcome_emission (w : list (@effect K)) (s : Self) :
  published w = [] ->
  (published (fst (forward_outcome w s)), snd (forward_outcome w s)) =
  (published (fst (forward_outcome [] s)), snd (forward_outcome [] s)).
Proof.
  intros H. unfold forward_outcome.
  destruct (has_zeroed s && negb (clutch_state s));
    [destruct (target_pose s)|]; cbn [fst snd app];
    rewrite ?published_app, ?H; reflexivity.
Qed.

(** C7 (re-zero).  Reset once, or twice in a row, with the same robot pose
    [Y] and the same last-known master pose [m], and feed both relays the
    same master poses.  With [n] dictionaries queued before the reset, the
    first [n + 3] poses have the same outcome in both relays, and after
    them the relay reset once is zeroed with nothing queued.  The next two
    poses are dropped by the relay reset twice, which is applying the
    dictionaries of the second reset.  The pose after these is answered
    alike, and from then on the two relays are in the same state and every
    run has the same outcome.  The baseline of that state is the one
    computed from the epoch, [m] and [Y] alone: nothing of the earlier
    baseline or of the first reset is left. *)
Theorem idempotent_rezero (self : @Self K) (Y : Pose) (m : RigidTransform)
    (ps : list Pose) (P3 P4 P5 P6 : Pose) :
  T_w_mc self = Some m ->
  length ps = length (cb_prop_q self) + 2 ->
  let once := fst (run [EvReset Y] self) in
  let twice := fst (run [EvReset Y; EvReset Y] self) in
  let pre := map EvPose (ps ++ [P3]) in
  let rest := [EvPose P4; EvPose P5; EvPose P6] in
  snd (run pre once) = snd (run pre twice) /\
  has_zeroed (fst (run pre once)) = true /\
  cb_prop_q (fst (run pre once)) = [] /\
  (exists e4 e5 e6,
      emissions (snd (run rest (fst (run pre once)))) = [e4; e5; e6] /\
      emissions (snd (run rest (fst (run pre twice)))) =
      [([], Ok tt); ([], Ok tt); e6]) /\
  fst (run (pre ++ rest) once) = fst (run (pre ++ rest) twice) /\
  (forall evs,
      snd (run evs (fst (run (pre ++ rest) once))) =
      snd (run evs (fst (run (pre ++ rest) twice)))) /\
  has_zeroed (fst (run (pre ++ rest) once)) = true /\
  cb_prop_q (fst (run (pre ++ rest) once)) = [] /\
  T_mz_cu_t (fst (run (pre ++ rest) once)) =
  Some (RigidTransform_frames (clutch_label "up" (_clutch_i self))
                              "masters_zero") /\
  baseline_of (fst (run (pre ++ rest) once)) =
  zero_baseline (_clutch_i self) m (ros_pose_to_T Y "yumi_init" "world").
Proof.
  intros Hm Hl once twice pre rest.
  set (Yt := ros_pose_to_T Y "yumi_init" "world").
  set (s1 := reset_state m Yt self).
  set (s2 := reset_state m Yt s1).
  set (w := [Loginfo LogResetInitPose;
             Loginfo (LogReceivedYumiPose (translation Yt));
             @Loginfo K LogDoneInitPose]).
  assert (C1 : callback (EvReset Y) self = (s1, w, Ok tt)).
  { cbn [callback]. unfold reset_init_poses. fold Yt.
    rewrite (@reset_eq K SK Yt m self Hm). reflexivity. }
  assert (C2 : callback (EvReset Y) s1 = (s2, w, Ok tt)).
  { cbn [callback]. unfold reset_init_poses. fold Yt.
    rewrite (@reset_eq K SK Yt m s1 Hm). reflexivity. }
  assert (Eo : once = s1).
  { unfold once. rewrite (@run_fst_step _ _ _ _ _ _ _ _ C1). reflexivity. }
  assert (Et : twice = s2).
  { unfold twice. rewrite (@run_fst_step _ _ _ _ _ _ _ _ C1),
      (@run_fst_step _ _ _ _ _ _ _ _ C2). reflexivity. }
  rewrite Eo, Et. clear Eo Et once twice.
  set (d := zero_baseline (_clutch_i self) m Yt).
  assert (Hq1 : cb_prop_q s1 =
                cb_prop_q self ++ [HasZeroedDict false; d; HasZeroedDict true])
    by reflexivity.
  assert (Hq2 : cb_prop_q s2 =
                (cb_prop_q self ++ [HasZeroedDict false; d; HasZeroedDict true])
                  ++ [HasZeroedDict false; d; HasZeroedDict true])
    by reflexivity.
  destruct (@run_settles K SK _ _ _ _ _ _ (cb_prop_q self) ps P3 s1 Hq1 Hl)
    as (outs1 & R1).
  change (run pre s1 =
          (settled d P3 s1,
           outs1 ++ [forward_outcome [Loginfo (LogSettingZero true)]
                                     (settled d P3 s1)])) in R1.
  set (u3 := settled d P3 s1) in *.
  assert (F1 : fst (run pre s1) = u3) by (rewrite R1; reflexivity).
  destruct (@run_poses_head (ps ++ [P3])
              (cb_prop_q self ++ [HasZeroedDict false; d; HasZeroedDict true])
              [HasZeroedDict false; d; HasZeroedDict true] s1 s2)
    as (O & E3 & Q2).
  { symmetry. apply reset_state_twice. }
  { exact Hq1. }
  { exact Hq2. }
  { rewrite !length_app. simpl. lia. }
  fold pre in O, E3, Q2. rewrite F1 in E3.
  set (t3 := fst (run pre s2)) in *.
  pose proof (@run_zeroing K SK _ _ _ _ _ _ P4 P5 P6 t3 Q2) as R2.
  change (run rest t3 =
          (settled d P6 t3,
           [([Loginfo (LogSettingZero false)], Ok tt); ([], Ok tt);
            forward_outcome [Loginfo (LogSettingZero true)]
                            (settled d P6 t3)])) in R2.
  assert (Hu : cb_prop_q u3 = []) by reflexivity.
  pose proof (run_three_empty P4 P5 P6 u3 Hu) as R3.
  fold rest in R3.
  assert (Ef : settled d P6 t3 = stored P6 u3).
  { rewrite (settled_queue d P6 t3), <- E3, <- settled_queue.
    unfold u3. rewrite settled_settled, stored_settled. reflexivity. }
  rewrite Ef in R2.
  rewrite !run_fst_app, F1. fold t3. rewrite R2, R3. cbn [fst snd].
  split; [exact O|].
  split; [reflexivity|]. split; [reflexivity|].
  split.
  { exists (published (fst (forward_outcome [] (stored P4 u3))),
            snd (forward_outcome [] (stored P4 u3))),
           (published (fst (forward_outcome [] (stored P5 u3))),
            snd (forward_outcome [] (stored P5 u3))),
           (published (fst (forward_outcome [] (stored P6 u3))),
            snd (forward_outcome [] (stored P6 u3))).
    split; [reflexivity|].
    cbn [emissions map fst snd published].
    rewrite (@forward_outcome_emission [Loginfo (LogSettingZero true)]
               (stored P6 u3) eq_refl).
    reflexivity. }
  split; [reflexivity|].
  split; [reflexivity|].
  split; [reflexivity|]. split; [reflexivity|].
  split; reflexivity.
Qed.


(** C8 (concrete scenario).  A relay whose last-known master pose is [M0]
    (an orientation that is a rotation), with the clutch released and
    nothing queued, is reset with the robot at the identity.  The two pose
    callbacks that follow only apply queued dictionaries.  Then the master
    pose [M0] is forwarded as the identity, and [M0 * translate(dx, 0, 0)]
    as a pure translation: the displacement [orientation(M0) (dx, 0, 0)]
    of the master in the world, turned by the calibration rotation of
    [_T_YIR_MI]; the orientation stays the identity. *)
Theorem concrete_scenario (self : @Self K) (M0 D1 D2 : Pose) (dx : K) :
  T_w_mc self = Some (ros_pose_to_T M0 "masters_current" "world") ->
  cb_prop_q self = [] -> clutch_state self = false ->
  orthogonal (orientation M0) ->
  emissions
    (snd (run [EvReset pose_id; EvPose D1; EvPose D2; EvPose M0;
               EvPose (pose_mul M0 (translate_x dx))] self)) =
  [([], Ok tt); ([], Ok tt); ([], Ok tt);
   ([pose_id], Ok tt);
   ([mkPose eye
       (mat_vec (rotation _T_YIR_MI)
                (mat_vec (orientation M0) (Vec3 dx k0 k0)))], Ok tt)].
Proof.
  intros Hm Hq Hc [Ho Ho'].
  set (m := ros_pose_to_T M0 "masters_current" "world") in *.
  set (Yt := ros_pose_to_T (@pose_id K SK) "yumi_init" "world").
  set (s1 := reset_state m Yt self).
  set (d := zero_baseline (_clutch_i self) m Yt).
  set (s4 := settled d M0 s1).
  assert (C1 : callback (EvReset pose_id) self =
               (s1, [Loginfo LogResetInitPose;
                     Loginfo (LogReceivedYumiPose (translation Yt));
                     Loginfo LogDoneInitPose], Ok tt)).
  { cbn [callback]. unfold reset_init_poses. fold Yt.
    rewrite (@reset_eq K SK Yt m self Hm). reflexivity. }
  assert (Hq1 : cb_prop_q s1 = [HasZeroedDict false; d; HasZeroedDict true]).
  { unfold s1. rewrite reset_state_queue, Hq. reflexivity. }
  pose proof (@run_zeroing K SK _ _ _ _ _ _ D1 D2 M0 s1 Hq1) as R.
  change (run [EvPose D1; EvPose D2; EvPose M0] s1 =
          (s4, [([Loginfo (LogSettingZero false)], Ok tt); ([], Ok tt);
                forward_outcome [Loginfo (LogSettingZero true)] s4])) in R.
  (* the zeroed state *)
  assert (Hz4 : has_zeroed s4 = true) by reflexivity.
  assert (Hc4 : clutch_state s4 = false) by exact Hc.
  assert (Hq4 : cb_prop_q s4 = []) by reflexivity.
  assert (Hmz4 : T_mz_cu_t s4 =
                 Some (RigidTransform_frames
                         (clutch_label "up" (_clutch_i self)) "masters_zero"))
    by reflexivity.
  assert (Hb4 : baseline_of s4 = d) by reflexivity.
  (* the pose M0 *)
  assert (HT4 : exists T, target_pose s4 = Ok T /\ T_to_ros_pose T = pose_id).
  { destruct (@target_pose_defined K SK s4 M0 eq_refl) as (T & HT & HS & _).
    { exact (@zeroed_chain_frames_ok K SK s4 m Yt (_clutch_i self) Hmz4 Hb4
               eq_refl). }
    exists T. split; [exact HT|].
    rewrite <- (pose_mul_id_r M0) in HS at 1.
    rewrite (@spec_target_pose_zeroed K SK s4 M0 pose_id (_clutch_i self)
               Hmz4 Hb4 Ho) in HS.
    apply Some_inj in HS. rewrite <- HS.
    change (@pose_id K SK) with (mkPose (@eye K SK) zeros) at 1.
    rewrite pose_rot_conj, Ho', mat_vec_zeros.
    rewrite pose_rot_conj, calibration_inverse, mat_vec_zeros. reflexivity. }
  destruct HT4 as (T4 & HT4 & HP4).
  assert (F4 : forward_outcome [Loginfo (LogSettingZero true)] s4 =
               ([Loginfo (LogSettingZero true); Publish pose_id], Ok tt)).
  { unfold forward_outcome. rewrite Hz4, Hc4, HT4, HP4. reflexivity. }
  rewrite F4 in R.
  (* the translated pose *)
  set (P5 := pose_mul M0 (translate_x dx)).
  set (E5 := mkPose (@eye K SK)
               (mat_vec (rotation _T_YIR_MI)
                        (mat_vec (orientation M0) (Vec3 dx k0 k0)))).
  assert (HT5 : exists T, target_pose (stored P5 s4) = Ok T /\
                          T_to_ros_pose T = E5).
  { assert (Hmz5 : T_mz_cu_t (stored P5 s4) =
                   Some (RigidTransform_frames
                           (clutch_label "up" (_clutch_i self)) "masters_zero")).
    { rewrite T_mz_cu_t_stored. exact Hmz4. }
    assert (Hb5 : baseline_of (stored P5 s4) = d).
    { rewrite baseline_of_stored. exact Hb4. }
    destruct (@target_pose_defined K SK (stored P5 s4) P5
                (T_w_mc_stored P5 s4))
      as (T & HT & HS & _).
    { exact (@zeroed_chain_frames_ok K SK (stored P5 s4) m Yt
               (_clutch_i self) Hmz5 Hb5 eq_refl). }
    exists T. split; [exact HT|].
    unfold P5 in HS at 2.
    rewrite (@spec_target_pose_zeroed K SK (stored P5 s4) M0 (translate_x dx)
               (_clutch_i self) Hmz5 Hb5 Ho) in HS.
    apply Some_inj in HS. rewrite <- HS. unfold translate_x.
    rewrite pose_rot_conj, Ho'.
    rewrite pose_rot_conj, calibration_inverse. reflexivity. }
  destruct HT5 as (T5 & HT5 & HP5).
  assert (C5 : callback (EvPose P5) s4 =
               (stored P5 s4, [Publish E5], Ok tt)).
  { cbn [callback].
    rewrite (@position_callback_forwarding K SK P5 s4 Hz4 Hc4 Hq4).
    rewrite HT5, HP5. reflexivity. }
  (* the run *)
  change [EvReset pose_id; EvPose D1; EvPose D2; EvPose M0; EvPose P5]
    with ([EvReset (@pose_id K SK)]
            ++ [EvPose D1; EvPose D2; EvPose M0] ++ [EvPose P5]).
  rewrite !run_snd_app.
  rewrite (@run_snd_step _ _ _ _ _ _ _ _ C1), (@run_fst_step _ _ _ _ _ _ _ _ C1).
  change (fst (run [] s1)) with s1. rewrite R. cbn [fst snd].
  rewrite (@run_snd_step _ _ _ _ _ _ _ _ C5).
  reflexivity.
Qed.


(** C4, as the code has it.  A reset that returns appends three
    dictionaries to the queue ([has_zeroed = False], the six baseline
    transforms, [has_zeroed = True]) and also writes those transforms, and
    [T_mz_cu_t] which is not queued, in place.  A clutch event never
    touches the queue, and a clutch-up writes [T_mz_cu_t] and [T_w_cu_t] in
    place.  The pose callback applies exactly one queued dictionary, the
    oldest, and leaves the others queued.  [has_zeroed] is changed by the
    pose callback only. *)
Theorem queue_behaviour :
  (forall (Y : @Pose K) (m : RigidTransform) (self : Self),
      T_w_mc self = Some m ->
      let s' := state_of (callback (EvReset Y) self) in
      let d := zero_baseline (_clutch_i self) m
                 (ros_pose_to_T Y "yumi_init" "world") in
      cb_prop_q s' =
      cb_prop_q self ++ [HasZeroedDict false; d; HasZeroedDict true] /\
      baseline_of s' = d /\
      T_mz_cu_t s' =
      Some (RigidTransform_frames (clutch_label "up" (_clutch_i self))
                                  "masters_zero")) /\
  (forall (b : bool) (self : @Self K),
      cb_prop_q (state_of (callback (EvClutch b) self)) = cb_prop_q self) /\
  (forall (self : @Self K) (m X : RigidTransform),
      has_zeroed self = true -> T_w_mc self = Some m ->
      folded_baseline self = Ok X ->
      let s' := state_of (callback (EvClutch false) self) in
      T_mz_cu_t s' = Some X /\
      T_w_cu_t s' = Some (as_frames m (_clutch self "up") "world")) /\
  (forall (P : @Pose K) (self : Self),
      state_of (callback (EvPose P) self) =
      match cb_prop_q self with
      | [] => stored P self
      | d :: q => setattrs d (set_cb_prop_q q (stored P self))
      end) /\
  (forall (e : @event K) (self : Self),
      is_pose e = false ->
      has_zeroed (state_of (callback e self)) = has_zeroed self).
Proof.
  split; [|split; [|split; [|split]]].
  - intros Y m self Hm. cbn [callback]. unfold reset_init_poses.
    rewrite (@reset_eq K SK _ m self Hm). cbv zeta. repeat split.
  - intros b self. apply clutch_callback_queue.
  - intros self m X Hz Hm Hf. cbn [callback].
    rewrite (@clutch_up_eq K SK self Hz). cbv zeta. rewrite Hf, Hm.
    split; reflexivity.
  - intros P self. cbn [callback]. rewrite position_callback_state.
    reflexivity.
  - intros [P|b|Y] self H; try discriminate; cbn [callback].
    + apply clutch_callback_has_zeroed.
    + apply reset_has_zeroed.
Qed.

(** C6, as the code has it.  When the composition of the pose callback
    fails (on mismatched frame labels, with [FrameMismatch]) the exception
    leaves the callback: nothing catches it, nothing is logged about it and
    nothing is published for the sample.  The attributes are left as every
    sample leaves them, the pose stored and one queued dictionary applied,
    so the failure itself changes no state. *)
Theorem mismatch_propagates (P : @Pose K) (self : Self) (e : exn) :
  let s1 := drained (stored P self) in
  has_zeroed s1 = true -> clutch_state s1 = false ->
  target_pose s1 = Raise e ->
  callback (EvPose P) self = (s1, drain_log (stored P self), Raise e) /\
  published (drain_log (stored P self)) = [] /\
  forall Q : Pose, state_of (callback (EvPose Q) self) =
                   drained (stored Q self).
Proof.
  intros s1 Hz Hc He. split; [|split].
  - cbn [callback]. rewrite position_callback_eq. cbv zeta. fold s1.
    rewrite Hz, Hc, He. reflexivity.
  - apply published_drain_log.
  - intros Q. apply position_callback_state.
Qed.

End Claims.

(** ** The theorems at concrete inputs *)

Lemma relay_composition_witness :
  has_zeroed (drained (stored ex_M1 ex_zeroed)) = true /\
  clutch_state (drained (stored ex_M1 ex_zeroed)) = false /\
  chain_frames_ok (drained (stored ex_M1 ex_zeroed)) = true /\
  exists E,
    spec_target_pose (drained (stored ex_M1 ex_zeroed)) ex_M1 = Some E /\
    published (effects_of (_position_cartesian_current_callback ex_M1 ex_zeroed))
    = [E] /\
    result_of (_position_cartesian_current_callback ex_M1 ex_zeroed) = Ok tt.
Proof.
  split; [vm_compute; reflexivity|].
  split; [vm_compute; reflexivity|].
  split; [vm_compute; reflexivity|].
  apply (@relay_composition Z Scalar_Z ex_M1 ex_zeroed);
    vm_compute; reflexivity.
Defined.

Lemma clutch_up_folds_witness :
  exists mz_cu w_cu w_cd w_mc new,
    T_mz_cu_t ex_engaged = Some mz_cu /\ T_w_cu_t ex_engaged = Some w_cu /\
    T_w_cd_t1 ex_engaged = Some w_cd /\ T_w_mc ex_engaged = Some w_mc /\
    T_mz_cu_t (state_of (_clutch_callback false ex_engaged)) = Some new /\
    T_to_ros_pose new =
    pose_mul (pose_mul (T_to_ros_pose mz_cu) (pose_inv (T_to_ros_pose w_cu)))
             (T_to_ros_pose w_cd) /\
    from_frame new = "clutch_up_1".
Proof.
  do 4 eexists.
  destruct (proj1 (@clutch_up_folds Z Scalar_Z ex_engaged _ _ _ _
                     eq_refl eq_refl eq_refl eq_refl eq_refl)
                  (conj eq_refl (conj eq_refl eq_refl)))
    as (new & _ & H2 & H3 & _ & _ & H6 & _).
  exists new. repeat split; [exact H6 | exact H2 | exact H3].
Defined.

Lemma reset_before_first_pose_witness :
  T_w_mc (@init Z) = None /\
  result_of (_reset_init_poses (ros_pose_to_T ex_Y "yumi_init" "world") init) =
  Raise AttributeError /\
  cb_prop_q
    (state_of (_reset_init_poses (ros_pose_to_T ex_Y "yumi_init" "world") init)) =
  [HasZeroedDict false].
Proof.
  split; [reflexivity|].
  destruct (@reset_before_first_pose Z Scalar_Z
              (ros_pose_to_T ex_Y "yumi_init" "world") init eq_refl)
    as (H1 & _ & _ & H4 & _).
  split; [exact H1 | exact H4].
Defined.

Lemma clutch_absorption_witness :
  emissions
    (snd (run ([EvPose ex_M0; EvClutch true] ++ map EvPose [ex_M1; ex_M0]
                 ++ [EvPose ex_M1; EvClutch false; EvPose ex_M1]) ex_zeroed)) =
  [([ex_Y], Ok tt); ([], Ok tt); ([], Ok tt); ([], Ok tt);
   ([], Ok tt); ([], Ok tt); ([ex_Y], Ok tt)].
Proof.
  apply (@clutch_absorption Z Scalar_Z ex_zeroed ex_M0 ex_M1 ex_Y
           [ex_M1; ex_M0]).
  - exists [EvPose ex_M0; EvReset ex_Y; EvPose ex_M0; EvPose ex_M0;
            EvPose ex_M0].
    vm_compute. reflexivity.
  - reflexivity.
  - reflexivity.
  - split; vm_compute; reflexivity.
  - vm_compute. reflexivity.
Defined.

Lemma idempotent_rezero_witness :
  fst (run (map EvPose ([ex_M0; ex_M1] ++ [ex_M0])
              ++ [EvPose ex_M1; EvPose ex_M0; EvPose ex_M1])
           (fst (run [EvReset ex_M1] ex_zeroed))) =
  fst (run (map EvPose ([ex_M0; ex_M1] ++ [ex_M0])
              ++ [EvPose ex_M1; EvPose ex_M0; EvPose ex_M1])
           (fst (run [EvReset ex_M1; EvReset ex_M1] ex_zeroed))).
Proof.
  destruct (@idempotent_rezero Z Scalar_Z ex_zeroed ex_M1
              (ros_pose_to_T ex_M0 "masters_current" "world")
              [ex_M0; ex_M1] ex_M0 ex_M1 ex_M0 ex_M1 eq_refl eq_refl)
    as (_ & _ & _ & _ & H & _).
  exact H.
Defined.

Lemma concrete_scenario_witness :
  emissions
    (snd (run [EvReset pose_id; EvPose ex_M1; EvPose ex_M1; EvPose ex_M0;
               EvPose (pose_mul ex_M0 (translate_x 4%Z))]
              (fst (run [EvPose ex_M0] init)))) =
  [([], Ok tt); ([], Ok tt); ([], Ok tt);
   ([pose_id], Ok tt);
   ([mkPose eye (Vec3 4 0 0)%Z], Ok tt)].
Proof.
  apply (@concrete_scenario Z Scalar_Z (fst (run [EvPose ex_M0] init))
           ex_M0 ex_M1 ex_M1 4%Z);
    try (vm_compute; reflexivity).
  split; vm_compute; reflexivity.
Defined.

Lemma mismatch_propagates_witness :
  callback (EvPose ex_M0) ex_stale =
  (drained (stored ex_M0 ex_stale), drain_log (stored ex_M0 ex_stale),
   Raise FrameMismatch).
Proof.
  apply (@mismatch_propagates Z Scalar_Z ex_M0 ex_stale FrameMismatch);
    vm_compute; reflexivity.
Defined.

(** ** Where the spec and the code part *)

(** C3 as stated fails: a zeroed relay that is reset again and whose
    clutch is pressed and released before the next master pose, then
    pressed again three poses later, is zeroed and engaged with
    [T_mz_cu_t] labelled [clutch_up_1] and [T_w_cu_t] labelled
    [clutch_up_0]; the release raises [FrameMismatch] there, folds nothing
    and does not refresh [T_w_cu_t]. *)
Lemma clutch_up_law_fails :
  reachable ex_stale_engaged /\
  has_zeroed ex_stale_engaged = true /\
  clutch_state ex_stale_engaged = true /\
  callback (EvClutch false) ex_stale_engaged =
  (ex_stale_engaged, [Loginfo (LogClutchUp 2)], Raise FrameMismatch) /\
  ~ clutch_up_law ex_stale_engaged.
Proof.
  split.
  { exists [EvPose ex_M0; EvReset ex_Y; EvPose ex_M0; EvPose ex_M0;
            EvPose ex_M0; EvReset ex_Y; EvClutch true; EvClutch false;
            EvPose ex_M1; EvPose ex_M1; EvPose ex_M1; EvClutch true].
    vm_compute. reflexivity. }
  split; [reflexivity|]. split; [reflexivity|].
  split; [vm_compute; reflexivity|].
  unfold clutch_up_law. intros H.
  destruct (H eq_refl eq_refl _ _ _ _ eq_refl eq_refl eq_refl eq_refl)
    as [_ H2].
  vm_compute in H2. discriminate H2.
Qed.

(** C7 as stated fails: after the same three master poses, the fourth is
    forwarded by a relay that was reset once and dropped by one that was
    reset twice, which has set [has_zeroed] to [False] again. *)
Lemma rezero_idempotent_fails :
  emissions
    (snd (run [EvPose ex_M0]
              (fst (run (EvReset ex_Y :: map EvPose [ex_M0; ex_M0; ex_M0])
                        ex_zeroed)))) = [([ex_Y], Ok tt)] /\
  emissions
    (snd (run [EvPose ex_M0]
              (fst (run (EvReset ex_Y :: EvReset ex_Y
                           :: map EvPose [ex_M0; ex_M0; ex_M0])
                        ex_zeroed)))) = [([], Ok tt)] /\
  ~ rezero_idempotent ex_zeroed ex_Y [ex_M0; ex_M0; ex_M0] ex_M0.
Proof.
  split; [vm_compute; reflexivity|].
  split; [vm_compute; reflexivity|].
  unfold rezero_idempotent. intros H. vm_compute in H. discriminate H.
Qed.

(** C4 as stated fails: a reset writes the baseline in place (here the
    robot pose changes at once), a clutch-up writes in place and queues
    nothing, and a pose callback leaves two of three dictionaries queued. *)
Lemma queue_discipline_fails :
  ~ queue_discipline (EvReset ex_M1) ex_zeroed /\
  ~ queue_discipline (EvClutch false) ex_engaged /\
  ~ queue_discipline (EvPose ex_M0) ex_resetting.
Proof.
  split; [|split]; unfold queue_discipline; cbv zeta.
  - intros [H _]. vm_compute in H. discriminate H.
  - intros [H _]. vm_compute in H. discriminate H.
  - intros H. vm_compute in H. discriminate H.
Qed.

(** C6 as stated fails: in a state with a stale clutch-up pose the pose
    callback ends by raising [FrameMismatch], and it has logged nothing. *)
Lemma mismatch_not_handled :
  callback (EvPose ex_M0) ex_stale =
  (stored ex_M0 ex_stale, [], Raise FrameMismatch) /\
  ~ mismatch_handled ex_M0 ex_stale.
Proof.
  split; [vm_compute; reflexivity|].
  unfold mismatch_handled. cbv zeta. intros [H _].
  vm_compute in H. discriminate H.
Qed.

(** ** More algebra of poses *)

Section MoreAlgebra.

Context {K : Type} {SK : Scalar K}.

Add Ring scalar_ring_more : (@scalar_ring K SK).

Local Open Scope scalar_scope.

Ltac pose_ring :=
  intros;
  repeat match goal with
         | a : mat3 |- _ => destruct a
         | v : vec3 |- _ => destruct v
         | p : Pose |- _ => destruct p
         end;
  cbv [pose_mul pose_inv pose_id pose_rot translate_x zeroed_target
       mat_mul mat_vec transpose mat_opp vec_add vec_sub eye zeros
       orientation position
       m00 m01 m02 m10 m11 m12 m20 m21 m22 vx vy vz];
  f_equal; try (f_equal; ring); ring.

Lemma pose_mul_inv_expand (a d : @Pose K) :
  pose_mul a (pose_mul (pose_inv a) d) =
  mkPose (mat_mul (mat_mul (orientation a) (transpose (orientation a)))
                  (orientation d))
         (vec_add (position a)
                  (mat_vec (mat_mul (orientation a) (transpose (orientation a)))
                           (vec_sub (position d) (position a)))).
Proof. pose_ring. Qed.

Lemma vec_add_sub (u v : @vec3 K) : vec_add u (vec_sub v u) = v.
Proof. pose_ring. Qed.

Lemma pose_cancel_r (a d : @Pose K) :
  mat_mul (orientation a) (transpose (orientation a)) = eye ->
  pose_mul a (pose_mul (pose_inv a) d) = d.
Proof.
  intros H. rewrite pose_mul_inv_expand, H, mat_mul_eye_l, mat_vec_eye.
  rewrite vec_add_sub. destruct d; reflexivity.
Qed.

Lemma pose_rot_inv_expand (r : @mat3 K) (m p : Pose) :
  pose_mul (pose_rot r) (pose_mul (pose_inv m) p) =
  mkPose (mat_mul (mat_mul r (transpose (orientation m))) (orientation p))
         (mat_vec (mat_mul r (transpose (orientation m)))
                  (vec_sub (position p) (position m))).
Proof. pose_ring. Qed.

Lemma pose_mul_rot_r (r s : @mat3 K) (v : vec3) :
  pose_mul (mkPose r v) (pose_rot s) = mkPose (mat_mul r s) v.
Proof. pose_ring. Qed.

Lemma pose_rot_conj_any (a b r : @mat3 K) (v : vec3) :
  pose_mul (pose_mul (pose_rot a) (mkPose r v)) (pose_rot b) =
  mkPose (mat_mul (mat_mul a r) b) (mat_vec a v).
Proof. pose_ring. Qed.

Lemma robot_chain_expand (y : @Pose K) (r : mat3) (v : vec3) :
  pose_mul (pose_mul (pose_mul y (pose_rot (transpose (orientation y))))
                     (mkPose r v))
           (pose_rot (orientation y)) =
  mkPose (mat_mul (mat_mul (mat_mul (orientation y) (transpose (orientation y)))
                           r)
                  (orientation y))
         (vec_add (position y)
                  (mat_vec (mat_mul (orientation y) (transpose (orientation y)))
                           v)).
Proof. pose_ring. Qed.

Lemma vec_sub_diag (v : @vec3 K) : vec_sub v v = zeros.
Proof. pose_ring. Qed.

(** The master at its zero pose corresponds to the robot pose of the
    zero. *)
Lemma zeroed_target_zero (M0 Y : @Pose K) :
  mat_mul (orientation M0) (transpose (orientation M0)) = eye ->
  zeroed_target M0 Y M0 = Y.
Proof.
  intros H. unfold zeroed_target.
  rewrite H, mat_mul_eye_r, calibration_inverse, mat_mul_eye_l.
  rewrite vec_sub_diag, mat_vec_zeros, vec_add_zeros_r.
  destruct Y; reflexivity.
Qed.


End MoreAlgebra.

(** ** More of the relay: the clutch as a change of reference *)

Section ClutchLaw.

Context {K : Type} {SK : Scalar K}.

(** Folding the snapshot [Pa] and releasing at [Pb] makes a later pose [Q]
    compose to what [Pa * inverse(Pb) * Q] composed to. *)
Lemma fold_relative (mz_cu w_cu T : @RigidTransform K) (Pa Pb Q : Pose)
    (cu cd : string) :
  let sa := ros_pose_to_T Pa "masters_current" "world" in
  let sb := ros_pose_to_T Pb "masters_current" "world" in
  let sq := ros_pose_to_T Q "masters_current" "world" in
  let sx := ros_pose_to_T (pose_mul Pa (pose_mul (pose_inv Pb) Q))
                          "masters_current" "world" in
  res_bind (rt_mul mz_cu (inverse w_cu)) (fun x => rt_mul x sx) = Ok T ->
  exists X,
    res_bind (res_bind (rt_mul mz_cu (inverse w_cu))
                       (fun x => rt_mul x (as_frames sa cd "world")))
             (fun x => rt_mul x (RigidTransform_frames cu cd)) = Ok X /\
    res_bind (rt_mul X (inverse (as_frames sb cu "world")))
             (fun x => rt_mul x sq) = Ok T.
Proof.
  intros sa sb sq sx H.
  destruct (rt_mul mz_cu (inverse w_cu)) as [x1|] eqn:E; [|discriminate].
  cbn [res_bind] in *.
  apply rt_mul_ok in E as (A1 & A2 & A3 & A4).
  apply rt_mul_ok in H as (B1 & B2 & B3 & B4).
  destruct (rt_mul_defined x1 (as_frames sa cd "world"))
    as (y2 & E2 & F2 & T2 & P2); [rewrite <- B1; reflexivity|].
  destruct (rt_mul_defined y2 (RigidTransform_frames cu cd))
    as (y3 & E3 & F3 & T3 & P3); [rewrite F2; reflexivity|].
  destruct (rt_mul_defined y3 (inverse (as_frames sb cu "world")))
    as (y4 & E4 & F4 & T4 & P4); [rewrite F3; reflexivity|].
  destruct (rt_mul_defined y4 sq) as (y5 & E5 & F5 & T5 & P5);
    [rewrite F4; reflexivity|].
  exists y3. rewrite E2. cbn [res_bind].
  split; [exact E3|]. rewrite E4. cbn [res_bind]. rewrite E5.
  f_equal. apply RigidTransform_ext.
  - rewrite P5, P4, P3, P2, B4.
    rewrite T_to_ros_pose_inverse, !T_to_ros_pose_as_frames.
    change (T_to_ros_pose (RigidTransform_frames cu cd)) with (@pose_id K SK).
    subst sa sb sq sx. rewrite !T_to_ros_pose_ros_pose_to_T.
    rewrite pose_mul_id_r, !pose_mul_assoc. reflexivity.
  - rewrite F5, B2. reflexivity.
  - rewrite T5, T4, T3, T2, B3. reflexivity.
Qed.

(** A clutch cycle in a zeroed relay with nothing queued. *)
Lemma clutch_cycle_law (self : @Self K) (Pa Pb Q E : Pose)
    (mid : list Pose) :
  reachable self -> has_zeroed self = true -> clutch_state self = false ->
  published
    (effects_of (_position_cartesian_current_callback
                   (pose_mul Pa (pose_mul (pose_inv Pb) Q)) self)) = [E] ->
  emissions
    (snd (run [EvPose Q]
              (fst (run ([EvPose Pa; EvClutch true] ++ map EvPose mid
                           ++ [EvPose Pb; EvClutch false]) self)))) =
  [([E], Ok tt)].
Proof.
  intros R Hz Hc He.
  pose proof (@reachable_forwarding_queue K SK _ E self R Hz He) as Hq.
  set (X := pose_mul Pa (pose_mul (pose_inv Pb) Q)) in *.
  rewrite position_callback_forwarding in He by assumption.
  destruct (target_pose (stored X self)) as [Tx|e] eqn:HTx; [|discriminate].
  unfold effects_of in He; simpl in He. apply (f_equal (@hd_error _)) in He.
  simpl in He. apply Some_inj in He.
  (* the states of the run *)
  set (s1 := stored Pa self).
  assert (C1 : state_of (callback (EvPose Pa) self) = s1).
  { cbn [callback]. rewrite position_callback_state.
    apply drained_nil. exact Hq. }
  set (cd := clutch_label "down" (_clutch_i s1 + 1)).
  set (s2 := set_clutch_state true
               (set_T_w_cd_t1
                  (Some (as_frames (ros_pose_to_T Pa "masters_current" "world")
                                   cd "world"))
                  (set_clutch_i (_clutch_i s1 + 1) s1))).
  assert (C2 : callback (EvClutch true) s1 =
               (s2, [Loginfo (LogClutchDown (_clutch_i s1 + 1))], Ok tt)).
  { cbn [callback]. rewrite (@clutch_down_eq K SK s1 Hz). reflexivity. }
  set (s3 := stored Pb s2).
  (* the composition before the press *)
  rewrite target_pose_split in HTx.
  destruct (master_delta (stored X self)) as [Tmz|] eqn:Hmd; [|discriminate].
  cbn [res_bind] in HTx.
  pose proof Hmd as Hmd'. apply master_delta_ok in Hmd'
    as (mz_cu & w_cu & w_mc & Hmz & Hwcu & _).
  unfold master_delta in Hmd. rewrite Hmz, Hwcu in Hmd.
  cbn [py_getattr py_mul res_bind] in Hmd.
  change (T_w_mc (stored X self))
    with (Some (ros_pose_to_T X "masters_current" "world")) in Hmd.
  destruct (rt_mul mz_cu (inverse w_cu)) as [x|] eqn:Hx; [|discriminate].
  cbn [res_bind py_mul] in Hmd.
  change (T_w_cu_t (stored X self)) with (T_w_cu_t self) in Hwcu.
  change (T_mz_cu_t (stored X self)) with (T_mz_cu_t self) in Hmz.
  destruct (@fold_relative mz_cu w_cu Tmz Pa Pb Q
              (clutch_label "up" (_clutch_i s3)) cd) as (F & HF & HT).
  { rewrite Hx. exact Hmd. }
  assert (Hfb : folded_baseline s3 = Ok F).
  { unfold folded_baseline.
    change (T_w_cu_t s3) with (T_w_cu_t self).
    change (T_mz_cu_t s3) with (T_mz_cu_t self).
    rewrite Hwcu, Hmz. cbn [py_getattr py_mul res_bind].
    rewrite Hx in HF |- *. cbn [res_bind] in HF |- *.
    change (T_w_cd_t1 s3)
      with (Some (as_frames (ros_pose_to_T Pa "masters_current" "world")
                            cd "world")).
    cbn [py_mul]. exact HF. }
  set (s4 := set_clutch_state false
               (set_T_w_cu_t
                  (Some (as_frames (ros_pose_to_T Pb "masters_current" "world")
                                   (_clutch s3 "up") "world"))
                  (set_T_mz_cu_t (Some F) s3))).
  assert (C4 : callback (EvClutch false) s3 =
               (s4, [Loginfo (LogClutchUp (_clutch_i s3))], Ok tt)).
  { cbn [callback]. rewrite (@clutch_up_eq K SK s3 Hz). cbv zeta.
    rewrite Hfb. reflexivity. }
  (* the run up to the release *)
  assert (S4 : fst (run ([EvPose Pa; EvClutch true] ++ map EvPose mid
                           ++ [EvPose Pb; EvClutch false]) self) = s4).
  { cbn [app]. rewrite run_cons. cbn [fst]. rewrite C1.
    rewrite (@run_fst_step _ _ _ _ _ _ _ _ C2).
    replace (map EvPose mid ++ [EvPose Pb; EvClutch false])
      with ((map EvPose mid ++ [EvPose Pb]) ++ [EvClutch false])
      by (now rewrite <- app_assoc).
    rewrite run_fst_app, (@run_engaged K SK mid Pb s2 Hz eq_refl Hq).
    cbn [fst]. fold s3. rewrite (@run_fst_step _ _ _ _ _ _ _ _ C4).
    reflexivity. }
  rewrite S4.
  (* the pose after the release *)
  assert (HT5 : target_pose (stored Q s4) = Ok Tx).
  { rewrite target_pose_split.
    assert (Hd5 : master_delta (stored Q s4) = Ok Tmz).
    { unfold master_delta. exact HT. }
    rewrite Hd5. cbn [res_bind]. rewrite <- HTx.
    apply robot_target_ext; reflexivity. }
  assert (C5 : callback (EvPose Q) s4 =
               (stored Q s4, [Publish (T_to_ros_pose Tx)], Ok tt)).
  { cbn [callback].
    rewrite (@position_callback_forwarding K SK Q s4 Hz eq_refl Hq).
    rewrite HT5. reflexivity. }
  rewrite (@run_snd_step _ _ _ _ _ _ _ _ C5).
  unfold emissions. cbn [map published fst snd run]. rewrite He. reflexivity.
Qed.


(** X1 (the clutch changes the reference).  In a reachable zeroed state
    with the clutch released, press the clutch with the master at [Pa],
    move it through any poses to [Pb] and release.  A master pose [Q]
    received then is published as the pose that
    [Pa * inverse(Pb) * Q] was published as before the press: the robot
    follows the motion of the master relative to where it was released. *)
Theorem clutch_relative_motion (self : @Self K) (Pa Pb Q E : Pose)
    (mid : list Pose) :
  reachable self -> has_zeroed self = true -> clutch_state self = false ->
  published
    (effects_of (_position_cartesian_current_callback
                   (pose_mul Pa (pose_mul (pose_inv Pb) Q)) self)) = [E] ->
  emissions
    (snd (run [EvPose Q]
              (fst (run ([EvPose Pa; EvClutch true] ++ map EvPose mid
                           ++ [EvPose Pb; EvClutch false]) self)))) =
  [([E], Ok tt)].
Proof. apply clutch_cycle_law. Qed.

(** X2 (clutch transparency).  In a reachable zeroed state with the clutch
    released, pressing the clutch with the master at [P] (an orientation
    that is a rotation) and releasing it with the master back at [P],
    whatever it did in between, changes nothing for the poses that follow:
    a pose [Q] is published as it was before the press. *)
Theorem clutch_transparency (self : @Self K) (P Q E : Pose) (mid : list Pose) :
  reachable self -> has_zeroed self = true -> clutch_state self = false ->
  orthogonal (orientation P) ->
  published (effects_of (_position_cartesian_current_callback Q self)) = [E] ->
  emissions
    (snd (run [EvPose Q]
              (fst (run ([EvPose P; EvClutch true] ++ map EvPose mid
                           ++ [EvPose P; EvClutch false]) self)))) =
  [([E], Ok tt)].
Proof.
  intros R Hz Hc [_ Ho] He. apply clutch_cycle_law; auto.
  rewrite (pose_cancel_r P Q Ho). exact He.
Qed.

End ClutchLaw.

(** ** More of the relay: what a zeroed relay publishes *)

Section ZeroedForm.

Context {K : Type} {SK : Scalar K}.

Lemma spec_target_pose_zeroed_any (self : @Self K) (M0 Y P : Pose) (i : nat) :
  T_mz_cu_t self =
  Some (RigidTransform_frames (clutch_label "up" i) "masters_zero") ->
  baseline_of self =
  zero_baseline i (ros_pose_to_T M0 "masters_current" "world")
                  (ros_pose_to_T Y "yumi_init" "world") ->
  mat_mul (orientation M0) (transpose (orientation M0)) = eye ->
  mat_mul (orientation Y) (transpose (orientation Y)) = eye ->
  spec_target_pose self P = Some (zeroed_target M0 Y P).
Proof.
  intros Hmz Hb Ho Hy. unfold baseline_of, zero_baseline in Hb. cbv zeta in Hb.
  injection Hb as H1 H2 H3 H4 H5 H6.
  unfold spec_target_pose. rewrite Hmz, H1, H2, H3, H4, H5, H6. cbv zeta.
  f_equal.
  change (T_to_ros_pose (RigidTransform_frames (clutch_label "up" i)
                                               "masters_zero"))
    with (@pose_id K SK).
  change (T_to_ros_pose (as_frames (ros_pose_to_T M0 "masters_current" "world")
                                   (clutch_label "up" i) "world"))
    with (mkPose (orientation M0) (position M0)).
  replace (mkPose (orientation M0) (position M0)) with M0
    by (destruct M0; reflexivity).
  repeat match goal with
         | |- context [T_to_ros_pose (RigidTransform_rotation ?r ?f ?t)] =>
             change (T_to_ros_pose (RigidTransform_rotation r f t))
               with (pose_rot r)
         end.
  change (@T_to_ros_pose K _T_YIR_MI) with (pose_rot (rotation (@_T_YIR_MI K SK))).
  change (@T_to_ros_pose K _T_MC_YCR) with (pose_rot (rotation (@_T_MC_YCR K SK))).
  rewrite T_to_ros_pose_ros_pose_to_T.
  rewrite pose_mul_id_l, pose_rot_inv_expand, Ho, mat_mul_eye_l, mat_vec_eye.
  rewrite pose_mul_rot_r, pose_rot_conj_any.
  change (rotation (inverse (ros_pose_to_T Y "yumi_init" "world")))
    with (transpose (orientation Y)).
  change (rotation (ros_pose_to_T Y "yumi_init" "world")) with (orientation Y).
  rewrite robot_chain_expand, Hy, mat_mul_eye_l, mat_vec_eye.
  reflexivity.
Qed.

(** What a settled relay forwards, sample after sample, as long as no
    clutch or reset event arrives. *)
Lemma run_forwarding (M0 Y : @Pose K) (i : nat) (ps : list Pose) :
  mat_mul (orientation M0) (transpose (orientation M0)) = eye ->
  mat_mul (orientation Y) (transpose (orientation Y)) = eye ->
  forall self : @Self K,
    has_zeroed self = true -> clutch_state self = false ->
    cb_prop_q self = [] ->
    T_mz_cu_t self =
    Some (RigidTransform_frames (clutch_label "up" i) "masters_zero") ->
    baseline_of self =
    zero_baseline i (ros_pose_to_T M0 "masters_current" "world")
                    (ros_pose_to_T Y "yumi_init" "world") ->
    emissions (snd (run (map EvPose ps) self)) =
    map (fun P => ([zeroed_target M0 Y P], Ok tt)) ps.
Proof.
  intros Ho Hy. induction ps as [|P ps IH]; intros self Hz Hc Hq Hmz Hb;
    [reflexivity|].
  assert (Hmz' : T_mz_cu_t (stored P self) =
                 Some (RigidTransform_frames (clutch_label "up" i)
                                             "masters_zero"))
    by (rewrite T_mz_cu_t_stored; exact Hmz).
  assert (Hb' : baseline_of (stored P self) =
                zero_baseline i (ros_pose_to_T M0 "masters_current" "world")
                                (ros_pose_to_T Y "yumi_init" "world"))
    by (rewrite baseline_of_stored; exact Hb).
  destruct (@target_pose_defined K SK (stored P self) P (T_w_mc_stored P self))
    as (T & HT & HS & _).
  { exact (@zeroed_chain_frames_ok K SK (stored P self) _ _ i Hmz' Hb'
             eq_refl). }
  rewrite (@spec_target_pose_zeroed_any (stored P self) M0 Y P i
             Hmz' Hb' Ho Hy) in HS.
  apply Some_inj in HS.
  assert (C : callback (EvPose P) self =
              (stored P self, [Publish (zeroed_target M0 Y P)], Ok tt)).
  { cbn [callback].
    rewrite (@position_callback_forwarding K SK P self Hz Hc Hq).
    rewrite HT, <- HS. reflexivity. }
  cbn [map]. rewrite (@run_snd_step _ _ _ _ _ _ _ _ C).
  unfold emissions in *. cbn [map published fst snd].
  rewrite (IH (stored P self) Hz Hc Hq Hmz' Hb'). reflexivity.
Qed.

(** X3 (what a zeroed relay publishes).  Reset a relay whose last-known
    master pose is [M0], with the clutch released and nothing queued, with
    the robot at [Y]; both orientations are rotations.  After the two pose
    callbacks that only apply queued dictionaries, every master pose [P] is
    published as [zeroed_target M0 Y P]: orientation
    [A * (R_P * R_M0^T) * B * R_Y] and position [t_Y + A * (t_P - t_M0)],
    with [A], [B] the rotations of [_T_YIR_MI], [_T_MC_YCR].  In particular
    the master at [M0] maps to the robot at [Y]. *)
Theorem zeroed_closed_form (self : @Self K) (M0 Y D1 D2 P : Pose)
    (ps : list Pose) :
  T_w_mc self = Some (ros_pose_to_T M0 "masters_current" "world") ->
  cb_prop_q self = [] -> clutch_state self = false ->
  orthogonal (orientation M0) -> orthogonal (orientation Y) ->
  emissions
    (snd (run (EvReset Y :: EvPose D1 :: EvPose D2 :: EvPose P
                 :: map EvPose ps) self)) =
  [([], Ok tt); ([], Ok tt); ([], Ok tt)]
    ++ map (fun Q => ([zeroed_target M0 Y Q], Ok tt)) (P :: ps) /\
  zeroed_target M0 Y M0 = Y.
Proof.
  intros Hm Hq Hc [_ Ho] [_ Hy]. split; [|exact (@zeroed_target_zero K SK M0 Y Ho)].
  set (m := ros_pose_to_T M0 "masters_current" "world") in *.
  set (Yt := ros_pose_to_T Y "yumi_init" "world").
  set (s1 := reset_state m Yt self).
  set (d := zero_baseline (_clutch_i self) m Yt).
  set (s4 := settled d P s1).
  assert (C1 : callback (EvReset Y) self =
               (s1, [Loginfo LogResetInitPose;
                     Loginfo (LogReceivedYumiPose (translation Yt));
                     Loginfo LogDoneInitPose], Ok tt)).
  { cbn [callback]. unfold reset_init_poses. fold Yt.
    rewrite (@reset_eq K SK Yt m self Hm). reflexivity. }
  assert (Hq1 : cb_prop_q s1 = [HasZeroedDict false; d; HasZeroedDict true]).
  { unfold s1. rewrite reset_state_queue, Hq. reflexivity. }
  pose proof (@run_zeroing K SK _ _ _ _ _ _ D1 D2 P s1 Hq1) as R.
  change (run [EvPose D1; EvPose D2; EvPose P] s1 =
          (s4, [([Loginfo (LogSettingZero false)], Ok tt); ([], Ok tt);
                forward_outcome [Loginfo (LogSettingZero true)] s4])) in R.
  assert (Hz4 : has_zeroed s4 = true) by reflexivity.
  assert (Hc4 : clutch_state s4 = false) by exact Hc.
  assert (Hq4 : cb_prop_q s4 = []) by reflexivity.
  assert (Hmz4 : T_mz_cu_t s4 =
                 Some (RigidTransform_frames
                         (clutch_label "up" (_clutch_i self)) "masters_zero"))
    by reflexivity.
  assert (Hb4 : baseline_of s4 = d) by reflexivity.
  assert (HT4 : exists T, target_pose s4 = Ok T /\
                          T_to_ros_pose T = zeroed_target M0 Y P).
  { destruct (@target_pose_defined K SK s4 P eq_refl) as (T & HT & HS & _).
    { exact (@zeroed_chain_frames_ok K SK s4 m Yt (_clutch_i self) Hmz4 Hb4
               eq_refl). }
    exists T. split; [exact HT|].
    rewrite (@spec_target_pose_zeroed_any s4 M0 Y P (_clutch_i self)
               Hmz4 Hb4 Ho Hy) in HS.
    apply Some_inj in HS. now symmetry. }
  destruct HT4 as (T4 & HT4 & HP4).
  assert (F4 : forward_outcome [Loginfo (LogSettingZero true)] s4 =
               ([Loginfo (LogSettingZero true);
                 Publish (zeroed_target M0 Y P)], Ok tt)).
  { unfold forward_outcome. rewrite Hz4, Hc4, HT4, HP4. reflexivity. }
  rewrite F4 in R.
  change (EvReset Y :: EvPose D1 :: EvPose D2 :: EvPose P :: map EvPose ps)
    with ([EvReset Y] ++ [EvPose D1; EvPose D2; EvPose P] ++ map EvPose ps).
  rewrite !run_snd_app.
  rewrite (@run_snd_step _ _ _ _ _ _ _ _ C1), (@run_fst_step _ _ _ _ _ _ _ _ C1).
  change (fst (run [] s1)) with s1. rewrite R. cbn [fst snd].
  pose proof (@run_forwarding M0 Y (_clutch_i self) ps Ho Hy s4 Hz4 Hc4 Hq4
                Hmz4 Hb4) as RF.
  unfold emissions, outcome in *. rewrite !map_app, RF.
  reflexivity.
Qed.

End ZeroedForm.

(** ** More of the relay: a reset in progress *)

Section ResetInProgress.

Context {K : Type} {SK : Scalar K}.

(** The three states a relay goes through after a reset that found
    nothing queued, with what each pose callback did. *)
Lemma reset_steps (self : @Self K) (m : RigidTransform) (Y D1 D2 D3 : Pose) :
  T_w_mc self = Some m -> cb_prop_q self = [] ->
  let Yt := ros_pose_to_T Y "yumi_init" "world" in
  let d := zero_baseline (_clutch_i self) m Yt in
  let s0 := reset_state m Yt self in
  let s1 := setattrs (HasZeroedDict false)
              (set_cb_prop_q [d; HasZeroedDict true] (stored D1 s0)) in
  let s2 := setattrs d (set_cb_prop_q [HasZeroedDict true] (stored D2 s1)) in
  callback (EvReset Y) self =
  (s0, [Loginfo LogResetInitPose;
        Loginfo (LogReceivedYumiPose (translation Yt));
        Loginfo LogDoneInitPose], Ok tt) /\
  callback (EvPose D1) s0 = (s1, [Loginfo (LogSettingZero false)], Ok tt) /\
  callback (EvPose D2) s1 = (s2, [], Ok tt) /\
  state_of (callback (EvPose D3) s2) = settled d D3 s0.
Proof.
  intros Hm Hq Yt d s0 s1 s2.
  assert (Hq0 : cb_prop_q s0 = [HasZeroedDict false; d; HasZeroedDict true]).
  { unfold s0. rewrite reset_state_queue, Hq. reflexivity. }
  split; [|split; [|split]].
  - cbn [callback]. unfold reset_init_poses. fold Yt.
    rewrite (@reset_eq K SK Yt m self Hm). reflexivity.
  - rewrite position_callback_outcome.
    destruct (@drained_cons _ _ _ (stored D1 s0) Hq0) as [-> ->].
    fold s1. rewrite forward_outcome_not_zeroed; reflexivity.
  - rewrite position_callback_outcome.
    assert (Hq1 : cb_prop_q (stored D2 s1) = [d; HasZeroedDict true])
      by reflexivity.
    destruct (@drained_cons _ _ _ (stored D2 s1) Hq1) as [-> ->].
    fold s2. rewrite forward_outcome_not_zeroed; reflexivity.
  - cbn [callback]. rewrite position_callback_state.
    assert (Hq2 : cb_prop_q (stored D3 s2) = [HasZeroedDict true])
      by reflexivity.
    destruct (@drained_cons _ _ _ (stored D3 s2) Hq2) as [-> _].
    unfold settled, s2, s1, d, stored. destruct self. reflexivity.
Qed.

(** X4 (a reset takes three samples).  A reset of a relay with nothing
    queued returns at once, but its effect waits for the pose callbacks:
    the first applies [has_zeroed = False], the second the baseline, the
    third [has_zeroed = True].  So the reset and the two samples after it
    publish nothing, even in a relay that was zeroed and forwarding, the
    clutch events that arrive after the first and before the third sample
    are dropped, and [has_zeroed] holds again after the third. *)
Theorem reset_latency (self : @Self K) (m : RigidTransform)
    (Y D1 D2 D3 : Pose) (b : bool) :
  T_w_mc self = Some m -> cb_prop_q self = [] ->
  let s1 := fst (run [EvReset Y; EvPose D1] self) in
  let s2 := fst (run [EvReset Y; EvPose D1; EvPose D2] self) in
  let s3 := fst (run [EvReset Y; EvPose D1; EvPose D2; EvPose D3] self) in
  emissions (snd (run [EvReset Y; EvPose D1; EvPose D2] self)) =
  [([], Ok tt); ([], Ok tt); ([], Ok tt)] /\
  has_zeroed s1 = false /\ has_zeroed s2 = false /\ has_zeroed s3 = true /\
  callback (EvClutch b) s1 = (s1, [], Ok tt) /\
  callback (EvClutch b) s2 = (s2, [], Ok tt).
Proof.
  intros Hm Hq.
  destruct (@reset_steps self m Y D1 D2 D3 Hm Hq) as (C0 & C1 & C2 & C3).
  cbv zeta in C0, C1, C2, C3.
  set (Yt := ros_pose_to_T Y "yumi_init" "world") in *.
  set (d := zero_baseline (_clutch_i self) m Yt) in *.
  set (s0 := reset_state m Yt self) in *.
  set (t1 := setattrs (HasZeroedDict false) _) in *.
  set (t2 := setattrs d _) in *.
  intros s1 s2 s3.
  assert (E1 : s1 = t1).
  { unfold s1. rewrite (@run_fst_step _ _ _ _ _ _ _ _ C0),
      (@run_fst_step _ _ _ _ _ _ _ _ C1). reflexivity. }
  assert (E2 : s2 = t2).
  { unfold s2. rewrite (@run_fst_step _ _ _ _ _ _ _ _ C0),
      (@run_fst_step _ _ _ _ _ _ _ _ C1), (@run_fst_step _ _ _ _ _ _ _ _ C2).
    reflexivity. }
  assert (E3 : s3 = settled d D3 s0).
  { unfold s3. rewrite (@run_fst_step _ _ _ _ _ _ _ _ C0),
      (@run_fst_step _ _ _ _ _ _ _ _ C1), (@run_fst_step _ _ _ _ _ _ _ _ C2).
    rewrite run_cons. cbn [fst run]. exact C3. }
  rewrite E1, E2, E3.
  split.
  { rewrite (@run_snd_step _ _ _ _ _ _ _ _ C0),
      (@run_snd_step _ _ _ _ _ _ _ _ C1), (@run_snd_step _ _ _ _ _ _ _ _ C2).
    reflexivity. }
  split; [reflexivity|]. split; [reflexivity|]. split; [reflexivity|].
  split; cbn [callback]; apply clutch_callback_not_zeroed; reflexivity.
Qed.

End ResetInProgress.

(** ** More of the relay: a reset overtaken by the clutch *)

Section StaleBaseline.

Context {K : Type} {SK : Scalar K}.

(** Clutch-up transforms of two epochs do not compose. *)
Lemma stale_master_delta (self : @Self K) (mz_cu w_cu : RigidTransform)
    (i j : nat) :
  T_mz_cu_t self = Some mz_cu -> T_w_cu_t self = Some w_cu ->
  from_frame mz_cu = clutch_label "up" j ->
  from_frame w_cu = clutch_label "up" i -> i <> j ->
  target_pose self = Raise FrameMismatch /\
  folded_baseline self = Raise FrameMismatch.
Proof.
  intros Hmz Hw Fj Fi N.
  assert (E : rt_mul mz_cu (inverse w_cu) = Raise FrameMismatch).
  { apply rt_mul_mismatch. simpl. rewrite Fi, Fj. intros E.
    apply clutch_label_inj in E as [_ E]; unfold is_clutch_state; auto. }
  unfold target_pose, folded_baseline. rewrite Hmz, Hw.
  cbn [py_getattr py_mul res_bind]. rewrite E. split; reflexivity.
Qed.

(** The attributes after one step, read off without unfolding the state. *)
Lemma cb_prop_q_stored (P : @Pose K) (self : Self) :
  cb_prop_q (stored P self) = cb_prop_q self.
Proof. reflexivity. Qed.

Lemma T_w_cu_t_stored (P : @Pose K) (self : Self) :
  T_w_cu_t (stored P self) = T_w_cu_t self.
Proof. reflexivity. Qed.

Lemma has_zeroed_set_has_zeroed (v : bool) (self : @Self K) :
  has_zeroed (set_has_zeroed v self) = v.
Proof. reflexivity. Qed.

Lemma T_mz_cu_t_set_has_zeroed (v : bool) (self : @Self K) :
  T_mz_cu_t (set_has_zeroed v self) = T_mz_cu_t self.
Proof. reflexivity. Qed.

Lemma T_w_cu_t_set_has_zeroed (v : bool) (self : @Self K) :
  T_w_cu_t (set_has_zeroed v self) = T_w_cu_t self.
Proof. reflexivity. Qed.

Lemma T_mz_cu_t_set_cb_prop_q (q : list (@cb_dict K)) (self : Self) :
  T_mz_cu_t (set_cb_prop_q q self) = T_mz_cu_t self.
Proof. reflexivity. Qed.

Lemma T_w_cu_t_set_cb_prop_q (q : list (@cb_dict K)) (self : Self) :
  T_w_cu_t (set_cb_prop_q q self) = T_w_cu_t self.
Proof. reflexivity. Qed.

(** A reset that returns, by what it leaves. *)
Lemma reset_steps_state (self : @Self K) (m Yt : RigidTransform) :
  T_w_mc self = Some m -> cb_prop_q self = [] ->
  exists s0,
    _reset_init_poses Yt self =
    (s0, [Loginfo LogResetInitPose;
          Loginfo (LogReceivedYumiPose (translation Yt));
          Loginfo LogDoneInitPose], Ok tt) /\
    has_zeroed s0 = has_zeroed self /\ T_w_mc s0 = Some m /\
    _clutch_i s0 = _clutch_i self /\
    T_mz_cu_t s0 =
    Some (RigidTransform_frames (clutch_label "up" (_clutch_i self))
                                "masters_zero") /\
    T_w_cu_t s0 =
    Some (as_frames m (clutch_label "up" (_clutch_i self)) "world") /\
    cb_prop_q s0 =
    [HasZeroedDict false; zero_baseline (_clutch_i self) m Yt;
     HasZeroedDict true].
Proof.
  intros Hm Hq. exists (reset_state m Yt self).
  split; [apply (@reset_eq K SK Yt m self Hm)|].
  split; [reflexivity|]. split; [exact Hm|]. split; [reflexivity|].
  split; [reflexivity|]. split; [reflexivity|].
  rewrite reset_state_queue, Hq. reflexivity.
Qed.

(** A press of the clutch in a zeroed relay, by what it leaves. *)
Lemma clutch_down_state (self : @Self K) (m : RigidTransform) :
  has_zeroed self = true -> T_w_mc self = Some m ->
  exists sd,
    callback (EvClutch true) self =
    (sd, [Loginfo (LogClutchDown (_clutch_i self + 1))], Ok tt) /\
    has_zeroed sd = true /\ T_w_mc sd = Some m /\
    _clutch_i sd = _clutch_i self + 1 /\
    T_mz_cu_t sd = T_mz_cu_t self /\ T_w_cu_t sd = T_w_cu_t self /\
    T_w_cd_t1 sd =
    Some (as_frames m (clutch_label "down" (_clutch_i self + 1)) "world") /\
    cb_prop_q sd = cb_prop_q self.
Proof.
  intros Hz Hm. eexists. split.
  { cbn [callback]. rewrite (@clutch_down_eq K SK self Hz). cbv zeta.
    rewrite Hm. reflexivity. }
  repeat split; assumption.
Qed.

(** A release of the clutch whose fold succeeds, by what it leaves. *)
Lemma clutch_up_state (self : @Self K) (m F : RigidTransform) :
  has_zeroed self = true -> T_w_mc self = Some m ->
  folded_baseline self = Ok F ->
  exists su,
    callback (EvClutch false) self =
    (su, [Loginfo (LogClutchUp (_clutch_i self))], Ok tt) /\
    has_zeroed su = true /\ clutch_state su = false /\
    T_mz_cu_t su = Some F /\
    T_w_cu_t su = Some (as_frames m (_clutch self "up") "world") /\
    cb_prop_q su = cb_prop_q self.
Proof.
  intros Hz Hm Hf. eexists. split.
  { cbn [callback]. rewrite (@clutch_up_eq K SK self Hz). cbv zeta.
    rewrite Hf, Hm. reflexivity. }
  repeat split; assumption.
Qed.

(** The two pose callbacks that apply [has_zeroed = False] and the
    baseline [d] of a reset, by what they leave. *)
Lemma drain_two (self : @Self K) (d : cb_dict) (D1 D2 : Pose) :
  cb_prop_q self = [HasZeroedDict false; d; HasZeroedDict true] ->
  (exists cu mzr mcr yi yir ycr, d = BaselineDict cu mzr mcr yi yir ycr) ->
  exists s2,
    fst (run [EvPose D1; EvPose D2] self) = s2 /\
    cb_prop_q s2 = [HasZeroedDict true] /\
    clutch_state s2 = clutch_state self /\
    T_mz_cu_t s2 = T_mz_cu_t self /\
    baseline_of s2 = d.
Proof.
  intros Hq (cu & mzr & mcr & yi & yir & ycr & ->).
  eexists. split; [reflexivity|].
  rewrite !run_cons. cbn [run fst callback].
  rewrite !position_callback_state.
  destruct (@drained_cons _ _ _ (stored D1 self) Hq) as [-> _].
  set (s1 := setattrs (HasZeroedDict false) _).
  assert (Hq1 : cb_prop_q (stored D2 s1) =
                [BaselineDict cu mzr mcr yi yir ycr; HasZeroedDict true])
    by reflexivity.
  destruct (@drained_cons _ _ _ (stored D2 s1) Hq1) as [-> _].
  repeat split.
Qed.

(** The states in which the stale baseline shows: the clutch-up transforms
    carry the labels of two epochs, the clutch is released, and
    [has_zeroed] holds or is the one dictionary left in the queue. *)
Lemma run_stale (qs : list (@Pose K)) :
  forall (self : @Self K) (mz_cu w_cu : RigidTransform) (i j : nat),
    T_mz_cu_t self = Some mz_cu -> T_w_cu_t self = Some w_cu ->
    from_frame mz_cu = clutch_label "up" j ->
    from_frame w_cu = clutch_label "up" i -> i <> j ->
    clutch_state self = false ->
    cb_prop_q self = [HasZeroedDict true] \/
    (cb_prop_q self = [] /\ has_zeroed self = true) ->
    Forall (fun o => published (fst o) = [] /\ snd o = Raise FrameMismatch)
           (snd (run (map EvPose qs) self)).
Proof.
  induction qs as [|Q qs IH]; intros self mz_cu w_cu i j Hmz Hw Fj Fi N Hc Hq;
    [constructor|].
  set (s1 := drained (stored Q self)).
  assert (Hs1 : has_zeroed s1 = true /\ cb_prop_q s1 = [] /\
                clutch_state s1 = false /\
                T_mz_cu_t s1 = Some mz_cu /\ T_w_cu_t s1 = Some w_cu).
  { unfold s1, drained. change (cb_prop_q (stored Q self)) with (cb_prop_q self).
    destruct Hq as [E | [E Hz]]; rewrite E; simpl; repeat split; auto. }
  destruct Hs1 as (Hz1 & Hq1 & Hc1 & Hmz1 & Hw1).
  destruct (@stale_master_delta s1 mz_cu w_cu i j Hmz1 Hw1 Fj Fi N) as [HT _].
  assert (C : callback (EvPose Q) self =
              (s1, drain_log (stored Q self), Raise FrameMismatch)).
  { cbn [callback]. rewrite position_callback_eq. cbv zeta. fold s1.
    rewrite Hz1, Hc1, HT. reflexivity. }
  cbn [map]. rewrite (@run_snd_step _ _ _ _ _ _ _ _ C).
  constructor.
  - split; [apply published_drain_log | reflexivity].
  - apply (IH s1 mz_cu w_cu i j); auto.
Qed.

(** X5 (a reset overtaken by a clutch cycle).  In a zeroed relay with
    nothing queued, a reset followed by a press and a release of the clutch
    before the next two master poses arrive leaves the relay unable to
    forward: the release has moved the clutch-up transforms to the next
    epoch, and the queued baseline of the reset, applied afterwards, brings
    back the clutch-up pose of the old one.  From then on every pose
    callback of a run of master poses raises [FrameMismatch] and publishes
    nothing, and so does a release of the clutch after the next pose. *)
Theorem reset_clutch_race (self : @Self K) (m : RigidTransform)
    (Y D1 D2 : Pose) (qs : list Pose) :
  has_zeroed self = true -> T_w_mc self = Some m -> cb_prop_q self = [] ->
  let s := fst (run [EvReset Y; EvClutch true; EvClutch false;
                     EvPose D1; EvPose D2] self) in
  Forall (fun o => published (fst o) = [] /\ snd o = Raise FrameMismatch)
         (snd (run (map EvPose qs) s)) /\
  forall Q : Pose,
    result_of (callback (EvClutch false) (fst (run [EvPose Q] s))) =
    Raise FrameMismatch.
Proof.
  intros Hz Hm Hq.
  set (Yt := ros_pose_to_T Y "yumi_init" "world").
  set (i := _clutch_i self).
  set (d := zero_baseline i m Yt).
  set (w_old := as_frames m (clutch_label "up" i) "world").
  (* the reset *)
  destruct (@reset_steps_state self m Yt Hm Hq)
    as (s0 & C0 & Hz0 & Hm0 & Hi0 & Hmz0 & Hw0 & Hq0).
  fold i w_old d in Hi0, Hmz0, Hw0, Hq0. rewrite Hz in Hz0.
  (* the press *)
  set (cd := clutch_label "down" (i + 1)).
  destruct (@clutch_down_state s0 m Hz0 Hm0)
    as (sd & Cd & Hzd & Hmd & Hid & Hmzd & Hwd & Hcdd & Hqd).
  rewrite Hi0 in Hid, Hcdd. rewrite Hmz0 in Hmzd. rewrite Hw0 in Hwd.
  rewrite Hq0 in Hqd. fold cd in Hcdd.
  (* the release *)
  set (cu := clutch_label "up" (i + 1)).
  destruct (rt_mul_defined
              (RigidTransform_frames (clutch_label "up" i) "masters_zero")
              (inverse w_old))
    as (x1 & E1 & F1 & T1 & _); [reflexivity|].
  destruct (rt_mul_defined x1 (as_frames m cd "world"))
    as (x2 & E2 & F2 & T2 & _); [rewrite F1; reflexivity|].
  destruct (rt_mul_defined x2 (RigidTransform_frames cu cd))
    as (F & E3 & F3 & T3 & _); [rewrite F2; reflexivity|].
  assert (Hfb : folded_baseline sd = Ok F).
  { unfold folded_baseline, _clutch. rewrite Hwd, Hmzd, Hcdd, Hid.
    cbn [py_getattr py_mul res_bind]. rewrite E1. cbn [res_bind].
    rewrite E2. cbn [res_bind]. exact E3. }
  destruct (@clutch_up_state sd m F Hzd Hmd Hfb)
    as (su & Cu & Hzu & Hcu & Hmzu & Hwu & Hqu).
  rewrite Hqd in Hqu.
  (* the two samples that apply the queue *)
  destruct (@drain_two su d D1 D2 Hqu)
    as (s2 & R12 & Hq2 & Hc2 & Hmz2 & Hb2).
  { unfold d, zero_baseline. cbv zeta. repeat eexists. }
  rewrite Hcu in Hc2. rewrite Hmzu in Hmz2.
  assert (Hw2 : T_w_cu_t s2 = Some w_old).
  { unfold baseline_of, d, zero_baseline in Hb2. cbv zeta in Hb2.
    injection Hb2 as H1 _. exact H1. }
  intros s.
  assert (Es : s = s2).
  { unfold s.
    assert (C0' : callback (EvReset Y) self =
                  (s0, [Loginfo LogResetInitPose;
                        Loginfo (LogReceivedYumiPose (translation Yt));
                        Loginfo LogDoneInitPose], Ok tt)) by exact C0.
    rewrite (@run_fst_step _ _ _ _ _ _ _ _ C0'), (@run_fst_step _ _ _ _ _ _ _ _ Cd),
      (@run_fst_step _ _ _ _ _ _ _ _ Cu). exact R12. }
  rewrite Es.
  assert (N : i <> i + 1) by lia.
  split.
  - apply (@run_stale qs s2 F w_old i (i + 1)); auto.
  - intros Q. rewrite run_cons. cbn [run fst].
    set (s3 := state_of (callback (EvPose Q) s2)).
    assert (H3 : has_zeroed s3 = true /\ T_mz_cu_t s3 = Some F /\
                 T_w_cu_t s3 = Some w_old).
    { unfold s3. cbn [callback]. rewrite position_callback_state.
      unfold drained. rewrite cb_prop_q_stored, Hq2.
      cbn [setattrs]. rewrite has_zeroed_set_has_zeroed.
      rewrite T_mz_cu_t_set_has_zeroed, T_w_cu_t_set_has_zeroed.
      rewrite T_mz_cu_t_set_cb_prop_q, T_w_cu_t_set_cb_prop_q.
      rewrite T_mz_cu_t_stored, T_w_cu_t_stored. auto. }
    destruct H3 as (Hz3 & Hmz3 & Hw3).
    destruct (@stale_master_delta s3 F w_old i (i + 1)) as [_ HF]; auto.
    cbn [callback]. rewrite (@clutch_up_eq K SK s3 Hz3). cbv zeta.
    rewrite HF. reflexivity.
Qed.

End StaleBaseline.

(** ** More of the relay: the exceptions that can leave a callback *)

Section Exceptions.

Context {K : Type} {SK : Scalar K}.

Lemma only_mismatch_rt_mul (a b : @RigidTransform K) :
  only_mismatch (rt_mul a b).
Proof.
  destruct (rt_mul a b) as [c|e] eqn:E; simpl; auto.
  now apply rt_mul_raise in E.
Qed.

Lemma only_mismatch_bind (A B : Type) (r : res A) (f : A -> res B) :
  only_mismatch r -> (forall a, only_mismatch (f a)) ->
  only_mismatch (res_bind r f).
Proof. destruct r; simpl; auto. Qed.

(** With every attribute set, the chain of compositions can fail on labels
    only. *)
Lemma only_mismatch_target_pose (self : @Self K) :
  T_mz_cu_t self <> None -> T_w_mc self <> None ->
  all_set (baseline_of self) = true ->
  only_mismatch (target_pose self).
Proof.
  unfold baseline_of, all_set, target_pose. intros Hmz Hm Hb.
  destruct (T_mz_cu_t self) as [mz|]; [|contradiction].
  destruct (T_w_mc self) as [mc|]; [|contradiction].
  destruct (T_w_cu_t self) as [cu|]; [|discriminate].
  destruct (T_mzr_mz self) as [mzr|]; [|discriminate].
  destruct (T_mc_mcr self) as [mcr|]; [|discriminate].
  destruct (T_w_yi self) as [yi|]; [|discriminate].
  destruct (T_yi_yir self) as [yir|]; [|discriminate].
  destruct (T_ycr_yc self) as [ycr|]; [|discriminate].
  cbn [py_getattr py_mul res_bind].
  repeat (apply only_mismatch_bind; [apply only_mismatch_rt_mul | intros ?]).
  apply only_mismatch_rt_mul.
Qed.

Lemma all_set_setattrs (d : @cb_dict K) (self : Self) :
  all_set d = true ->
  all_set (baseline_of (setattrs d self)) = all_set (baseline_of self) \/
  all_set (baseline_of (setattrs d self)) = true.
Proof.
  destruct d as [v|cu mzr mcr yi yir ycr]; intros H; [left|right];
    [reflexivity | exact H].
Qed.

Lemma attrs_invariant_init : attrs_invariant (@init K).
Proof.
  split; [apply queue_invariant_init|].
  split; [reflexivity|]. split; [intros _; split; reflexivity|].
  intros [H|H]; discriminate.
Qed.

(** No queue of a reachable state has [has_zeroed = True] right after
    [has_zeroed = False]. *)
Lemma queue_unzero_then_zero (self : @Self K) (q : list cb_dict) :
  queue_invariant self ->
  cb_prop_q self = HasZeroedDict false :: HasZeroedDict true :: q -> False.
Proof.
  intros (_ & I2 & I3) Hq. destruct (has_zeroed self) eqn:Hz.
  - specialize (I2 eq_refl). rewrite Hq in I2. inversion I2.
  - destruct (I3 eq_refl) as (pre & q0 & E & W & [A | [A | A]]).
    + rewrite Hq in E. destruct pre as [|x [|y pre]]; simpl in E.
      * subst q0. inversion W.
      * injection E as _ E. subst q0. inversion W.
      * injection E as _ <- _. simpl in A.
        apply andb_prop in A as [_ A]. discriminate.
    + destruct A as (cu & mzr & mcr & yi & yir & ycr & ->).
      rewrite Hq in E. discriminate.
    + subst pre. rewrite Hq in E. discriminate.
Qed.

Lemma attrs_invariant_position (P : @Pose K) (self : Self) :
  attrs_invariant self ->
  attrs_invariant (state_of (_position_cartesian_current_callback P self)).
Proof.
  intros (I1 & I2 & I3 & I4).
  split; [apply queue_invariant_position, I1|].
  rewrite position_callback_state. unfold drained.
  rewrite cb_prop_q_stored.
  destruct (cb_prop_q self) as [|d q] eqn:Hq.
  { split; [rewrite cb_prop_q_stored, Hq; reflexivity|].
    split.
    - rewrite T_mz_cu_t_stored, cb_prop_q_stored. intros H.
      destruct (I3 H). split; assumption.
    - rewrite cb_prop_q_stored, baseline_of_stored, Hq. exact I4. }
  simpl in I2. apply andb_prop in I2 as [Id Iq].
  destruct d as [v|cu mzr mcr yi yir ycr].
  - split; [exact Iq|]. split.
    + cbn [setattrs]. rewrite T_mz_cu_t_set_has_zeroed, T_mz_cu_t_set_cb_prop_q,
        T_mz_cu_t_stored.
      intros H. destruct (I3 H) as [E _]. discriminate.
    + change (baseline_of (setattrs (HasZeroedDict v)
                             (set_cb_prop_q q (stored P self))))
        with (baseline_of self).
      change (has_zeroed (setattrs (HasZeroedDict v)
                            (set_cb_prop_q q (stored P self)))) with v.
      change (cb_prop_q (setattrs (HasZeroedDict v)
                           (set_cb_prop_q q (stored P self)))) with q.
      intros [H|H].
      * subst v. apply I4. right. reflexivity.
      * destruct v; [apply I4; right; reflexivity|].
        destruct q as [|x q]; [discriminate|]. simpl in H.
        injection H as ->. exfalso.
        exact (@queue_unzero_then_zero self q I1 Hq).
  - split; [exact Iq|]. split.
    + change (T_mz_cu_t (setattrs (BaselineDict cu mzr mcr yi yir ycr)
                           (set_cb_prop_q q (stored P self))))
        with (T_mz_cu_t self).
      intros H. destruct (I3 H) as [E _]. discriminate.
    + intros _. exact Id.
Qed.

Lemma attrs_invariant_reset (Y : @RigidTransform K) (self : Self) :
  attrs_invariant self ->
  attrs_invariant (state_of (_reset_init_poses Y self)).
Proof.
  intros (I1 & I2 & I3 & I4).
  split; [apply queue_invariant_reset, I1|].
  destruct (T_w_mc self) as [m|] eqn:Hm.
  - rewrite (@reset_eq K SK Y m self Hm). unfold state_of. cbn [fst].
    split; [|split].
    + rewrite reset_state_queue, forallb_app, I2. reflexivity.
    + intros H. discriminate H.
    + intros _. reflexivity.
  - rewrite (@reset_none_eq K SK Y self Hm). unfold state_of. cbn [fst].
    destruct I1 as (J1 & _ & _). destruct (J1 Hm) as [Hz A].
    split; [|split].
    + change (forallb all_set (cb_prop_q self ++ [HasZeroedDict false]) = true).
      rewrite forallb_app, I2. reflexivity.
    + intros H. discriminate H.
    + change (has_zeroed self = true \/
              hd_error (cb_prop_q self ++ [HasZeroedDict false]) =
              Some (HasZeroedDict true) ->
              all_set (baseline_of self) = true).
      intros [H|H]; [congruence|].
      destruct (cb_prop_q self) as [|x q]; [discriminate|].
      simpl in H, A. injection H as ->. discriminate.
Qed.

Lemma attrs_invariant_clutch (b : bool) (self : @Self K) :
  attrs_invariant self ->
  attrs_invariant (state_of (_clutch_callback b self)).
Proof.
  intros (I1 & I2 & I3 & I4).
  split; [apply queue_invariant_clutch, I1|].
  rewrite clutch_callback_queue, clutch_callback_has_zeroed.
  split; [exact I2|].
  clutch_cases b self; unfold state_of; cbn [fst].
  - split; [exact I3 | exact I4].
  - split; [exact I3 | exact I4].
  - split; [intros H; discriminate H|].
    intros H. specialize (I4 H). revert I4. unfold baseline_of, all_set.
    cbn. destruct (T_w_cu_t self); [auto | discriminate].
  - split; [intros H; discriminate H | exact I4].
  - split; [exact I3 | exact I4].
  - split; [exact I3 | exact I4].
Qed.

Lemma attrs_invariant_run (evs : list (@event K)) (self : Self) :
  attrs_invariant self -> attrs_invariant (fst (run evs self)).
Proof.
  revert self. induction evs as [|e evs IH]; intros self I; [exact I|].
  rewrite run_cons. cbn [fst]. apply IH.
  destruct e; cbn [callback]; unfold reset_init_poses.
  - apply attrs_invariant_position, I.
  - apply attrs_invariant_clutch, I.
  - apply attrs_invariant_reset, I.
Qed.

Lemma reachable_attrs_invariant (self : @Self K) :
  reachable self -> attrs_invariant self.
Proof.
  intros [evs ->]. apply attrs_invariant_run, attrs_invariant_init.
Qed.

(** In a reachable state with [has_zeroed] set no attribute is [None]. *)
Lemma reachable_zeroed_set (self : @Self K) :
  attrs_invariant self -> has_zeroed self = true ->
  T_mz_cu_t self <> None /\ T_w_mc self <> None /\
  all_set (baseline_of self) = true.
Proof.
  intros ((J1 & _) & _ & I3 & I4) Hz. split; [|split].
  - intros H. destruct (I3 H). congruence.
  - intros H. destruct (J1 H). congruence.
  - apply I4. now left.
Qed.

(** X6 (the exceptions that leave a callback).  In the states a relay can
    reach, the pose callback returns or raises [FrameMismatch]; a clutch
    press always returns; a clutch release returns, raises
    [FrameMismatch], or raises [ValueError] when no press was ever
    processed ([T_w_cd_t1] is still [None]); a reset returns, or raises
    [AttributeError] when no master pose was ever received.  No other
    exception leaves a callback. *)
Theorem escaping_exceptions (self : @Self K) (e : event) :
  reachable self ->
  match e with
  | EvPose _ =>
      result_of (callback e self) = Ok tt \/
      result_of (callback e self) = Raise FrameMismatch
  | EvClutch true => result_of (callback e self) = Ok tt
  | EvClutch false =>
      result_of (callback e self) = Ok tt \/
      result_of (callback e self) = Raise FrameMismatch \/
      (result_of (callback e self) = Raise ValueError /\
       T_w_cd_t1 self = None)
  | EvReset _ =>
      result_of (callback e self) = Ok tt \/
      (result_of (callback e self) = Raise AttributeError /\
       T_w_mc self = None)
  end.
Proof.
  intros R. apply reachable_attrs_invariant in R as I.
  destruct e as [P|[|]|Y]; cbn [callback].
  - pose proof (attrs_invariant_position P I) as I'.
    rewrite position_callback_state in I'.
    rewrite position_callback_eq. cbv zeta.
    destruct (has_zeroed (drained (stored P self))) eqn:Hz; [|now left].
    destruct (clutch_state (drained (stored P self))); [now left|].
    cbn [andb negb].
    destruct (reachable_zeroed_set I' Hz) as (A1 & A2 & A3).
    pose proof (only_mismatch_target_pose _ A1 A2 A3) as O.
    destruct (target_pose (drained (stored P self))); simpl in O;
      [now left | right; subst; reflexivity].
  - destruct (has_zeroed self) eqn:Hz.
    + rewrite (@clutch_down_eq K SK self Hz). cbv zeta.
      destruct (reachable_zeroed_set I Hz) as (_ & A2 & _).
      destruct (T_w_mc self); [reflexivity | contradiction].
    + rewrite (clutch_callback_not_zeroed true self Hz). reflexivity.
  - destruct (has_zeroed self) eqn:Hz.
    + rewrite (@clutch_up_eq K SK self Hz). cbv zeta.
      destruct (reachable_zeroed_set I Hz) as (A1 & A2 & A3).
      unfold folded_baseline, baseline_of, all_set in *.
      destruct (T_mz_cu_t self) as [mz|]; [|contradiction].
      destruct (T_w_cu_t self) as [cu|]; [|discriminate].
      cbn [py_getattr py_mul res_bind].
      destruct (rt_mul mz (inverse cu)) as [x|e] eqn:E1; cbn [res_bind].
      2:{ apply rt_mul_raise in E1 as [-> _]. right; left; reflexivity. }
      destruct (T_w_cd_t1 self) as [cd|]; cbn [res_bind].
      2:{ right; right. split; reflexivity. }
      destruct (rt_mul x cd) as [y|e] eqn:E2; cbn [res_bind].
      2:{ apply rt_mul_raise in E2 as [-> _]. right; left; reflexivity. }
      destruct (rt_mul y _) as [z|e] eqn:E3.
      2:{ apply rt_mul_raise in E3 as [-> _]. right; left; reflexivity. }
      destruct (T_w_mc self); [left; reflexivity | contradiction].
    + rewrite (clutch_callback_not_zeroed false self Hz). left; reflexivity.
  - unfold reset_init_poses.
    destruct (T_w_mc self) as [m|] eqn:Hm.
    + rewrite (@reset_eq K SK _ m self Hm). left; reflexivity.
    + rewrite (@reset_none_eq K SK _ self Hm). right. split; reflexivity.
Qed.

End Exceptions.

(** ** More of the relay: what is published, and the reset service *)

Section Publishing.

Context {K : Type} {SK : Scalar K}.

Lemma published_callback (e : @event K) (self : Self) :
  length (published (effects_of (callback e self))) <=
  (if is_pose e then 1 else 0).
Proof.
  destruct e as [P|b|Y]; cbn [callback is_pose].
  - rewrite position_callback_eq. cbv zeta.
    destruct (has_zeroed _ && negb _).
    + destruct (target_pose _); unfold effects_of; cbn [fst snd].
      * rewrite published_app, published_drain_log. simpl. lia.
      * rewrite published_drain_log. simpl. lia.
    + unfold effects_of; cbn [fst snd]. rewrite published_drain_log.
      simpl. lia.
  - clutch_cases b self; unfold effects_of; simpl; lia.
  - unfold reset_init_poses.
    reset_cases (ros_pose_to_T Y "yumi_init" "world") self;
      unfold effects_of; simpl; lia.
Qed.

(** X7 (one pose per master pose at most).  Over any run from any state,
    the relay publishes at most as many poses as it received master poses,
    and the clutch callback and the reset publish nothing. *)
Theorem publish_bound (evs : list (@event K)) (self : Self) :
  length (all_published (snd (run evs self))) <= pose_events evs /\
  Forall2 (fun e o => is_pose e = false -> published (fst o) = [])
          evs (snd (run evs self)).
Proof.
  revert self. induction evs as [|e evs IH]; intros self.
  - split; [simpl; lia | constructor].
  - rewrite run_cons. cbn [snd fst].
    destruct (IH (state_of (callback e self))) as [IH1 IH2].
    pose proof (published_callback e self) as L.
    split.
    + unfold all_published, pose_events in *. cbn [flat_map filter fst].
      rewrite length_app.
      destruct (is_pose e); cbn [length]; lia.
    + constructor; [|exact IH2]. cbn [fst]. intros H. rewrite H in L.
      destruct (published _); [reflexivity | simpl in L; lia].
Qed.

(** X8 (the reset service is not atomic).  The service handler replies
    ['ok'] exactly when both relays have received a master pose.  When the
    left relay has none, the handler raises [AttributeError] and the right
    relay is untouched; when only the right relay has none, the handler
    raises [AttributeError] after the left relay was reset.  In both cases
    the relay that raised keeps a queued [has_zeroed = False] with no
    [has_zeroed = True] to follow it. *)
Theorem reset_service (res_left res_right : @Pose K) (left right : Self) :
  let out := main_reset_init_poses res_left res_right left right in
  (snd out = Ok "ok"%string <->
   T_w_mc left <> None /\ T_w_mc right <> None) /\
  (T_w_mc left = None ->
   snd out = Raise AttributeError /\
   snd (fst (fst out)) = right /\
   cb_prop_q (fst (fst (fst out))) = cb_prop_q left ++ [HasZeroedDict false]) /\
  (forall m : RigidTransform,
     T_w_mc left = Some m -> T_w_mc right = None ->
     snd out = Raise AttributeError /\
     fst (fst (fst out)) =
       reset_state m (ros_pose_to_T res_left "yumi_init" "world") left /\
     cb_prop_q (snd (fst (fst out))) =
       cb_prop_q right ++ [HasZeroedDict false]).
Proof.
  unfold main_reset_init_poses, reset_init_poses. cbv zeta.
  destruct (T_w_mc left) as [ml|] eqn:Hl.
  - rewrite (@reset_eq K SK _ ml left Hl).
    destruct (T_w_mc right) as [mr|] eqn:Hr.
    + rewrite (@reset_eq K SK _ mr right Hr). cbn [fst snd].
      split; [|split].
      * split; [intros _; split; discriminate | reflexivity].
      * discriminate.
      * discriminate.
    + rewrite (@reset_none_eq K SK _ right Hr). cbn [fst snd].
      split; [|split].
      * split; [discriminate | intros [_ H]; contradiction].
      * discriminate.
      * intros m E _. injection E as <-. repeat split.
  - rewrite (@reset_none_eq K SK _ left Hl). cbn [fst snd].
    split; [|split].
    + split; [discriminate | intros [H _]; contradiction].
    + intros _. repeat split.
    + discriminate.
Qed.

End Publishing.

(** ** The further theorems at concrete inputs *)

Lemma ex_zeroed_reachable : reachable ex_zeroed.
Proof.
  exists [EvPose ex_M0; EvReset ex_Y; EvPose ex_M0; EvPose ex_M0;
          EvPose ex_M0].
  vm_compute. reflexivity.
Defined.

Lemma clutch_relative_motion_witness :
  emissions
    (snd (run [EvPose ex_M1]
              (fst (run ([EvPose ex_M0; EvClutch true] ++ map EvPose [ex_M0]
                           ++ [EvPose ex_M1; EvClutch false]) ex_zeroed)))) =
  [([ex_Y], Ok tt)].
Proof.
  apply (@clutch_relative_motion Z Scalar_Z ex_zeroed ex_M0 ex_M1 ex_M1 ex_Y
           [ex_M0]).
  - exact ex_zeroed_reachable.
  - reflexivity.
  - reflexivity.
  - vm_compute. reflexivity.
Defined.

Lemma clutch_transparency_witness :
  emissions
    (snd (run [EvPose ex_M0]
              (fst (run ([EvPose ex_M1; EvClutch true] ++ map EvPose [ex_M0]
                           ++ [EvPose ex_M1; EvClutch false]) ex_zeroed)))) =
  [([ex_Y], Ok tt)].
Proof.
  apply (@clutch_transparency Z Scalar_Z ex_zeroed ex_M1 ex_M0 ex_Y [ex_M0]).
  - exact ex_zeroed_reachable.
  - reflexivity.
  - reflexivity.
  - split; vm_compute; reflexivity.
  - vm_compute. reflexivity.
Defined.

Lemma zeroed_closed_form_witness :
  emissions
    (snd (run (EvReset ex_Y :: EvPose ex_M1 :: EvPose ex_M1 :: EvPose ex_M1
                 :: map EvPose [ex_M0])
              (fst (run [EvPose ex_M0] init)))) =
  [([], Ok tt); ([], Ok tt); ([], Ok tt)]
    ++ map (fun Q => ([zeroed_target ex_M0 ex_Y Q], Ok tt)) [ex_M1; ex_M0] /\
  zeroed_target ex_M0 ex_Y ex_M0 = ex_Y.
Proof.
  apply (@zeroed_closed_form Z Scalar_Z (fst (run [EvPose ex_M0] init))
           ex_M0 ex_Y ex_M1 ex_M1 ex_M1 [ex_M0]).
  - reflexivity.
  - reflexivity.
  - reflexivity.
  - split; vm_compute; reflexivity.
  - split; vm_compute; reflexivity.
Defined.

Lemma reset_latency_witness :
  emissions (snd (run [EvReset ex_Y; EvPose ex_M1; EvPose ex_M1] ex_zeroed)) =
  [([], Ok tt); ([], Ok tt); ([], Ok tt)] /\
  has_zeroed (fst (run [EvReset ex_Y; EvPose ex_M1] ex_zeroed)) = false /\
  has_zeroed (fst (run [EvReset ex_Y; EvPose ex_M1; EvPose ex_M1] ex_zeroed)) =
  false /\
  has_zeroed
    (fst (run [EvReset ex_Y; EvPose ex_M1; EvPose ex_M1; EvPose ex_M0]
              ex_zeroed)) = true.
Proof.
  destruct (@reset_latency Z Scalar_Z ex_zeroed
              (ros_pose_to_T ex_M0 "masters_current" "world")
              ex_Y ex_M1 ex_M1 ex_M0 true eq_refl eq_refl)
    as (H1 & H2 & H3 & H4 & _).
  repeat split; assumption.
Defined.

Lemma reset_clutch_race_witness :
  Forall (fun o => published (fst o) = [] /\ snd o = Raise FrameMismatch)
         (snd (run (map EvPose [ex_M0; ex_M1])
                   (fst (run [EvReset ex_Y; EvClutch true; EvClutch false;
                              EvPose ex_M1; EvPose ex_M1] ex_zeroed)))).
Proof.
  exact (proj1 (@reset_clutch_race Z Scalar_Z ex_zeroed
                  (ros_pose_to_T ex_M0 "masters_current" "world")
                  ex_Y ex_M1 ex_M1 [ex_M0; ex_M1] eq_refl eq_refl eq_refl)).
Defined.

Lemma escaping_exceptions_witness :
  result_of (callback (EvClutch false) ex_zeroed) = Ok tt \/
  result_of (callback (EvClutch false) ex_zeroed) = Raise FrameMismatch \/
  (result_of (callback (EvClutch false) ex_zeroed) = Raise ValueError /\
   T_w_cd_t1 ex_zeroed = None).
Proof.
  exact (@escaping_exceptions Z Scalar_Z ex_zeroed (EvClutch false)
           ex_zeroed_reachable).
Defined.

(** * Properties of the data loader *)

Section Slices.

Import data_loader.

Lemma clamp_index_range (n i : Z) :
  (0 <= n)%Z -> (0 <= clamp_index n i <= n)%Z.
Proof.
  intros Hn. unfold clamp_index. destruct (Z.ltb_spec i 0); lia.
Qed.

Lemma clamp_index_in_range (n i : Z) :
  (0 <= i <= n)%Z -> clamp_index n i = i.
Proof.
  intros H. unfold clamp_index. destruct (Z.ltb_spec i 0); lia.
Qed.

Lemma clamp_index_negative (n i : Z) :
  (i < 0)%Z -> (0 <= i + n)%Z -> clamp_index n i = (i + n)%Z.
Proof.
  intros H1 H2. unfold clamp_index. destruct (Z.ltb_spec i 0); lia.
Qed.

(** A slice with bounds inside the list. *)
Lemma py_slice_range (A : Type) (l : list A) (start stop : nat) :
  start <= stop -> stop <= length l ->
  py_slice l (Some (Z.of_nat start)) (Some (Z.of_nat stop)) =
  firstn (stop - start) (skipn start l).
Proof.
  intros H1 H2. unfold py_slice. cbv zeta.
  rewrite !clamp_index_in_range by lia.
  rewrite Nat2Z.id. f_equal. lia.
Qed.

(** A slice is a segment of the list. *)
Lemma py_slice_segment (A : Type) (l : list A) (lo hi : option Z) :
  exists before after, l = before ++ py_slice l lo hi ++ after.
Proof.
  unfold py_slice. cbv zeta.
  set (a := Z.to_nat _). set (b := Z.to_nat _).
  exists (firstn b l), (skipn a (skipn b l)).
  now rewrite (firstn_skipn a (skipn b l)), (firstn_skipn b l).
Qed.

Lemma py_slice_map (A B : Type) (f : A -> B) (l : list A) (lo hi : option Z) :
  py_slice (map f l) lo hi = map f (py_slice l lo hi).
Proof.
  unfold py_slice. cbv zeta.
  now rewrite length_map, skipn_map, firstn_map.
Qed.

Lemma stride_from_map (A B : Type) (f : A -> B) (k : nat) (l : list A) :
  forall skip, stride_from k skip (map f l) = map f (stride_from k skip l).
Proof.
  induction l as [|x l IH]; intros [|skip]; simpl; auto.
  now rewrite IH.
Qed.

Lemma nth_error_stride_from (A : Type) (k : nat) (l : list A) :
  1 <= k ->
  forall skip i,
    nth_error (stride_from k skip l) i = nth_error l (skip + i * k).
Proof.
  intros Hk. induction l as [|x l IH]; intros skip i.
  - simpl. now rewrite !nth_error_nil.
  - destruct skip as [|skip]; cbn [stride_from].
    + destruct i as [|i]; [reflexivity|].
      cbn [nth_error]. rewrite IH.
      replace (0 + S i * k) with (S (k - 1 + i * k)) by lia.
      reflexivity.
    + rewrite IH. reflexivity.
Qed.

Lemma length_stride_from (A : Type) (k : nat) (l : list A) :
  1 <= k ->
  forall skip,
    length (stride_from k skip l) = ceil_div (length l - skip) k.
Proof.
  intros Hk. unfold ceil_div.
  induction l as [|x l IH]; intros skip.
  - simpl. symmetry. apply Nat.div_small. lia.
  - destruct skip as [|skip]; cbn [stride_from length].
    + rewrite IH.
      destruct (Nat.le_gt_cases (k - 1) (length l)) as [H|H].
      * replace (length l - (k - 1) + k - 1) with (length l) by lia.
        replace (S (length l) - 0 + k - 1) with (length l + 1 * k) by lia.
        rewrite Nat.div_add by lia. lia.
      * replace (length l - (k - 1) + k - 1) with (k - 1) by lia.
        rewrite (Nat.div_small (k - 1) k) by lia.
        replace (S (length l) - 0 + k - 1) with (length l + 1 * k) by lia.
        rewrite Nat.div_add by lia.
        rewrite (Nat.div_small (length l) k) by lia. reflexivity.
    + rewrite IH. reflexivity.
Qed.

End Slices.

Section Pruning.

Import data_loader.

Context {D : Disk}.

(** X9 (the kept range is inclusive).  When the comment of a trial
    evaluates to a sequence whose second item is a pair [(lo, hi)] of
    indices of the list, [0 <= lo <= hi < len(lst)], [prune_data] returns
    the [hi - lo + 1] elements from index [lo] to index [hi], both
    included. *)
Theorem prune_inclusive_range (A : Type) (lst : list A) (trial : Trial)
    (note : pyval) (rest : list pyval) (lo hi : nat) :
  py_eval (comments trial) lst trial =
    Returns (PySeq (note :: PySeq [PyInt (Z.of_nat lo); PyInt (Z.of_nat hi)]
                         :: rest)) ->
  lo <= hi -> hi < length lst ->
  exists kept,
    prune_data lst trial = Returns kept /\
    length kept = hi - lo + 1 /\
    forall i, i <= hi - lo -> nth_error kept i = nth_error lst (lo + i).
Proof.
  intros He H1 H2. unfold prune_data. rewrite He.
  cbn [py_getitem nth_error and_then py_unpack2 py_add1 py_slice_index].
  replace (Z.of_nat hi + 1)%Z with (Z.of_nat (hi + 1)) by lia.
  rewrite py_slice_range by lia.
  eexists. split; [reflexivity|]. split.
  - rewrite length_firstn, length_skipn. lia.
  - intros i Hi. rewrite nth_error_firstn, nth_error_skipn.
    destruct (Nat.ltb_spec i (hi + 1 - lo)); [reflexivity | lia].
Qed.

(** X10 (pruning only cuts).  Whatever the comment of the trial is,
    [prune_data] returns a segment of the list it was given, elements and
    order unchanged, or raises [TypeError]; it raises when the pair in the
    comment holds something that is not an integer, and returns the list
    itself when the comment cannot be evaluated. *)
Theorem prune_data_segment (A : Type) (lst : list A) (trial : Trial) :
  match prune_data lst trial with
  | Returns kept => exists before after, lst = before ++ kept ++ after
  | Raises e =>
      e = TypeError /\
      exists prune lo hi,
        py_eval (comments trial) lst trial = Returns prune /\
        (item <- py_getitem prune 1 ;; py_unpack2 item)%dl = Returns (lo, hi) /\
        ((forall z, hi <> PyInt z) \/ (forall z, lo <> PyInt z) /\ lo <> PyNone)
  end /\
  (forall e, py_eval (comments trial) lst trial = Raises e ->
             prune_data lst trial = Returns lst).
Proof.
  split.
  2:{ intros e He. unfold prune_data. now rewrite He. }
  unfold prune_data.
  destruct (py_eval (comments trial) lst trial) as [prune|e].
  2:{ exists [], []. now rewrite app_nil_r. }
  destruct (item <- py_getitem prune 1 ;; py_unpack2 item)%dl
    as [[lo hi]|e] eqn:Hu.
  2:{ exists [], []. now rewrite app_nil_r. }
  destruct hi as [zh| | |sh|lh]; cbn [py_add1 and_then].
  - destruct lo as [zl| | |sl|ll]; cbn [py_slice_index and_then];
      try apply py_slice_segment;
      (split; [reflexivity|]; exists prune; do 2 eexists;
       split; [reflexivity|]; split; [exact Hu|]; right;
       split; [intros z; discriminate | discriminate]).
  - split; [reflexivity|]. exists prune; do 2 eexists.
    split; [reflexivity|]; split; [exact Hu|]. left. intros z; discriminate.
  - destruct lo as [zl| | |sl|ll]; cbn [py_slice_index and_then];
      (split; [reflexivity|]; exists prune; do 2 eexists;
       split; [reflexivity|]; split; [exact Hu|]; left;
       intros z; discriminate).
  - split; [reflexivity|]. exists prune; do 2 eexists.
    split; [reflexivity|]; split; [exact Hu|]. left. intros z; discriminate.
  - split; [reflexivity|]. exists prune; do 2 eexists.
    split; [reflexivity|]; split; [exact Hu|]. left. intros z; discriminate.
Qed.

(** X11 (a negative end index).  With the pair [(0, -k)] in the comment,
    [2 <= k <= len(lst)], [prune_data] keeps the list up to its [k]-th
    element from the end, that one included, as indexing from the end
    would have it; with [(0, -1)] it returns the empty list, not the whole
    one. *)
Theorem prune_negative_end (A : Type) (lst : list A) (trial : Trial)
    (note : pyval) (rest : list pyval) (k : nat) :
  py_eval (comments trial) lst trial =
    Returns (PySeq (note :: PySeq [PyInt 0; PyInt (- Z.of_nat k)] :: rest)) ->
  1 <= k <= length lst ->
  prune_data lst trial =
  Returns (if Nat.eqb k 1 then [] else firstn (length lst - k + 1) lst).
Proof.
  intros He Hk. unfold prune_data. rewrite He.
  cbn [py_getitem nth_error and_then py_unpack2 py_add1 py_slice_index].
  f_equal. unfold py_slice. cbv zeta.
  rewrite (clamp_index_in_range (n := Z.of_nat (length lst)) (i := 0%Z)) by lia.
  change (Z.to_nat 0) with 0. cbn [skipn].
  destruct (Nat.eqb_spec k 1) as [->|Hk1].
  - change (- Z.of_nat 1 + 1)%Z with 0%Z.
    rewrite clamp_index_in_range by lia. reflexivity.
  - rewrite clamp_index_negative by lia. f_equal. lia.
Qed.

End Pruning.

Section Subsampling.

Import data_loader.

Lemma subsampled_stride (A : Type) (subsample : Z) (l : list A) :
  (1 <= subsample)%Z ->
  length (subsampled subsample l) = ceil_div (length l) (Z.to_nat subsample) /\
  forall i, nth_error (subsampled subsample l) i =
            nth_error l (i * Z.to_nat subsample).
Proof.
  intros Hk. unfold subsampled. destruct (Z.ltb_spec 1 subsample) as [H|H].
  - unfold py_stride. split.
    + rewrite length_stride_from by lia. now rewrite Nat.sub_0_r.
    + intros i. now rewrite nth_error_stride_from by lia.
  - assert (subsample = 1%Z) as -> by lia.
    change (Z.to_nat 1) with 1. split.
    + unfold ceil_div. now rewrite Nat.add_sub, Nat.div_1_r.
    + intros i. now rewrite Nat.mul_1_r.
Qed.

(** X12 (subsampling).  For [subsample >= 1] the subsampled list has
    [ceil(n / subsample)] elements and its [i]-th element is the
    [i * subsample]-th of the list; for [subsample <= 1], zero and the
    negative numbers included, the list is returned as it is. *)
Theorem subsampled_spec (A : Type) (subsample : Z) (l : list A) :
  ((1 <= subsample)%Z ->
   length (subsampled subsample l) = ceil_div (length l) (Z.to_nat subsample) /\
   forall i, nth_error (subsampled subsample l) i =
             nth_error l (i * Z.to_nat subsample)) /\
  ((subsample <= 1)%Z -> subsampled subsample l = l).
Proof.
  split.
  - apply subsampled_stride.
  - intros Hk. unfold subsampled.
    destruct (Z.ltb_spec 1 subsample) as [H|H]; [lia | reflexivity].
Qed.

End Subsampling.

Section Alignment.

Import data_loader.

Context {D : Disk}.

Lemma map_fst_combine (A B : Type) (a : list A) (b : list B) :
  length a = length b -> map fst (combine a b) = a.
Proof.
  revert b. induction a as [|x a IH]; intros [|y b] H; simpl in *;
    try discriminate; auto.
  f_equal. apply IH. now injection H.
Qed.

Lemma map_snd_combine (A B : Type) (a : list A) (b : list B) :
  length a = length b -> map snd (combine a b) = b.
Proof.
  revert b. induction a as [|x a IH]; intros [|y b] H; simpl in *;
    try discriminate; auto.
  f_equal. apply IH. now injection H.
Qed.

(** The two steps of [prune_data]. *)
Lemma prune_data_pruned_by (A : Type) (lst : list A) (trial : Trial) :
  prune_data lst trial = pruned_by (py_eval (comments trial) lst trial) lst.
Proof. reflexivity. Qed.

(** Once the comment is evaluated, pruning and subsampling look at
    positions only. *)
Lemma pruned_by_map (A B : Type) (f : A -> B) (v : result pyval)
    (l : list A) :
  pruned_by v (map f l) = result_map (map f) (pruned_by v l).
Proof.
  unfold pruned_by.
  destruct v as [prune|e]; [|reflexivity].
  destruct (item <- py_getitem prune 1 ;; py_unpack2 item)%dl
    as [[lo hi]|e]; [|reflexivity].
  destruct (py_add1 hi) as [hi1|e]; [|reflexivity]. cbn [and_then].
  destruct (py_slice_index lo) as [lo'|e]; [|reflexivity]. cbn [and_then].
  destruct (py_slice_index hi1) as [hi'|e]; [|reflexivity]. cbn [and_then].
  cbn [result_map]. now rewrite py_slice_map.
Qed.

Lemma subsampled_map (A B : Type) (f : A -> B) (k : Z) (l : list A) :
  subsampled k (map f l) = map f (subsampled k l).
Proof.
  unfold subsampled, py_stride. destruct (1 <? k)%Z; [|reflexivity].
  apply stride_from_map.
Qed.

(** Two lists of one length, pruned under one value of the comment. *)
Lemma pruned_of_pair (A B : Type) (a : list A) (b : list B) (prune : bool)
    (trial : Trial) :
  length a = length b ->
  (prune = true ->
   py_eval (comments trial) b trial = py_eval (comments trial) a trial) ->
  let both := if prune
              then pruned_by (py_eval (comments trial) a trial) (combine a b)
              else Returns (combine a b) in
  (if prune then prune_data a trial else Returns a) =
    result_map (map fst) both /\
  (if prune then prune_data b trial else Returns b) =
    result_map (map snd) both.
Proof.
  intros H E. cbv zeta. destruct prune.
  - rewrite !prune_data_pruned_by, (E eq_refl), <- !pruned_by_map.
    rewrite map_fst_combine, map_snd_combine by exact H.
    split; reflexivity.
  - cbn [result_map].
    rewrite map_fst_combine, map_snd_combine by exact H. split; reflexivity.
Qed.

(** X13 (poses and images stay aligned).  The comment of a trial is
    evaluated inside each call of [prune_data], with the list of that call
    in scope.  When the pose file of an arm and the image chunks of a
    device hold the same number of samples and the comment has the same
    value in both calls (as a comment that does not mention [lst] has),
    [load_poses] and [load_images], called with the same [prune] and
    [subsample], select the same samples: both results are read off the
    one list obtained by pruning and subsampling the paired streams, so
    the [i]-th pose and the [i]-th frame were recorded together; and when
    pruning raises, both calls raise the same exception. *)
Theorem poses_images_aligned (trial : Trial) (arm_name device : string)
    (prune : bool) (subsample : Z) (euler numpy : bool)
    (ps : list (stamp * (tag * rigid))) (im : list (stamp * image)) :
  is_arm arm_name = true -> is_image_device device = true ->
  load_poses_jb (os_path_join (trial_path trial)
                   ("poses_" ++ arm_name ++ ".jb")%string) = Returns ps ->
  concat_chunks (os_path_join (trial_path trial) device) = Returns im ->
  length ps = length im ->
  (prune = true ->
   py_eval (comments trial) im trial = py_eval (comments trial) ps trial) ->
  match (if prune
         then pruned_by (py_eval (comments trial) ps trial) (combine ps im)
         else Returns (combine ps im)) with
  | Raises e =>
      load_poses trial arm_name prune subsample euler = Raises e /\
      load_images (TrialRow trial) device prune subsample numpy = Raises e
  | Returns pruned =>
      let kept := subsampled subsample pruned in
      let poses := map (fun x => snd (snd (fst x))) kept in
      let frames := map (fun x => data (snd (snd x))) kept in
      load_poses trial arm_name prune subsample euler =
        Returns (if euler
                 then PoseArray
                        (map (fun p => translation p ++ quaternion p) poses)
                 else PoseList poses) /\
      load_images (TrialRow trial) device prune subsample numpy =
        Returns (if numpy then FrameArray frames else FrameList frames)
  end.
Proof.
  intros Ha Hd Hp Hi Hlen He.
  destruct (@pruned_of_pair _ _ ps im prune trial Hlen He) as [Ep Ei].
  cbv zeta in Ep, Ei.
  unfold load_poses, load_images. rewrite Ha, Hd, Hp, Hi.
  cbn [negb and_then]. rewrite Ep, Ei.
  destruct (if prune
            then pruned_by (py_eval (comments trial) ps trial) (combine ps im)
            else Returns (combine ps im)) as [pruned|e];
    cbn [result_map and_then]; [|split; reflexivity].
  cbv zeta. rewrite !subsampled_map, !map_map. split.
  - destruct euler; reflexivity.
  - destruct numpy; reflexivity.
Qed.

(** X14 (joints are pruned but never subsampled).  When the pose file and
    the state file of an arm hold the same number of samples and the
    comment of the trial has the same value in both calls of
    [prune_data], [load_joints] returns one row for each sample that
    pruning keeps, while [load_poses] with [prune=True] returns the poses
    of every [subsample]-th of these samples: row [i] of the poses belongs
    with row [i * subsample] of the joints, and the two results have the
    same length only when nothing is subsampled. *)
Theorem joints_poses_aligned (trial : Trial) (arm_name : string)
    (subsample : Z)
    (ps : list (stamp * (tag * rigid)))
    (st : list (stamp * (tag * arm_state))) :
  is_arm arm_name = true ->
  load_poses_jb (os_path_join (trial_path trial)
                   ("poses_" ++ arm_name ++ ".jb")%string) = Returns ps ->
  load_states_jb (os_path_join (trial_path trial)
                    ("states_" ++ arm_name ++ ".jb")%string) = Returns st ->
  length ps = length st ->
  py_eval (comments trial) st trial = py_eval (comments trial) ps trial ->
  (1 <= subsample)%Z ->
  match pruned_by (py_eval (comments trial) ps trial) (combine ps st) with
  | Raises e =>
      load_joints trial arm_name = Raises e /\
      load_poses trial arm_name true subsample false = Raises e
  | Returns pruned =>
      exists poses,
        load_joints trial arm_name =
          Returns (map (fun x => joints (snd (snd (snd x)))) pruned) /\
        load_poses trial arm_name true subsample false =
          Returns (PoseList poses) /\
        length poses = ceil_div (length pruned) (Z.to_nat subsample) /\
        forall i, nth_error poses i =
                  option_map (fun x => snd (snd (fst x)))
                             (nth_error pruned (i * Z.to_nat subsample))
  end.
Proof.
  intros Ha Hp Hs Hlen He Hk.
  destruct (@pruned_of_pair _ _ ps st true trial Hlen (fun _ => He))
    as [Ep Es].
  cbv zeta in Ep, Es.
  unfold load_poses, load_joints. rewrite Ha, Hp, Hs.
  cbn [negb and_then]. rewrite Ep, Es.
  destruct (pruned_by (py_eval (comments trial) ps trial) (combine ps st))
    as [pruned|e];
    cbn [result_map and_then]; [|split; reflexivity].
  cbv zeta. rewrite !subsampled_map, !map_map.
  eexists. split; [reflexivity|]. split; [reflexivity|].
  destruct (@subsampled_stride _ subsample pruned Hk) as [L N].
  split.
  - rewrite length_map. exact L.
  - intros i. rewrite nth_error_map, N. reflexivity.
Qed.

End Alignment.

Section Chunks.

Import data_loader.

Context {D : Disk}.

Lemma key_lt_asym (a b : jb_key) : key_lt a b = true -> key_lt b a = false.
Proof.
  destruct a as [x|], b as [y|]; simpl; try congruence.
  intros H. apply Z.ltb_lt in H. apply Z.ltb_ge. lia.
Qed.

Lemma insert_chunk_middle (x : string) (s1 s2 : list string) :
  Forall (fun y => key_lt (jb_number y) (jb_number x) = true) s1 ->
  Forall (fun y => key_lt (jb_number y) (jb_number x) = false) s2 ->
  insert_chunk x (s1 ++ s2) = s1 ++ x :: s2.
Proof.
  intros H1 H2. induction H1 as [|y s1 Hy _ IH]; cbn [app insert_chunk].
  - destruct H2 as [|y s2 Hy _]; [reflexivity|].
    cbn [insert_chunk]. now rewrite Hy.
  - now rewrite Hy, IH.
Qed.

Lemma StronglySorted_middle (A : Type) (R : A -> A -> Prop) (x : A)
    (s1 s2 : list A) :
  StronglySorted R (s1 ++ x :: s2) ->
  StronglySorted R (s1 ++ s2) /\ Forall (fun y => R y x) s1 /\ Forall (R x) s2.
Proof.
  induction s1 as [|y s1 IH]; cbn [app]; intros H.
  - apply StronglySorted_inv in H as [H1 H2]. repeat split; auto.
  - apply StronglySorted_inv in H as [H1 H2].
    destruct (IH H1) as (I1 & I2 & I3).
    apply Forall_app in H2 as [F1 F2].
    apply Forall_cons_iff in F2 as [F2 F3].
    repeat split; auto.
    constructor; [exact I1|]. apply Forall_app. split; assumption.
Qed.

(** The sort has one possible result when the keys are all different. *)
Lemma sort_chunks_unique (l s : list string) :
  Permutation l s ->
  StronglySorted (fun a b => key_lt (jb_number a) (jb_number b) = true) s ->
  sort_chunks l = s.
Proof.
  revert s. induction l as [|x l IH]; intros s P S.
  - apply Permutation_nil in P. now subst.
  - assert (I : In x s) by (eapply Permutation_in; [exact P | apply in_eq]).
    apply in_split in I as (s1 & s2 & ->).
    apply Permutation_cons_app_inv in P.
    apply StronglySorted_middle in S as (S1 & S2 & S3).
    cbn [sort_chunks]. rewrite (IH _ P S1).
    apply insert_chunk_middle; [exact S2|].
    eapply Forall_impl; [|exact S3]. intros y. apply key_lt_asym.
Qed.

Lemma extend_chunks_loaded (path : string) (names : list string) :
  forall (acc : list (stamp * image)) (chunks : list (list (stamp * image))),
    Forall2 (fun name chunk =>
               load_chunk_jb (os_path_join path name) = Returns chunk)
            (filter (fun c => negb (String.eqb c ".finished")) names) chunks ->
    extend_chunks path names acc = Returns (acc ++ concat chunks).
Proof.
  induction names as [|name names IH]; intros acc chunks F;
    cbn [filter extend_chunks] in *.
  - inversion F. cbn [concat]. now rewrite app_nil_r.
  - destruct (String.eqb name ".finished"); cbn [negb] in F.
    + apply IH, F.
    + inversion F as [|? c ? cs L F']; subst.
      rewrite L. cbn [and_then concat].
      rewrite (IH _ _ F'). now rewrite app_assoc.
Qed.

(** X15 (chunks are read in the order of their numbers).  Whatever the
    order in which the directory is listed, when the names have different
    keys, [concat_chunks] returns the contents of the chunks joined in
    increasing order of their keys, with [.finished] left out. *)
Theorem concat_chunks_in_order (path : string) (listing names : list string)
    (chunks : list (list (stamp * image))) :
  os_listdir path = Returns listing ->
  Permutation listing names ->
  StronglySorted (fun a b => key_lt (jb_number a) (jb_number b) = true)
                 names ->
  Forall2 (fun name chunk =>
             load_chunk_jb (os_path_join path name) = Returns chunk)
          (filter (fun c => negb (String.eqb c ".finished")) names) chunks ->
  concat_chunks path = Returns (concat chunks).
Proof.
  intros L P S F. unfold concat_chunks. rewrite L. cbn [and_then].
  rewrite (sort_chunks_unique P S).
  now rewrite (extend_chunks_loaded path names [] F).
Qed.

Lemma index_after_stem (stem tail : string) :
  (forall i, String.get i stem <> Some "."%char) ->
  prefix ".jb" tail = true ->
  index 0 ".jb" (stem ++ tail) = Some (String.length stem).
Proof.
  intros H T. induction stem as [|c stem IH].
  - cbn [String.append String.length].
    destruct tail as [|c tail]; [discriminate T|].
    cbn [index]. now rewrite T.
  - cbn [String.append String.length index].
    assert (P : prefix ".jb" (String c (stem ++ tail)) = false).
    { cbn [prefix]. destruct (ascii_dec "." c) as [E|E]; [|reflexivity].
      exfalso. apply (H 0). cbn [String.get]. now rewrite E. }
    rewrite P. rewrite IH; [reflexivity|].
    intros i. apply (H (S i)).
Qed.

Lemma prefix_jb (rest : string) : prefix ".jb" (".jb" ++ rest) = true.
Proof. apply prefix_correct. destruct rest; reflexivity. Qed.

Lemma substring_stem (stem rest : string) :
  substring 0 (String.length stem) (stem ++ rest) = stem.
Proof.
  induction stem as [|c stem IH]; cbn [String.append String.length substring].
  - destruct rest; reflexivity.
  - now rewrite IH.
Qed.

(** X16 (the key of a chunk).  The key of a name is the integer [int]
    reads before the first [.jb] of the name, whatever follows it, and
    infinity when [int] rejects that prefix; the name [.finished] has the
    key infinity, so a sort puts it after every numbered chunk. *)
Theorem jb_number_stem (stem rest : string) :
  (forall i, String.get i stem <> Some "."%char) ->
  jb_number (stem ++ ".jb" ++ rest) =
    match py_int stem with
    | Some z => KInt z
    | None => KInf
    end /\
  jb_number ".finished" = KInf /\
  forall name, key_lt (jb_number ".finished") (jb_number name) = false.
Proof.
  intros H. unfold jb_number. split; [|split].
  - rewrite (@index_after_stem stem _ H (prefix_jb rest)), substring_stem.
    reflexivity.
  - reflexivity.
  - intros name. reflexivity.
Qed.

End Chunks.

(** ** The theorems about the loader at concrete inputs *)

Lemma prune_inclusive_range_witness :
  exists kept,
    data_loader.prune_data (D := ex_disk) [10; 11; 12; 13; 14; 15] ex_trial =
      data_loader.Returns kept /\
    length kept = 4 /\
    forall i, i <= 3 ->
              nth_error kept i = nth_error [10; 11; 12; 13; 14; 15] (1 + i).
Proof.
  apply (@prune_inclusive_range ex_disk nat [10; 11; 12; 13; 14; 15] ex_trial
           (data_loader.PyStr "ok") [] 1 4).
  - reflexivity.
  - lia.
  - simpl. lia.
Defined.

Lemma prune_negative_end_witness :
  data_loader.prune_data (D := ex_disk) [10; 11; 12] ex_trial_tail =
  data_loader.Returns [].
Proof.
  apply (@prune_negative_end ex_disk nat [10; 11; 12] ex_trial_tail
           (data_loader.PyStr "ok") [] 1).
  - reflexivity.
  - simpl. lia.
Defined.

Lemma poses_images_aligned_witness :
  data_loader.load_poses (D := ex_disk) ex_trial "left" true 2 false =
    data_loader.Returns
      (data_loader.PoseList
         ([([1; 0; 0], [1; 0; 0; 0]); ([3; 0; 0], [1; 0; 0; 0])]%Z
          : list (@data_loader.rigid ex_disk))) /\
  data_loader.load_images (D := ex_disk) (data_loader.TrialRow ex_trial)
    "webcam" true 2 true =
    data_loader.Returns
      (data_loader.FrameArray ([101; 103] : list (@data_loader.frame ex_disk))).
Proof.
  exact (@poses_images_aligned ex_disk ex_trial "left" "webcam" true 2
           false true ex_poses (ex_chunk_9 ++ ex_chunk_10)
           eq_refl eq_refl eq_refl eq_refl eq_refl (fun _ => eq_refl)).
Defined.

Lemma joints_poses_aligned_witness :
  exists poses,
    data_loader.load_joints (D := ex_disk) ex_trial "left" =
      data_loader.Returns
        ([[1; 0; 0; 0; 0; 0; 0]; [2; 0; 0; 0; 0; 0; 0];
          [3; 0; 0; 0; 0; 0; 0]; [4; 0; 0; 0; 0; 0; 0]]%Z
         : list (list (@data_loader.num ex_disk))) /\
    data_loader.load_poses (D := ex_disk) ex_trial "left" true 2 false =
      data_loader.Returns (data_loader.PoseList poses) /\
    length poses = 2.
Proof.
  destruct (@joints_poses_aligned ex_disk ex_trial "left" 2 ex_poses ex_states
              eq_refl eq_refl eq_refl eq_refl eq_refl ltac:(lia))
    as (poses & H1 & H2 & H3 & _).
  exists poses. split; [exact H1|]. split; [exact H2 | exact H3].
Defined.

Lemma concat_chunks_in_order_witness :
  data_loader.concat_chunks (D := ex_disk) "/t/webcam" =
  data_loader.Returns (ex_chunk_9 ++ ex_chunk_10).
Proof.
  apply (@concat_chunks_in_order ex_disk "/t/webcam"
           [".finished"; "10.jb"; "9.jb"] ["9.jb"; "10.jb"; ".finished"]
           [ex_chunk_9; ex_chunk_10]).
  - reflexivity.
  - exact (Permutation_rev [".finished"; "10.jb"; "9.jb"]).
  - repeat constructor.
  - repeat constructor.
Defined.

Lemma jb_number_stem_witness :
  data_loader.jb_number (D := ex_disk) "10.jb.bak" = data_loader.KInt 10.
Proof.
  refine (proj1 (@jb_number_stem ex_disk "10" ".bak" _)).
  intros [|[|i]]; simpl; discriminate.
Defined.
